(** * web-fetch: the extraction-and-pagination pipeline of [src/index.ts]

    A shallow embedding of the TypeScript module and the properties of its
    paginator, section filter, URL normaliser and continuation store.

    Conventions of the embedding.
    - A JavaScript string is a [string]: a sequence of code units, each
      below 256.  On that range [toLowerCase], [trim] and the regular
      expressions of the module act exactly as written here.
    - A JavaScript number that the module uses as a count, an offset, a
      budget, a selector or a time stamp is a [Z]; [maxChars] and numeric
      selectors are integers, as the interface of the module says.  The one
      comparison the module makes against a fractional bound,
      [lastNewline > start + maxChars * 0.8], is carried out exactly, as
      [5 * start + 4 * maxChars < 5 * lastNewline]; for integers of the size
      of string offsets the floating-point product and sum cannot move the
      bound across an integer.
    - The module-level [contentCache], the readings of [Date.now()] and the
      calls to the transport are threaded through a state-and-exception
      monad.  A call to [fetchWebPage] runs to its end before the next
      operation starts.  The libraries the module calls (the transport,
      JSDOM, Readability, Turndown, the URL parser) are fields of an
      environment record. *)

From Stdlib Require Import ZArith Lia List Ascii String Bool Sorted.
From stdpp Require Import base option list gmap strings pretty.

Local Open Scope string_scope.
Local Open Scope Z_scope.

(** ** JavaScript string primitives *)

Module Js.

(** [s.length] *)
Definition len (s : string) : Z := Z.of_nat (String.length s).

Definition clamp (lo hi x : Z) : Z := Z.max lo (Z.min hi x).

(** [s.substring(start, end)]: both indices are clamped to [0, s.length]
    and swapped when [start > end]. *)
Definition substring (s : string) (start end_ : Z) : string :=
  let a := clamp 0 (len s) start in
  let b := clamp 0 (len s) end_ in
  String.substring (Z.to_nat (Z.min a b)) (Z.to_nat (Z.max a b - Z.min a b)) s.

(** [s.substring(start)] *)
Definition substring_from (s : string) (start : Z) : string :=
  substring s start (len s).

(** White space and line terminators among the code units below 256:
    TAB, LF, VT, FF, CR, SP and NBSP. *)
Definition is_space (c : ascii) : bool :=
  let n := nat_of_ascii c in
  ((9 <=? n)%nat && (n <=? 13)%nat) || (n =? 32)%nat || (n =? 160)%nat.

Fixpoint trimStart (s : string) : string :=
  match s with
  | EmptyString => EmptyString
  | String c s' => if is_space c then trimStart s' else s
  end.

Fixpoint trimEnd (s : string) : string :=
  match s with
  | EmptyString => EmptyString
  | String c s' =>
      match trimEnd s' with
      | EmptyString => if is_space c then EmptyString else String c EmptyString
      | r => String c r
      end
  end.

(** [s.trim()] *)
Definition trim (s : string) : string := trimEnd (trimStart s).

(** Left-to-right scan behind [lastIndexOf]: [i] is the index of the head
    of [s], [acc] the last index at most [bound] where [c] was seen. *)
Fixpoint lastIndexOf_scan (c : ascii) (s : string) (i bound acc : Z) : Z :=
  match s with
  | EmptyString => acc
  | String d s' =>
      lastIndexOf_scan c s' (i + 1) bound
        (if (i <=? bound) && Ascii.eqb d c then i else acc)
  end.

(** [s.lastIndexOf(c, fromIndex)] for a one-character search string: the
    search starts at [min(max(fromIndex, 0), s.length - 1)] and runs
    backwards; [-1] when there is no occurrence. *)
Definition lastIndexOf (s : string) (c : ascii) (fromIndex : Z) : Z :=
  lastIndexOf_scan c s 0 (Z.min (Z.max fromIndex 0) (len s - 1)) (-1).

(** [s.startsWith(p)] *)
Fixpoint startsWith (s p : string) : bool :=
  match p, s with
  | EmptyString, _ => true
  | String _ _, EmptyString => false
  | String a p', String b s' => Ascii.eqb a b && startsWith s' p'
  end.

(** [s.includes(p)] *)
Fixpoint includes (s p : string) : bool :=
  startsWith s p ||
  match s with
  | EmptyString => false
  | String _ s' => includes s' p
  end.

(** [c.toLowerCase()] on one code unit below 256: A-Z, and the Latin-1
    capitals U+00C0..U+00DE except the multiplication sign U+00D7. *)
Definition lower_char (c : ascii) : ascii :=
  let n := nat_of_ascii c in
  if ((65 <=? n)%nat && (n <=? 90)%nat)
     || ((192 <=? n)%nat && (n <=? 222)%nat && negb (n =? 215)%nat)
  then ascii_of_nat (n + 32) else c.

(** [s.toLowerCase()] *)
Fixpoint toLowerCase (s : string) : string :=
  match s with
  | EmptyString => EmptyString
  | String c s' => String (lower_char c) (toLowerCase s')
  end.

(** [s.split(sep)] for a one-character separator; the empty string splits
    into one empty piece. *)
Fixpoint split (sep : ascii) (s : string) : list string :=
  match s with
  | EmptyString => [EmptyString]
  | String c s' =>
      if Ascii.eqb c sep then EmptyString :: split sep s'
      else match split sep s' with
           | piece :: rest => String c piece :: rest
           | [] => [String c EmptyString]
           end
  end.

(** [Boolean(s)]: a string is truthy when it is not empty. *)
Definition truthy (s : string) : bool :=
  match s with EmptyString => false | String _ _ => true end.

(** [parts.join(sep)] *)
Definition join (sep : string) (parts : list string) : string :=
  String.concat sep parts.

(** [c.repeat(n)], used to write long sample documents. *)
Fixpoint repeat (c : string) (n : nat) : string :=
  match n with
  | O => EmptyString
  | S n' => c +:+ repeat c n'
  end.

End Js.

(** ** Paginator *)

Definition newline : ascii := ascii_of_nat 10.

(** The suffix appended to a truncated chunk: a blank line and the marker
    text. *)
Definition truncation_marker : string :=
  String newline (String newline "[... Truncated ...]").

Record Truncation := {
  tr_markdown : string;
  tr_hasMore : bool;
  tr_nextOffset : Z;
  tr_originalLength : option Z
}.

Definition truncateMarkdown (markdown : string) (maxChars offset : Z) : Truncation :=
  let start := offset in
  if Js.len markdown <=? start then
    {| tr_markdown := EmptyString; tr_hasMore := false; tr_nextOffset := start;
       tr_originalLength := None |}
  else if Js.len markdown - start <=? maxChars then
    {| tr_markdown := Js.substring_from markdown start; tr_hasMore := false;
       tr_nextOffset := Js.len markdown; tr_originalLength := None |}
  else
    let end0 := start + maxChars in
    let lastNewline := Js.lastIndexOf markdown newline end0 in
    let end_ := if 5 * start + 4 * maxChars <? 5 * lastNewline then lastNewline else end0 in
    {| tr_markdown := Js.trim (Js.substring markdown start end_) +:+ truncation_marker;
       tr_hasMore := true; tr_nextOffset := end_;
       tr_originalLength := Some (Js.len markdown) |}.

(** ** Global regular-expression replacement by the empty string

    [s.replace(re, '')] for a global [re] whose match at a position, when
    there is one, is unique: [matcher] is given the text from the current
    position on and answers the length of the match there.  The scan
    resumes after each match. *)

Fixpoint removeAll (matcher : string -> option nat) (s : string) (skip : nat) : string :=
  match s with
  | EmptyString => EmptyString
  | String c s' =>
      match skip with
      | S k => removeAll matcher s' k
      | O =>
          match matcher (String c s') with
          | Some n => removeAll matcher s' (Nat.pred n)
          | None => String c (removeAll matcher s' O)
          end
      end
  end.

(** [[^>]*>] read from the head of [s]: the number of code units up to and
    including the first [>], and the text after it.  The class excludes
    [>], so the greedy star has one way to let [>] follow. *)
Fixpoint upto_gt (s : string) : option (nat * string) :=
  match s with
  | EmptyString => None
  | String c s' =>
      if Ascii.eqb c ">" then Some (1%nat, s')
      else match upto_gt s' with
           | Some (n, rest) => Some (S n, rest)
           | None => None
           end
  end.

(** A literal of the pattern read under the [i] flag; [p] is written in
    lower case. *)
Fixpoint startsWith_ci (s p : string) : bool :=
  match p, s with
  | EmptyString, _ => true
  | String _ _, EmptyString => false
  | String a p', String b s' => Ascii.eqb a (Js.lower_char b) && startsWith_ci s' p'
  end.

(** Length of the shortest prefix of [s] that ends with the literal
    [close]. *)
Fixpoint upto_literal (close : string) (s : string) : option nat :=
  if startsWith_ci s close then Some (String.length close)
  else match s with
       | EmptyString => None
       | String _ s' => option_map S (upto_literal close s')
       end.

(** [s.slice(n)] for [n] within the string. *)
Fixpoint skipn_string (n : nat) (s : string) : string :=
  match n, s with
  | O, _ => s
  | S _, EmptyString => EmptyString
  | S n', String _ s' => skipn_string n' s'
  end.

(** [\w] *)
Definition is_word_char (c : ascii) : bool :=
  let n := nat_of_ascii c in
  ((48 <=? n)%nat && (n <=? 57)%nat) || ((65 <=? n)%nat && (n <=? 90)%nat)
  || ((97 <=? n)%nat && (n <=? 122)%nat) || (n =? 95)%nat.

(** [\b] right after a word character. *)
Definition word_boundary (s : string) : bool :=
  match s with
  | EmptyString => true
  | String c _ => negb (is_word_char c)
  end.

(** The script and style patterns of [cleanHtml] at the head of [s]: the
    opening [<name] at a word boundary, any text in which every [<] is not
    the start of [</name>], then [</name>]; that is, from the opening to
    the first [</name>] behind it, letters compared without case. *)
Definition element_block (open_ close : string) (s : string) : option nat :=
  let n := String.length open_ in
  if startsWith_ci s open_ && word_boundary (skipn_string n s) then
    option_map (Nat.add n) (upto_literal close (skipn_string n s))
  else None.

(** [/<!--[\s\S]*?-->/g] at the head of [s]. *)
Definition comment_block (s : string) : option nat :=
  if Js.startsWith s "<!--" then
    option_map (Nat.add 4) (upto_literal "-->" (skipn_string 4 s))
  else None.

Definition cleanHtml (html : string) : string :=
  removeAll comment_block
    (removeAll (element_block "<style" "</style>")
       (removeAll (element_block "<script" "</script>") html O) O) O.

(** ** Heading indexer *)

Record Heading := { level : Z; text : string; position : Z }.

Definition is_h (c : ascii) : bool := Ascii.eqb c "h" || Ascii.eqb c "H".

(** [[1-3]] and its value under [Number.parseInt]. *)
Definition heading_digit (c : ascii) : option Z :=
  if Ascii.eqb c "1" then Some 1
  else if Ascii.eqb c "2" then Some 2
  else if Ascii.eqb c "3" then Some 3
  else None.

(** [<\/h\1>] at the head of [s], for the digit [d] captured by group 1. *)
Definition closing_tag_at (d : ascii) (s : string) : bool :=
  match s with
  | String c1 (String c2 (String c3 (String c4 (String c5 _)))) =>
      Ascii.eqb c1 "<" && Ascii.eqb c2 "/" && is_h c3 && Ascii.eqb c4 d && Ascii.eqb c5 ">"
  | _ => false
  end.

(** [.] does not match a line terminator. *)
Definition is_line_terminator (c : ascii) : bool :=
  (nat_of_ascii c =? 10)%nat || (nat_of_ascii c =? 13)%nat.

(** [(.*?)<\/h\1>] at the head of [s]: the captured text and the number
    of code units consumed, closing tag included. *)
Fixpoint lazy_capture (d : ascii) (s : string) : option (string * nat) :=
  if closing_tag_at d s then Some (EmptyString, 5%nat)
  else match s with
       | EmptyString => None
       | String c s' =>
           if is_line_terminator c then None
           else match lazy_capture d s' with
                | Some (captured, n) => Some (String c captured, S n)
                | None => None
                end
       end.

(** [/<h([1-3])[^>]*>(.*?)<\/h\1>/i] at the head of [s]: the level, the
    text of group 2 and the length of the whole match. *)
Definition heading_match (s : string) : option (Z * string * nat) :=
  match s with
  | String c1 (String c2 (String d rest)) =>
      if Ascii.eqb c1 "<" && is_h c2 then
        match heading_digit d with
        | Some lvl =>
            match upto_gt rest with
            | Some (n1, rest1) =>
                match lazy_capture d rest1 with
                | Some (captured, n2) => Some (lvl, captured, (3 + n1 + n2)%nat)
                | None => None
                end
            | None => None
            end
        | None => None
        end
      else None
  | _ => None
  end.

(** [/<[^>]*>/g] at the head of [s]. *)
Definition tag_match (s : string) : option nat :=
  match s with
  | String c s' => if Ascii.eqb c "<" then option_map (fun p => S (fst p)) (upto_gt s') else None
  | EmptyString => None
  end.

(** The [while ((match = headingRegex.exec(html)) !== null)] loop: [pos]
    is the index of the head of [s] in the fragment, [skip] what is left
    of the last match. *)
Fixpoint extractHeadings_from (s : string) (pos : Z) (skip : nat) : list Heading :=
  match s with
  | EmptyString => []
  | String c s' =>
      match skip with
      | S k => extractHeadings_from s' (pos + 1) k
      | O =>
          match heading_match (String c s') with
          | Some (lvl, captured, n) =>
              let text := Js.trim (removeAll tag_match captured O) in
              (if Js.truthy text
               then [{| level := lvl; text := text; position := pos |}]
               else [])
              ++ extractHeadings_from s' (pos + 1) (Nat.pred n)
          | None => extractHeadings_from s' (pos + 1) O
          end
      end
  end.

Definition extractHeadings (html : string) : list Heading :=
  extractHeadings_from html 0 O.

Definition buildTOC (headings : list Heading) : option string :=
  match headings with
  | [] => None
  | _ =>
      Some (Js.join (String newline EmptyString)
              (map (fun heading =>
                      Js.repeat "  " (Z.to_nat (level heading - 1)) +:+ "- " +:+ text heading)
                   headings))
  end.

(** ** Section filter *)

(** A heading selector: a number or a string. *)
Inductive Selector :=
| ByNumber (n : Z)
| ByText (s : string).

Record FilterResult := {
  fr_html : string;
  fr_filtered : bool;
  fr_error : option string
}.

(** [array.findIndex(p)], counting from [i]; [-1] when nothing satisfies
    [p]. *)
Fixpoint findIndex_from {A : Type} (p : A -> bool) (l : list A) (i : Z) : Z :=
  match l with
  | [] => -1
  | x :: l' => if p x then i else findIndex_from p l' (i + 1)
  end.

Definition findIndex {A : Type} (p : A -> bool) (l : list A) : Z :=
  findIndex_from p l 0.

(** The inner [for] loop of [filterContentByHeadings], run over the
    headings behind the matched one: the position of the first whose level
    is at most [lvl], and [end_] as initialised when the loop finds none. *)
Fixpoint section_end (lvl : Z) (later : list Heading) (end_ : Z) : Z :=
  match later with
  | [] => end_
  | h :: later' => if level h <=? lvl then position h else section_end lvl later' end_
  end.

(** The index a selector resolves to, before the range check. *)
Definition target_index (headings : list Heading) (target : Selector) : Z :=
  match target with
  | ByNumber n => n - 1
  | ByText s =>
      let lower := Js.toLowerCase s in
      findIndex (fun heading => Js.includes (Js.toLowerCase (text heading)) lower) headings
  end.

(** One turn of the [for (const target of targets)] loop on the pair
    [(combinedHtml, filtered)]. *)
Definition filter_step (html : string) (headings : list Heading)
    (acc : string * bool) (target : Selector) : string * bool :=
  let index := target_index headings target in
  if (0 <=? index) && (index <? Z.of_nat (length headings)) then
    match headings !! Z.to_nat index with
    | Some heading =>
        let start := position heading in
        let end_ := section_end (level heading)
                      (drop (S (Z.to_nat index)) headings) (Js.len html) in
        (fst acc +:+ Js.substring html start end_ +:+ String newline (String newline EmptyString),
         true)
    | None => acc
    end
  else acc.

Definition filterContentByHeadings (html : string) (headings : list Heading)
    (targets : list Selector) : FilterResult :=
  let '(combinedHtml, filtered) :=
    fold_left (filter_step html headings) targets (EmptyString, false) in
  {| fr_html := combinedHtml;
     fr_filtered := filtered;
     fr_error := if filtered then None else Some "No matching headings found" |}.

(** ** Environment, errors and the state monad *)

Inductive error :=
| Error (message : string)
| BodySizeError (maxBodySizeBytes : Z)
| External (reason : string).

Inductive outcome (A : Type) :=
| Returned (a : A)
| Thrown (e : error).

Arguments Returned {A} a.
Arguments Thrown {A} e.

(** What the module reads of [new URL(url)]. *)
Record URL := { hostname : string; pathname : string }.

(** What the module reads of the article of Readability. *)
Record Article := {
  art_length : option Z;
  art_content : option string;
  art_title : option string;
  art_excerpt : option string
}.

Record Element := { textContent : string; innerHTML : string }.

(** What the module reads of the JSDOM document: its title, the outcome of
    [new Readability(doc.cloneNode(true)).parse()] ([None] for [null] and
    for an exception, which the module treats alike) and
    [doc.querySelector]. *)
Record Document := {
  doc_title : string;
  doc_readability : option Article;
  doc_querySelector : string -> option Element
}.

Record RequestInit := { ri_userAgent : string; ri_timeout : Z }.

Record FetchLikeResponse := {
  ok : bool;
  status : Z;
  statusText : string;
  content_type : option string;
  body_text : outcome string
}.

Definition FetchLike : Type := string -> RequestInit -> outcome FetchLikeResponse.

Record Env := {
  date_now : nat -> Z;
  new_URL : string -> option URL;
  globalThis_fetch : option FetchLike;
  new_JSDOM : string -> string -> outcome Document;
  turndown : string -> string
}.

Record Metadata := { method : string }.

Record CacheEntry := {
  ce_markdown : string;
  ce_offset : Z;
  ce_url : string;
  ce_title : string;
  ce_metadata : Metadata;
  ce_timestamp : Z
}.

(** The state a call can read and change: the module-level [contentCache],
    the number of readings of [Date.now()] so far, and the calls made to
    the transport, latest first. *)
Record World := {
  contentCache : gmap string CacheEntry;
  clockReads : nat;
  transportCalls : list (string * RequestInit)
}.

Definition M (A : Type) : Type := World -> outcome A * World.

Definition ret {A : Type} (a : A) : M A := fun w => (Returned a, w).

Definition throw {A : Type} (e : error) : M A := fun w => (Thrown e, w).

Definition bind {A B : Type} (m : M A) (k : A -> M B) : M B :=
  fun w =>
    match m w with
    | (Returned a, w') => k a w'
    | (Thrown e, w') => (Thrown e, w')
    end.

Notation "x <- m ;; k" := (bind m (fun x => k))
  (at level 100, m at next level, right associativity).

Definition lift {A : Type} (o : outcome A) : M A := fun w => (o, w).

(** [Date.now()] *)
Definition Date_now (E : Env) : M Z :=
  fun w =>
    (Returned (date_now E (clockReads w)),
     {| contentCache := contentCache w;
        clockReads := S (clockReads w);
        transportCalls := transportCalls w |}).

(** [contentCache.get(key)] *)
Definition cache_get (key : string) : M (option CacheEntry) :=
  fun w => (Returned (contentCache w !! key), w).

(** [contentCache.set(key, entry)] *)
Definition cache_set (key : string) (entry : CacheEntry) : M unit :=
  fun w =>
    (Returned tt,
     {| contentCache := <[key := entry]> (contentCache w);
        clockReads := clockReads w;
        transportCalls := transportCalls w |}).

(** [await fetchImpl(url, init)] *)
Definition call_fetch (fetchImpl : FetchLike) (url : string) (init : RequestInit)
  : M FetchLikeResponse :=
  fun w =>
    (fetchImpl url init,
     {| contentCache := contentCache w;
        clockReads := clockReads w;
        transportCalls := (url, init) :: transportCalls w |}).

(** ** Continuation store *)

Definition CACHE_TTL : Z := 5 * 60 * 1000.

(** The body of the [setInterval] callback: every entry older than
    [CACHE_TTL] is deleted. *)
Definition cleanup (E : Env) : M unit :=
  now <- Date_now E ;;
  fun w =>
    (Returned tt,
     {| contentCache :=
          filter (fun kv => ~ (now - ce_timestamp (snd kv) > CACHE_TTL)) (contentCache w);
        clockReads := clockReads w;
        transportCalls := transportCalls w |}).

Definition clearWebFetchCache : M unit :=
  fun w =>
    (Returned tt,
     {| contentCache := ∅;
        clockReads := clockReads w;
        transportCalls := transportCalls w |}).

Definition generateCacheKey (E : Env) (url type : string) (value : Z) : M string :=
  now <- Date_now E ;;
  ret (url +:+ ":" +:+ type +:+ ":" +:+ pretty value +:+ ":" +:+ pretty now).

(** ** URL normaliser *)

Definition convertGithubToRaw (E : Env) (url : string) : string :=
  match new_URL E url with
  | Some parsed =>
      if String.eqb (hostname parsed) "github.com" then
        let parts := List.filter Js.truthy (Js.split "/" (pathname parsed)) in
        match parts with
        | user :: repo :: part2 :: branch :: rest =>
            if String.eqb part2 "blob" then
              let filePath := Js.join "/" rest in
              "https://raw.githubusercontent.com/" +:+ user +:+ "/" +:+ repo +:+ "/"
                +:+ branch +:+ "/" +:+ filePath
            else url
        | _ => url
        end
      else url
  | None => url
  end.

(** ** The fetch-or-continue operation *)

Definition DEFAULT_MAX_CHARS : Z := 10000.
Definition MAX_CHARS_LIMIT : Z := 200000.
Definition DEFAULT_MAX_BODY_SIZE : Z := 10 * 1024 * 1024.
Definition MIN_READABILITY_LENGTH : Z := 300.
Definition MIN_SELECTOR_LENGTH : Z := 300.
Definition DEFAULT_TIMEOUT_MS : Z := 15000.
Definition DEFAULT_USER_AGENT : string :=
  "Mozilla/5.0 (compatible; WebFetch/1.0; +https://github.com/qduc/term2)".

Record WebFetchOptions := {
  opt_url : option string;
  opt_maxChars : option Z;
  opt_headings : option (list Selector);
  opt_continuationToken : option string;
  opt_timeoutMs : option Z;
  opt_userAgent : option string;
  opt_maxBodySizeBytes : option Z;
  opt_fetchImpl : option FetchLike
}.

Record WebFetchResult := {
  res_title : string;
  res_url : string;
  res_markdown : string;
  res_toc : option string;
  res_continuationToken : option string;
  res_method : string
}.

Record ExtractedContent := {
  ec_html : string;
  ec_title : string;
  ec_excerpt : option string
}.

(** [if (s)] on an optional string: present and not empty. *)
Definition provided (s : option string) : option string :=
  match s with
  | Some v => if Js.truthy v then Some v else None
  | None => None
  end.

(** [s || fallback] *)
Definition or_else (s fallback : string) : string :=
  if Js.truthy s then s else fallback.

Definition handleContinuation (E : Env) (token : string) (maxChars : Z) : M WebFetchResult :=
  cached_opt <- cache_get token ;;
  match cached_opt with
  | None => throw (Error "Continuation token expired or invalid.")
  | Some cached =>
      let result := truncateMarkdown (ce_markdown cached) maxChars (ce_offset cached) in
      nextToken <-
        (if tr_hasMore result then
           nextToken <- generateCacheKey E (ce_url cached) "continuation" (tr_nextOffset result) ;;
           timestamp <- Date_now E ;;
           _ <- cache_set nextToken
                  {| ce_markdown := ce_markdown cached;
                     ce_offset := tr_nextOffset result;
                     ce_url := ce_url cached;
                     ce_title := ce_title cached;
                     ce_metadata := ce_metadata cached;
                     ce_timestamp := timestamp |} ;;
           ret (Some nextToken)
         else ret None) ;;
      ret {| res_title := ce_title cached;
             res_url := ce_url cached;
             res_toc := None;
             res_markdown := tr_markdown result;
             res_continuationToken := nextToken;
             res_method := method (ce_metadata cached) |}
  end.

(** The selector tier: the first of the selectors whose element has more
    than [MIN_SELECTOR_LENGTH] code units of trimmed text. *)
Fixpoint probe_selectors (doc : Document) (selectors : list string)
  : option (ExtractedContent * string) :=
  match selectors with
  | [] => None
  | selector :: selectors' =>
      match doc_querySelector doc selector with
      | Some element =>
          if MIN_SELECTOR_LENGTH <? Js.len (Js.trim (textContent element)) then
            Some ({| ec_html := innerHTML element;
                     ec_title := or_else (doc_title doc) "Untitled";
                     ec_excerpt := None |},
                  "selector:" +:+ selector)
          else probe_selectors doc selectors'
      | None => probe_selectors doc selectors'
      end
  end.

(** The three extraction tiers of [fetchWebPage], with the method label. *)
Definition extractContent (doc : Document) (html : string) : ExtractedContent * string :=
  let readability_tier :=
    match doc_readability doc with
    | Some article =>
        if MIN_READABILITY_LENGTH <? default 0 (art_length article) then
          Some ({| ec_html := default EmptyString (art_content article);
                   ec_title := default (or_else (doc_title doc) "Untitled") (art_title article);
                   ec_excerpt := art_excerpt article |},
                "readability")
        else None
    | None => None
    end in
  match readability_tier with
  | Some found => found
  | None =>
      match probe_selectors doc ["main"; "article"; "#content"; ".content"; ".main"] with
      | Some found => found
      | None =>
          ({| ec_html := cleanHtml html;
              ec_title := or_else (doc_title doc) "Untitled";
              ec_excerpt := None |},
           "basic-clean")
      end
  end.

(** The fragment handed to the converter: the filtered sections when the
    request has selectors and one of them resolves, the whole fragment
    otherwise. *)
Definition select_sections (html : string) (allHeadings : list Heading)
    (headings : option (list Selector)) : string :=
  match headings with
  | Some (target :: targets) =>
      let filterResult := filterContentByHeadings html allHeadings (target :: targets) in
      if negb (match fr_error filterResult with Some e => Js.truthy e | None => false end)
         && fr_filtered filterResult
      then fr_html filterResult
      else html
  | _ => html
  end.

(** The content-type gate. *)
Definition content_type_accepted (contentType : string) : bool :=
  if negb (Js.includes contentType "text/html")
     && negb (Js.includes contentType "application/xhtml+xml")
     && negb (Js.includes contentType "text/plain")
  then
    negb (negb (Js.includes contentType "text")
          && negb (Js.includes contentType "json")
          && negb (Js.includes contentType "xml"))
  else true.

(** The part of [fetchWebPage] behind the construction of the document:
    extraction, heading index, section filter, conversion, truncation and
    the minting of the continuation token. *)
Definition extractAndPaginate (E : Env) (url : string) (maxChars : Z)
    (headings : option (list Selector)) (html : string) (doc : Document)
  : M WebFetchResult :=
  let '(extractedContent, method_) := extractContent doc html in
  let allHeadings := extractHeadings (ec_html extractedContent) in
  let toc := buildTOC allHeadings in
  let filteredHtml := select_sections (ec_html extractedContent) allHeadings headings in
  let markdown := turndown E filteredHtml in
  let truncationResult := truncateMarkdown markdown maxChars 0 in
  nextContinuationToken <-
    (if tr_hasMore truncationResult && (length allHeadings =? 0)%nat then
       nextContinuationToken <-
         generateCacheKey E url "continuation" (tr_nextOffset truncationResult) ;;
       timestamp <- Date_now E ;;
       _ <- cache_set nextContinuationToken
              {| ce_markdown := turndown E (ec_html extractedContent);
                 ce_offset := tr_nextOffset truncationResult;
                 ce_url := url;
                 ce_title := ec_title extractedContent;
                 ce_metadata := {| method := method_ |};
                 ce_timestamp := timestamp |} ;;
       ret (Some nextContinuationToken)
     else ret None) ;;
  ret {| res_title := ec_title extractedContent;
         res_url := url;
         res_markdown := tr_markdown truncationResult;
         res_toc := toc;
         res_continuationToken := nextContinuationToken;
         res_method := method_ |}.

Definition fetchWebPage (E : Env) (options : WebFetchOptions) : M WebFetchResult :=
  let maxChars := default DEFAULT_MAX_CHARS (opt_maxChars options) in
  let timeoutMs := default DEFAULT_TIMEOUT_MS (opt_timeoutMs options) in
  let userAgent := default DEFAULT_USER_AGENT (opt_userAgent options) in
  let maxBodySizeBytes := default DEFAULT_MAX_BODY_SIZE (opt_maxBodySizeBytes options) in
  let fetchImpl :=
    match opt_fetchImpl options with
    | Some f => Some f
    | None => globalThis_fetch E
    end in
  match provided (opt_continuationToken options) with
  | Some continuationToken => handleContinuation E continuationToken maxChars
  | None =>
  match provided (opt_url options) with
  | None => throw (Error "URL is required for initial fetch.")
  | Some url =>
  match fetchImpl with
  | None => throw (Error "Fetch implementation is not available.")
  | Some fetchImpl =>
  if (maxChars <? 200) || (MAX_CHARS_LIMIT <? maxChars) then
    throw (Error ("maxChars must be between 200 and " +:+ pretty MAX_CHARS_LIMIT +:+ "."))
  else
    let effectiveUrl := convertGithubToRaw E url in
    response <- call_fetch fetchImpl effectiveUrl
                  {| ri_userAgent := userAgent; ri_timeout := timeoutMs |} ;;
    if negb (ok response) then
      throw (Error ("HTTP error! status: " +:+ pretty (status response) +:+ " "
                    +:+ statusText response))
    else
    let contentType := or_else (default EmptyString (content_type response)) EmptyString in
    if negb (content_type_accepted contentType) then
      throw (Error ("Unsupported content type: " +:+ contentType))
    else
    html <- lift (body_text response) ;;
    if maxBodySizeBytes <? Js.len html then throw (BodySizeError maxBodySizeBytes)
    else
    doc <- lift (new_JSDOM E html url) ;;
    extractAndPaginate E url maxChars (opt_headings options) html doc
  end end end.

(** ** A caller that follows continuation tokens

    The loop of a caller that fetches and then presents each returned
    token until the response carries none, collecting the chunks.  [fuel]
    bounds the number of continuation calls; [None] reports that it ran
    out. *)

Definition continuation_request (token : string) (maxChars : option Z) : WebFetchOptions :=
  {| opt_url := None; opt_maxChars := maxChars; opt_headings := None;
     opt_continuationToken := Some token; opt_timeoutMs := None;
     opt_userAgent := None; opt_maxBodySizeBytes := None; opt_fetchImpl := None |}.

Fixpoint follow_tokens (E : Env) (fuel : nat) (token : option string) (maxChars : option Z)
  : M (option (list string)) :=
  match token with
  | None => ret (Some [])
  | Some tok =>
      match fuel with
      | O => ret None
      | S fuel' =>
          r <- fetchWebPage E (continuation_request tok maxChars) ;;
          rest <- follow_tokens E fuel' (res_continuationToken r) maxChars ;;
          ret (option_map (cons (res_markdown r)) rest)
      end
  end.

Definition fetch_all (E : Env) (fuel : nat) (options : WebFetchOptions)
  : M (option (list string)) :=
  first <- fetchWebPage E options ;;
  rest <- follow_tokens E fuel (res_continuationToken first) (opt_maxChars options) ;;
  ret (option_map (cons (res_markdown first)) rest).

(** [chunk] without the truncation marker at its end, when it has one. *)
Definition remove_marker (chunk : string) : string :=
  let n := (String.length chunk - String.length truncation_marker)%nat in
  if (String.length truncation_marker <=? String.length chunk)%nat
     && String.eqb (String.substring n (String.length truncation_marker) chunk)
          truncation_marker
  then String.substring 0 n chunk
  else chunk.

(** ** Sample environment

    A transport that answers every request with one HTML body, as
    [createFetch] of the test suite does; a document without a title
    element on which Readability and [querySelector] find nothing, so that
    the basic-clean tier supplies the fragment; a URL parser for
    [https://host/path] strings; and a converter given as an argument. *)

Definition createFetch (html : string) : FetchLike :=
  fun _ _ =>
    Returned {| ok := true; status := 200; statusText := "OK";
                content_type := Some "text/html"; body_text := Returned html |}.

Fixpoint upto_char (c : ascii) (s : string) : string :=
  match s with
  | EmptyString => EmptyString
  | String d s' => if Ascii.eqb d c then EmptyString else String d (upto_char c s')
  end.

Definition sample_URL (url : string) : option URL :=
  if Js.startsWith url "https://" then
    let rest := skipn_string 8 url in
    let host := upto_char "/" rest in
    let path := upto_char "#" (upto_char "?" (skipn_string (String.length host) rest)) in
    if Js.truthy host
    then Some {| hostname := host; pathname := or_else path "/" |}
    else None
  else None.

Definition sample_env (converter : string -> string) : Env :=
  {| date_now := fun n => 1700000000000 + Z.of_nat n;
     new_URL := sample_URL;
     globalThis_fetch := None;
     new_JSDOM := fun _ _ =>
       Returned {| doc_title := EmptyString; doc_readability := None;
                   doc_querySelector := fun _ => None |};
     turndown := converter |}.

Definition empty_world : World :=
  {| contentCache := ∅; clockReads := O; transportCalls := [] |}.

Definition initial_request (url : string) (maxChars : Z) (fetchImpl : FetchLike)
  : WebFetchOptions :=
  {| opt_url := Some url; opt_maxChars := Some maxChars; opt_headings := None;
     opt_continuationToken := None; opt_timeoutMs := None;
     opt_userAgent := None; opt_maxBodySizeBytes := None;
     opt_fetchImpl := Some fetchImpl |}.

(** ** Notions used to state the properties *)

(** [t] contains [s] as a substring. *)
Definition contains (t s : string) : Prop :=
  exists pre post, t = pre +:+ s +:+ post.

(** The text of [heading] contains [s], letters compared without case. *)
Definition mentions (heading : Heading) (s : string) : Prop :=
  contains (Js.toLowerCase (text heading)) (Js.toLowerCase s).

(** The heading index a selector resolves to: a number [n] to [n - 1], a
    text to the first heading that mentions it. *)
Definition resolves (headings : list Heading) (target : Selector) (i : nat) : Prop :=
  match target with
  | ByNumber n => Z.of_nat i = n - 1 /\ (i < length headings)%nat
  | ByText s =>
      (exists heading, headings !! i = Some heading /\ mentions heading s)
      /\ forall j heading, (j < i)%nat -> headings !! j = Some heading -> ~ mentions heading s
  end.

(** [e] is where the section of heading [i], of level [lvl], ends: the
    position of the next heading of a level at most [lvl], or the length of
    the fragment when no later heading has such a level. *)
Definition section_ends (html : string) (headings : list Heading) (i : nat) (lvl e : Z)
  : Prop :=
  (exists j next,
      (i < j)%nat /\ headings !! j = Some next /\ level next <= lvl /\ e = position next
      /\ forall k between, (i < k < j)%nat -> headings !! k = Some between -> lvl < level between)
  \/ ((forall k later, (i < k)%nat -> headings !! k = Some later -> lvl < level later)
      /\ e = Js.len html).

(** The spans that a list of selectors picks, in selector order; a
    selector that resolves to no heading picks nothing. *)
Inductive sections (html : string) (headings : list Heading)
  : list Selector -> list string -> Prop :=
| sections_done : sections html headings [] []
| sections_hit target targets i heading e spans :
    resolves headings target i ->
    headings !! i = Some heading ->
    section_ends html headings i (level heading) e ->
    sections html headings targets spans ->
    sections html headings (target :: targets)
      (Js.substring html (position heading) e :: spans)
| sections_miss target targets spans :
    (forall i, ~ resolves headings target i) ->
    sections html headings targets spans ->
    sections html headings (target :: targets) spans.

(** Every span followed by a blank line. *)
Fixpoint blank_line_separated (spans : list string) : string :=
  match spans with
  | [] => EmptyString
  | span :: spans' =>
      span +:+ String newline (String newline EmptyString) +:+ blank_line_separated spans'
  end.

(** The invariant of a continuation entry and of the store. *)
Definition entry_ok (entry : CacheEntry) : Prop :=
  0 <= ce_offset entry <= Js.len (ce_markdown entry).

Definition store_ok (w : World) : Prop :=
  forall key entry, contentCache w !! key = Some entry -> entry_ok entry.

(** The chunks a caller receives for consecutive slices of a document:
    every slice but the last trimmed and followed by the truncation
    marker, the last one as it is. *)
Fixpoint chunks_of (slices : list string) : list string :=
  match slices with
  | [] => []
  | [slice] => [slice]
  | slice :: slices' => (Js.trim slice +:+ truncation_marker) :: chunks_of slices'
  end.

Fixpoint concat_strings (l : list string) : string :=
  match l with
  | [] => EmptyString
  | s :: l' => s +:+ concat_strings l'
  end.

Definition set_maxChars (options : WebFetchOptions) (maxChars : option Z) : WebFetchOptions :=
  {| opt_url := opt_url options; opt_maxChars := maxChars;
     opt_headings := opt_headings options;
     opt_continuationToken := opt_continuationToken options;
     opt_timeoutMs := opt_timeoutMs options; opt_userAgent := opt_userAgent options;
     opt_maxBodySizeBytes := opt_maxBodySizeBytes options;
     opt_fetchImpl := opt_fetchImpl options |}.

(** The fetch implementation a request ends up with. *)
Definition fetch_available (E : Env) (options : WebFetchOptions) : bool :=
  match opt_fetchImpl options, globalThis_fetch E with
  | None, None => false
  | _, _ => true
  end.

(** A path segment: not empty and without a slash. *)
Fixpoint slash_free (s : string) : bool :=
  match s with
  | EmptyString => true
  | String c s' => negb (Ascii.eqb c "/") && slash_free s'
  end.

Definition is_segment (s : string) : Prop :=
  Js.truthy s = true /\ slash_free s = true.

(** [segments_of path segs]: [path] is made of the segments [segs], in
    this order, with slashes between them, around them or repeated. *)
Inductive segments_of : string -> list string -> Prop :=
| segments_end : segments_of EmptyString []
| segments_slash path segs :
    segments_of path segs -> segments_of (String "/" path) segs
| segments_last seg :
    is_segment seg -> segments_of seg [seg]
| segments_next seg path segs :
    is_segment seg -> segments_of path segs ->
    segments_of (seg +:+ String "/" path) (seg :: segs).

(** The path shape [/{user}/{repo}/blob/{branch}/{path...}]. *)
Definition blob_shape (path : string) (user repo branch : string) (rest : list string) : Prop :=
  segments_of path (user :: repo :: "blob" :: branch :: rest).

(** The key [generateCacheKey(url, 'continuation', value)] makes when the
    clock reads [now]. *)
Definition continuation_key (url : string) (value now : Z) : string :=
  url +:+ ":" +:+ "continuation" +:+ ":" +:+ pretty value +:+ ":" +:+ pretty now.

(** The world after a key was generated and an entry stored under it: two
    readings of the clock, the first for the key and the second for the
    time stamp. *)
Definition after_minting (E : Env) (w : World) (url : string) (value : Z)
    (entry : Z -> CacheEntry) : World :=
  {| contentCache :=
       <[continuation_key url value (date_now E (clockReads w))
         := entry (date_now E (S (clockReads w)))]> (contentCache w);
     clockReads := S (S (clockReads w));
     transportCalls := transportCalls w |}.

(** The world after one call to the transport. *)
Definition after_call (w : World) (url : string) (init : RequestInit) : World :=
  {| contentCache := contentCache w;
     clockReads := clockReads w;
     transportCalls := (url, init) :: transportCalls w |}.

(** What an initial fetch obtains before it extracts anything: the
    request names [url], a fetch implementation is at hand and answers the
    normalised URL with an accepted response of body [html], within the
    size limit, of which JSDOM builds [doc]; [w1] is the world after the
    transport call. *)
Definition acquired (E : Env) (options : WebFetchOptions) (w : World)
    (url html : string) (doc : Document) (w1 : World) : Prop :=
  provided (opt_continuationToken options) = None
  /\ provided (opt_url options) = Some url
  /\ exists fetchImpl response,
       match opt_fetchImpl options with
       | Some f => Some f
       | None => globalThis_fetch E
       end = Some fetchImpl
       /\ let init := {| ri_userAgent := default DEFAULT_USER_AGENT (opt_userAgent options);
                         ri_timeout := default DEFAULT_TIMEOUT_MS (opt_timeoutMs options) |} in
          fetchImpl (convertGithubToRaw E url) init = Returned response
          /\ w1 = after_call w (convertGithubToRaw E url) init
          /\ ok response = true
          /\ content_type_accepted
               (or_else (default EmptyString (content_type response)) EmptyString) = true
          /\ body_text response = Returned html
          /\ Js.len html <= default DEFAULT_MAX_BODY_SIZE (opt_maxBodySizeBytes options)
          /\ new_JSDOM E html url = Returned doc.

Definition in_range (maxChars : Z) : Prop := 200 <= maxChars <= MAX_CHARS_LIMIT.

(** The fragment of an initial fetch, its headings and the Markdown of
    what the request selects of it. *)
Definition fragment_of (doc : Document) (html : string) : string :=
  ec_html (fst (extractContent doc html)).

Definition selected_markdown (E : Env) (options : WebFetchOptions)
    (doc : Document) (html : string) : string :=
  turndown E (select_sections (fragment_of doc html)
                (extractHeadings (fragment_of doc html)) (opt_headings options)).

(** Heading filtering was applied: the request carries selectors and one
    of them resolved. *)
Definition filter_applied (options : WebFetchOptions) (doc : Document) (html : string)
  : Prop :=
  exists target targets,
    opt_headings options = Some (target :: targets)
    /\ fr_filtered (filterContentByHeadings (fragment_of doc html)
                      (extractHeadings (fragment_of doc html)) (target :: targets)) = true.

(** The key discipline of the store: every entry sits under a key
    generated from its own URL and offset. *)
Definition store_keyed (w : World) : Prop :=
  forall key entry, contentCache w !! key = Some entry ->
    exists now, key = continuation_key (ce_url entry) (ce_offset entry) now.

(** The worlds the module can be in: it starts with an empty cache, and
    requests, sweeps and clearings take it from one world to the next. *)
Inductive reachable (E : Env) : World -> Prop :=
| reach_start w : contentCache w = ∅ -> reachable E w
| reach_fetch options w : reachable E w -> reachable E (snd (fetchWebPage E options w))
| reach_cleanup w : reachable E w -> reachable E (snd (cleanup E w))
| reach_clear w : reachable E w -> reachable E (snd (clearWebFetchCache w)).

(** [s] has no colon. *)
Fixpoint colon_free (s : string) : bool :=
  match s with
  | EmptyString => true
  | String c s' => negb (Ascii.eqb c ":") && colon_free s'
  end.

(** ** Sample documents *)

(** The long page of the test suite's continuation test, without
    headings: 300 code units with a space at index 199. *)
Definition plain_page : string :=
  Js.repeat "a" 199 +:+ " " +:+ Js.repeat "b" 100.

(** A page with one heading and 300 code units of text, and the Markdown
    the converter makes of it under [headingStyle: atx]. *)
Definition headed_page : string := "<h1>T</h1>" +:+ Js.repeat "a" 300.

Definition headed_markdown : string :=
  "# T" +:+ String newline (String newline (Js.repeat "a" 300)).

(** A converter tabulated at [headed_page]; plain text passes through. *)
Definition sample_turndown (html : string) : string :=
  if String.eqb html headed_page then headed_markdown else html.

Definition sample : Env := sample_env sample_turndown.

(** The long text of the test suite's continuation test. *)
Definition long_page : string := Js.repeat "Lorem ipsum " 200.

Definition long_url : string := "https://example.com/long".

(** ** Notions used to state further properties *)

(** Every code unit of [s] satisfies [p]. *)
Fixpoint all_chars (p : ascii -> bool) (s : string) : bool :=
  match s with
  | EmptyString => true
  | String c s' => p c && all_chars p s'
  end.

(** [s] does not contain the code unit [c]. *)
Definition free_of (c : ascii) (s : string) : bool :=
  all_chars (fun d => negb (Ascii.eqb d c)) s.

(** [s] is on one line. *)
Definition one_line (s : string) : bool :=
  all_chars (fun d => negb (is_line_terminator d)) s.

(** A heading found [d] code units further into the document. *)
Definition shift_heading (d : Z) (heading : Heading) : Heading :=
  {| level := level heading; text := text heading; position := position heading + d |}.

(** The line of the table of contents for one heading. *)
Definition toc_line (heading : Heading) : string :=
  Js.repeat "  " (Z.to_nat (level heading - 1)) +:+ "- " +:+ text heading.

Definition set_headings (options : WebFetchOptions) (headings : option (list Selector))
  : WebFetchOptions :=
  {| opt_url := opt_url options; opt_maxChars := opt_maxChars options;
     opt_headings := headings;
     opt_continuationToken := opt_continuationToken options;
     opt_timeoutMs := opt_timeoutMs options; opt_userAgent := opt_userAgent options;
     opt_maxBodySizeBytes := opt_maxBodySizeBytes options;
     opt_fetchImpl := opt_fetchImpl options |}.

(** The labels [fetchWebPage] gives to its extraction tiers. *)
Definition method_labels : list string :=
  ["readability"; "selector:main"; "selector:article"; "selector:#content";
   "selector:.content"; "selector:.main"; "basic-clean"].

(** The request options of the transport call of a request. *)
Definition request_init (options : WebFetchOptions) : RequestInit :=
  {| ri_userAgent := default DEFAULT_USER_AGENT (opt_userAgent options);
     ri_timeout := default DEFAULT_TIMEOUT_MS (opt_timeoutMs options) |}.

(** The worlds the module reaches when no request carries a negative
    budget. *)
Inductive reachable_with_budgets (E : Env) : World -> Prop :=
| budgets_start w : contentCache w = ∅ -> reachable_with_budgets E w
| budgets_fetch options w :
    0 <= default DEFAULT_MAX_CHARS (opt_maxChars options) ->
    reachable_with_budgets E w ->
    reachable_with_budgets E (snd (fetchWebPage E options w))
| budgets_cleanup w :
    reachable_with_budgets E w -> reachable_with_budgets E (snd (cleanup E w))
| budgets_clear w :
    reachable_with_budgets E w -> reachable_with_budgets E (snd (clearWebFetchCache w)).

(** The code unit of [s] at index [i], when there is one. *)
Definition char_at (s : string) (i : Z) : option ascii :=
  if i <? 0 then None else String.get (Z.to_nat i) s.

(** The fragment has, at the position of [heading], the opening of a
    heading tag of its level: [<], [h] or [H], and the digit. *)
Definition opens_heading (html : string) (heading : Heading) : Prop :=
  char_at html (position heading) = Some "<"%char
  /\ exists c d,
       char_at html (position heading + 1) = Some c /\ is_h c = true
       /\ char_at html (position heading + 2) = Some d
       /\ heading_digit d = Some (level heading).

(** * Properties *)

(** ** Strings *)

Section StringFacts.

Implicit Types s t u : string.

Lemma app_cons c s t : String c s +:+ t = String c (s +:+ t).
Proof. reflexivity. Qed.

Lemma app_empty_l s : EmptyString +:+ s = s.
Proof. reflexivity. Qed.

Lemma app_empty_r s : s +:+ EmptyString = s.
Proof. induction s as [|c s IH]; [reflexivity|]. rewrite app_cons. by f_equal. Qed.

Lemma app_assoc_string s t u : (s +:+ t) +:+ u = s +:+ (t +:+ u).
Proof. induction s as [|c s IH]; [reflexivity|]. rewrite !app_cons. by f_equal. Qed.

Lemma length_app_string s t :
  String.length (s +:+ t) = (String.length s + String.length t)%nat.
Proof. induction s as [|c s IH]; [reflexivity|]. rewrite app_cons. simpl. by f_equal. Qed.

Lemma len_nonneg s : 0 <= Js.len s.
Proof. unfold Js.len. lia. Qed.

Lemma len_app s t : Js.len (s +:+ t) = Js.len s + Js.len t.
Proof. unfold Js.len. rewrite length_app_string. lia. Qed.

Lemma length_substring s : forall n m,
  String.length (String.substring n m s) = Nat.min m (String.length s - n).
Proof.
  induction s as [|c s IH]; intros [|n] [|m]; simpl; try reflexivity.
  - by rewrite IH, Nat.sub_0_r.
  - by rewrite IH.
  - by rewrite IH.
Qed.

Lemma substring_whole s : String.substring 0 (String.length s) s = s.
Proof. induction s as [|c s IH]; [reflexivity|]. simpl. by f_equal. Qed.

Lemma substring_zero s n : String.substring n 0 s = EmptyString.
Proof. revert n. induction s as [|c s IH]; intros [|n]; simpl; auto. Qed.

(** Two adjacent slices make one. *)
Lemma substring_adjacent s : forall n m k,
  String.substring n m s +:+ String.substring (n + m) k s = String.substring n (m + k) s.
Proof.
  induction s as [|c s IH]; intros n m k.
  - by destruct n, m, k.
  - destruct n as [|n].
    + destruct m as [|m].
      * simpl. destruct k; reflexivity.
      * simpl. rewrite app_cons. f_equal. apply (IH 0%nat m k).
    + simpl. apply IH.
Qed.

Lemma length_trimStart s : (String.length (Js.trimStart s) <= String.length s)%nat.
Proof. induction s as [|c s IH]; simpl; [lia|]. destruct (Js.is_space c); simpl; lia. Qed.

Lemma length_trimEnd s : (String.length (Js.trimEnd s) <= String.length s)%nat.
Proof.
  induction s as [|c s IH]; simpl; [lia|].
  destruct (Js.trimEnd s); simpl in *; [destruct (Js.is_space c); simpl; lia | lia].
Qed.

Lemma len_trim s : Js.len (Js.trim s) <= Js.len s.
Proof.
  unfold Js.len, Js.trim.
  pose proof (length_trimEnd (Js.trimStart s)). pose proof (length_trimStart s). lia.
Qed.

(** The length of a JavaScript substring: the distance between the two
    clamped indices. *)
Lemma len_substring s a b :
  Js.len (Js.substring s a b)
  = Z.max (Js.clamp 0 (Js.len s) a) (Js.clamp 0 (Js.len s) b)
    - Z.min (Js.clamp 0 (Js.len s) a) (Js.clamp 0 (Js.len s) b).
Proof.
  unfold Js.substring, Js.len at 1. rewrite length_substring.
  unfold Js.clamp, Js.len. lia.
Qed.

(** Within the string and in order, [substring] is the plain slice. *)
Lemma substring_plain s a b :
  0 <= a <= b -> b <= Js.len s ->
  Js.substring s a b = String.substring (Z.to_nat a) (Z.to_nat (b - a)) s.
Proof.
  intros Ha Hb. unfold Js.substring, Js.clamp.
  replace (Z.min (Z.max 0 (Z.min (Js.len s) a)) (Z.max 0 (Z.min (Js.len s) b))) with a by lia.
  replace (Z.max (Z.max 0 (Z.min (Js.len s) a)) (Z.max 0 (Z.min (Js.len s) b))) with b by lia.
  reflexivity.
Qed.

Lemma substring_join s a b c :
  0 <= a <= b -> b <= c <= Js.len s ->
  Js.substring s a b +:+ Js.substring s b c = Js.substring s a c.
Proof.
  intros Hab Hbc. rewrite !substring_plain by lia.
  replace (Z.to_nat b) with (Z.to_nat a + Z.to_nat (b - a))%nat by lia.
  rewrite substring_adjacent. f_equal. lia.
Qed.

Lemma substring_all s : Js.substring s 0 (Js.len s) = s.
Proof.
  rewrite substring_plain by (pose proof (len_nonneg s); lia).
  unfold Js.len. rewrite Z.sub_0_r, Nat2Z.id. apply substring_whole.
Qed.

Lemma substring_empty s a : Js.substring s a a = EmptyString.
Proof.
  unfold Js.substring. rewrite Z.max_id, Z.min_id, Z.sub_diag. apply substring_zero.
Qed.

(** What the scan behind [lastIndexOf] can answer. *)
Lemma lastIndexOf_scan_range c s : forall i bound acc,
  let r := Js.lastIndexOf_scan c s i bound acc in
  r = acc \/ (i <= r <= bound /\ r < i + Js.len s).
Proof.
  induction s as [|d s IH]; intros i bound acc; simpl; [by left|].
  specialize (IH (i + 1) bound
    (if (i <=? bound) && Ascii.eqb d c then i else acc)).
  simpl in IH. unfold Js.len in *. simpl String.length.
  destruct IH as [-> | IH].
  - destruct ((i <=? bound) && Ascii.eqb d c) eqn:Hc; [|by left].
    right. apply andb_true_iff in Hc as [Hle _]. lia.
  - right. lia.
Qed.

Lemma lastIndexOf_range s c fromIndex :
  let r := Js.lastIndexOf s c fromIndex in
  r = -1 \/ (0 <= r <= Z.max fromIndex 0 /\ r < Js.len s).
Proof.
  unfold Js.lastIndexOf.
  destruct (lastIndexOf_scan_range c s 0
              (Z.min (Z.max fromIndex 0) (Js.len s - 1)) (-1)) as [H|H]; simpl in *.
  - by left.
  - right. lia.
Qed.

End StringFacts.

(** ** Paginator *)

(** The three cases of [truncateMarkdown]. *)
Lemma truncateMarkdown_cases markdown maxChars offset :
  let t := truncateMarkdown markdown maxChars offset in
  (Js.len markdown <= offset /\ tr_hasMore t = false /\ tr_nextOffset t = offset
   /\ tr_markdown t = EmptyString)
  \/ (offset < Js.len markdown /\ Js.len markdown - offset <= maxChars
      /\ tr_hasMore t = false /\ tr_nextOffset t = Js.len markdown
      /\ tr_markdown t = Js.substring_from markdown offset)
  \/ (offset < Js.len markdown /\ maxChars < Js.len markdown - offset
      /\ tr_hasMore t = true
      /\ tr_markdown t
         = Js.trim (Js.substring markdown offset (tr_nextOffset t)) +:+ truncation_marker
      /\ tr_nextOffset t < Js.len markdown
      /\ (tr_nextOffset t = offset + maxChars
          \/ (5 * offset + 4 * maxChars < 5 * tr_nextOffset t
              /\ (tr_nextOffset t = -1
                  \/ 0 <= tr_nextOffset t <= Z.max (offset + maxChars) 0)))).
Proof.
  unfold truncateMarkdown.
  destruct (Z.leb_spec (Js.len markdown) offset) as [H1|H1]; [left; simpl; auto|].
  destruct (Z.leb_spec (Js.len markdown - offset) maxChars) as [H2|H2];
    [right; left; simpl; auto|].
  right; right. cbv zeta.
  pose proof (lastIndexOf_range markdown newline (offset + maxChars)) as Hr. simpl in Hr.
  pose proof (len_nonneg markdown) as Hlen.
  destruct (Z.ltb_spec (5 * offset + 4 * maxChars)
              (5 * Js.lastIndexOf markdown newline (offset + maxChars))) as [H3|H3];
    simpl.
  - repeat split; auto; lia.
  - repeat split; auto; lia.
Qed.

Lemma substring_from_end (s : string) (a : Z) : Js.len s <= a -> Js.substring_from s a = EmptyString.
Proof.
  intros H. pose proof (len_nonneg s). unfold Js.substring_from, Js.substring, Js.clamp.
  replace (Z.max _ _ - Z.min _ _) with 0 by lia. apply substring_zero.
Qed.

(** A cut chunk ends inside the text, at most [maxChars] behind the
    offset. *)
Lemma truncateMarkdown_more (markdown : string) (maxChars offset : Z) :
  0 <= maxChars -> 0 <= offset ->
  tr_hasMore (truncateMarkdown markdown maxChars offset) = true ->
  offset <= tr_nextOffset (truncateMarkdown markdown maxChars offset) <= offset + maxChars
  /\ tr_nextOffset (truncateMarkdown markdown maxChars offset) < Js.len markdown.
Proof.
  intros Hmax Hoff Hmore.
  destruct (truncateMarkdown_cases markdown maxChars offset)
    as [(_ & Hm & _) | [(_ & _ & Hm & _) | (H1 & H2 & _ & _ & Hn & Hd)]];
    [congruence | congruence | lia].
Qed.

(** A chunk that is not cut is the rest of the text. *)
Lemma truncateMarkdown_done (markdown : string) (maxChars offset : Z) :
  tr_hasMore (truncateMarkdown markdown maxChars offset) = false ->
  tr_markdown (truncateMarkdown markdown maxChars offset) = Js.substring_from markdown offset.
Proof.
  intros Hdone.
  destruct (truncateMarkdown_cases markdown maxChars offset)
    as [(H1 & _ & _ & Hb) | [(_ & _ & _ & _ & Hb) | (_ & _ & Hm & _)]];
    [|done|congruence].
  by rewrite Hb, substring_from_end.
Qed.

(** C3, as stated, fails for a budget that is negative.  On the 300-unit
    page with offset 200 and [maxChars = -500], the input a continuation
    request hands to the paginator, the chunk is cut and carries 199 code
    units before the marker, more than the budget and taken from before
    the offset, and the next offset is -1.  No answer could meet the bound
    under such a budget: the empty chunk returned at the end of the text
    has more than -500 code units as well. *)
Lemma truncateMarkdown_negative_budget :
  tr_hasMore (truncateMarkdown plain_page (-500) 200) = true
  /\ tr_markdown (truncateMarkdown plain_page (-500) 200)
     = Js.repeat "a" 199 +:+ truncation_marker
  /\ ~ (Js.len (Js.repeat "a" 199) <= -500)
  /\ tr_nextOffset (truncateMarkdown plain_page (-500) 200) = -1
  /\ tr_markdown (truncateMarkdown plain_page (-500) 300) = EmptyString
  /\ ~ (Js.len EmptyString <= -500).
Proof.
  split; [vm_compute; reflexivity|]. split; [vm_compute; reflexivity|].
  split; [vm_compute; intros H; by apply H|]. split; [vm_compute; reflexivity|].
  split; [vm_compute; reflexivity|]. vm_compute. intros H. by apply H.
Qed.

(** C3, amended.  For every text and start offset and every character
    budget that is not negative, [truncateMarkdown] returns at most
    [maxChars] code units before the truncation marker: a truncated chunk
    is the trimmed slice from the offset to the next offset followed by the
    marker, an untruncated one is the rest of the text.  When the offset is
    not negative either, aligning to a newline only shortens the window:
    the next offset lies between [offset] and [offset + maxChars].  And for
    all budgets and offsets, [hasMore] is false exactly when the slice
    reaches the end of the text, the chunk then being everything from the
    offset on. *)
Theorem truncateMarkdown_window (markdown : string) (maxChars offset : Z) :
  let t := truncateMarkdown markdown maxChars offset in
  (0 <= maxChars ->
   exists body,
     tr_markdown t = body +:+ (if tr_hasMore t then truncation_marker else EmptyString)
     /\ body = (if tr_hasMore t
                then Js.trim (Js.substring markdown offset (tr_nextOffset t))
                else Js.substring markdown offset (tr_nextOffset t))
     /\ Js.len body <= maxChars)
  /\ (0 <= maxChars -> 0 <= offset ->
      tr_hasMore t = true -> offset <= tr_nextOffset t <= offset + maxChars)
  /\ (tr_hasMore t = false <-> Js.len markdown <= tr_nextOffset t)
  /\ (tr_hasMore t = false -> tr_markdown t = Js.substring_from markdown offset).
Proof.
  intros t. pose proof (len_nonneg markdown) as Hlen.
  destruct (truncateMarkdown_cases markdown maxChars offset)
    as [(H1 & Hm & Hn & Hb) | [(H1 & H2 & Hm & Hn & Hb) | (H1 & H2 & Hm & Hb & Hn & Hd)]];
    fold t in Hm, Hn, Hb; try fold t in Hd.
  - (* the offset is at or behind the end *)
    rewrite Hm, Hn, Hb. repeat split; try lia; try congruence.
    + intros Hmax. exists EmptyString. repeat split; [|unfold Js.len; simpl; lia].
      symmetry. apply substring_empty.
    + intros _. unfold Js.substring_from, Js.substring, Js.clamp.
      replace (Z.max _ _ - Z.min _ _) with 0 by lia. by rewrite substring_zero.
  - (* the rest fits *)
    rewrite Hm, Hn, Hb. repeat split; try lia; try congruence.
    intros Hmax. exists (Js.substring_from markdown offset).
    repeat split; [by rewrite app_empty_r|].
    unfold Js.substring_from. rewrite len_substring. unfold Js.clamp. lia.
  - (* the rest is cut *)
    rewrite Hm, Hb. repeat split; try lia; try congruence.
    + intros Hmax. eexists. repeat split.
      etrans; [apply len_trim|]. rewrite len_substring. unfold Js.clamp. lia.
Qed.

Lemma truncateMarkdown_window_witness :
  (exists body,
      tr_markdown (truncateMarkdown plain_page 200 0) = body +:+ truncation_marker
      /\ Js.len body <= 200)
  /\ 0 <= tr_nextOffset (truncateMarkdown plain_page 200 0) <= 0 + 200.
Proof.
  destruct (truncateMarkdown_window plain_page 200 0) as (Hbody & Hwin & _).
  split.
  - destruct (Hbody ltac:(lia)) as (body & Hb & _ & Hl).
    exists body. split; [exact Hb | exact Hl].
  - apply Hwin; [lia | lia | reflexivity].
Defined.

(** A newline in the last fifth of the window moves the cut to it; one
    before that does not. *)
Example truncateMarkdown_aligns_to_newline :
  truncateMarkdown (Js.repeat "a" 170 +:+ String newline (Js.repeat "b" 100)) 200 0
  = {| tr_markdown := Js.repeat "a" 170 +:+ truncation_marker; tr_hasMore := true;
       tr_nextOffset := 170; tr_originalLength := Some 271 |}.
Proof. vm_compute. reflexivity. Qed.

Example truncateMarkdown_ignores_early_newline :
  tr_nextOffset
    (truncateMarkdown (Js.repeat "a" 160 +:+ String newline (Js.repeat "b" 100)) 200 0)
  = 200.
Proof. vm_compute. reflexivity. Qed.

(** ** Section filter *)

Lemma startsWith_spec (s p : string) :
  Js.startsWith s p = true <-> exists post, s = p +:+ post.
Proof.
  revert s. induction p as [|a p IH]; intros s.
  - split; [intros _; by exists s | by destruct s].
  - simpl. destruct s as [|b s].
    + split; [done | intros [post H]; discriminate].
    + split.
      * intros H. apply andb_true_iff in H as [Hab Hp].
        apply IH in Hp as [post ->]. apply Ascii.eqb_eq in Hab as ->. by exists post.
      * intros [post H]. rewrite app_cons in H. injection H as -> ->.
        apply andb_true_iff. split; [apply Ascii.eqb_refl | apply IH; by exists post].
Qed.

Lemma includes_spec (s p : string) : Js.includes s p = true <-> contains s p.
Proof.
  unfold contains. induction s as [|c s IH].
  - split.
    + intros H.
      change (Js.includes EmptyString p) with (Js.startsWith EmptyString p || false) in H.
      rewrite orb_false_r in H.
      apply startsWith_spec in H as [post H]. by exists EmptyString, post.
    + intros ([|d pre] & post & H); [|discriminate].
      change (Js.includes EmptyString p) with (Js.startsWith EmptyString p || false).
      rewrite orb_false_r. apply startsWith_spec. by exists post.
  - change (Js.includes (String c s) p)
      with (Js.startsWith (String c s) p || Js.includes s p).
    split.
    + intros H. apply orb_true_iff in H as [H|H];
        [apply startsWith_spec in H as [post H] | apply IH in H as (pre & post & H)].
      * by exists EmptyString, post.
      * exists (String c pre), post. rewrite app_cons. by f_equal.
    + intros ([|d pre] & post & H); apply orb_true_iff.
      * left. apply startsWith_spec. by exists post.
      * right. rewrite app_cons in H. injection H as _ ->. apply IH. by exists pre, post.
Qed.

Lemma findIndex_from_spec {A : Type} (p : A -> bool) (l : list A) : forall i,
  (findIndex_from p l i = -1 /\ forall k x, l !! k = Some x -> p x = false)
  \/ exists k x,
       findIndex_from p l i = i + Z.of_nat k /\ l !! k = Some x /\ p x = true
       /\ forall j y, (j < k)%nat -> l !! j = Some y -> p y = false.
Proof.
  induction l as [|a l IH]; intros i; simpl.
  - left. split; [done | intros k x H; discriminate].
  - destruct (p a) eqn:Hpa.
    + right. exists O, a. repeat split; [lia | done | lia].
    + destruct (IH (i + 1)) as [[Hr Hall] | (k & x & Hr & Hk & Hpx & Hmin)].
      * left. split; [done|]. intros [|k] x Hk; simpl in Hk; [congruence | eauto].
      * right. exists (S k), x. repeat split; [lia | done | done |].
        intros [|j] y Hj Hy; simpl in Hy; [congruence | eapply Hmin; [|done]; lia].
Qed.

Lemma section_end_spec (lvl : Z) (later : list Heading) (end_ : Z) :
  (exists k next,
      later !! k = Some next /\ level next <= lvl
      /\ section_end lvl later end_ = position next
      /\ forall j h, (j < k)%nat -> later !! j = Some h -> lvl < level h)
  \/ ((forall j h, later !! j = Some h -> lvl < level h)
      /\ section_end lvl later end_ = end_).
Proof.
  induction later as [|a later IH]; simpl.
  - right. split; [intros j h H; discriminate | done].
  - destruct (Z.leb_spec (level a) lvl) as [Hle|Hgt].
    + left. exists O, a. repeat split; [done|]. lia.
    + destruct IH as [(k & next & Hk & Hl & He & Hmin) | [Hall He]].
      * left. exists (S k), next. repeat split; try done.
        intros [|j] h Hj Hh; simpl in Hh; [congruence | eapply Hmin; [|done]; lia].
      * right. split; [|done]. intros [|j] h Hh; simpl in Hh; [congruence | eauto].
Qed.

(** The inner loop finds the end of the section in the words of
    [section_ends]. *)
Lemma section_end_ends (html : string) (headings : list Heading) (i : nat) (lvl : Z) :
  section_ends html headings i lvl
    (section_end lvl (drop (S i) headings) (Js.len html)).
Proof.
  destruct (section_end_spec lvl (drop (S i) headings) (Js.len html))
    as [(k & next & Hk & Hl & He & Hmin) | [Hall He]].
  - left. exists (S i + k)%nat, next. rewrite lookup_drop in Hk.
    repeat split; [lia | done | done | done |].
    intros j between Hj Hb. apply (Hmin (j - S i)%nat between); [lia|].
    rewrite lookup_drop. by replace (S i + (j - S i))%nat with j by lia.
  - right. split; [|done]. intros k later Hk Hl.
    apply (Hall (k - S i)%nat later).
    rewrite lookup_drop. by replace (S i + (k - S i))%nat with k by lia.
Qed.

(** One turn of the loop over the selectors: it appends the section of the
    heading the selector resolves to, or leaves the accumulator alone when
    the selector resolves to nothing. *)
Lemma filter_step_spec (html : string) (headings : list Heading)
    (acc : string * bool) (target : Selector) :
  (exists i heading e,
      resolves headings target i /\ headings !! i = Some heading
      /\ section_ends html headings i (level heading) e
      /\ filter_step html headings acc target
         = (fst acc +:+ Js.substring html (position heading) e
              +:+ String newline (String newline EmptyString), true))
  \/ ((forall i, ~ resolves headings target i)
      /\ filter_step html headings acc target = acc).
Proof.
  unfold filter_step.
  destruct ((0 <=? target_index headings target)
            && (target_index headings target <? Z.of_nat (length headings))) eqn:Hrange.
  - apply andb_true_iff in Hrange as [H0 Hlt].
    apply Z.leb_le in H0. apply Z.ltb_lt in Hlt.
    destruct (lookup_lt_is_Some_2 headings (Z.to_nat (target_index headings target)))
      as [heading Hh]; [lia|].
    left. exists (Z.to_nat (target_index headings target)), heading. eexists.
    rewrite Hh. repeat split; [|apply section_end_ends].
    destruct target as [n|s]; simpl in *.
    + split; lia.
    + unfold findIndex in *.
      destruct (findIndex_from_spec
                  (fun heading => Js.includes (Js.toLowerCase (text heading))
                                    (Js.toLowerCase s)) headings 0)
        as [[Hr _] | (k & x & Hr & Hk & Hpx & Hmin)]; [lia|].
      rewrite Hr in Hh |- *. rewrite Z.add_0_l, Nat2Z.id in Hh |- *.
      split.
      * exists x. split; [done|]. by apply includes_spec.
      * intros j y Hj Hy Hm. apply includes_spec in Hm.
        rewrite (Hmin j y Hj Hy) in Hm. discriminate.
  - right. split; [|done]. intros i Hres.
    apply andb_false_iff in Hrange.
    destruct target as [n|s]; simpl in *.
    + destruct Hres as [Hi Hlen].
      destruct Hrange as [H|H]; [apply Z.leb_gt in H | apply Z.ltb_ge in H]; lia.
    + destruct Hres as [(heading & Hh & Hm) _]. apply includes_spec in Hm.
      unfold findIndex in *.
      destruct (findIndex_from_spec
                  (fun heading => Js.includes (Js.toLowerCase (text heading))
                                    (Js.toLowerCase s)) headings 0)
        as [[Hr Hall] | (k & x & Hr & Hk & Hpx & Hmin)].
      * rewrite (Hall i heading Hh) in Hm. discriminate.
      * apply lookup_lt_Some in Hk. rewrite Hr in Hrange.
        destruct Hrange as [H|H]; [apply Z.leb_gt in H | apply Z.ltb_ge in H]; lia.
Qed.

Lemma filter_loop_spec (html : string) (headings : list Heading) (targets : list Selector) :
  forall acc,
  exists spans,
    sections html headings targets spans
    /\ fold_left (filter_step html headings) targets acc
       = (fst acc +:+ blank_line_separated spans,
          match spans with [] => snd acc | _ => true end).
Proof.
  induction targets as [|target targets IH]; intros acc; simpl.
  - exists []. split; [constructor|]. simpl. rewrite app_empty_r. by destruct acc.
  - destruct (filter_step_spec html headings acc target)
      as [(i & heading & e & Hres & Hh & He & Hstep) | [Hnone Hstep]]; rewrite Hstep.
    + destruct (IH (fst acc +:+ Js.substring html (position heading) e
                      +:+ String newline (String newline EmptyString), true))
        as (spans & Hs & Hfold).
      exists (Js.substring html (position heading) e :: spans).
      split; [by econstructor|]. rewrite Hfold. simpl.
      rewrite !app_assoc_string. by destruct spans.
    + destruct (IH acc) as (spans & Hs & Hfold).
      exists spans. split; [by apply sections_miss | done].
Qed.

(** C5.  For every fragment, heading list and selector list, the filter
    answers the sections picked by the selectors, in selector order and
    each followed by a blank line: a number [n] picks heading [n - 1], a
    text picks the first heading whose text contains it without regard to
    case, and the section of a heading runs from its position to the
    position of the next heading of the same or a lower level number, or
    to the end of the fragment.  [filtered] tells whether any selector
    picked a section, and the error message is set exactly when none did. *)
Theorem filterContentByHeadings_sections (html : string) (headings : list Heading)
    (targets : list Selector) :
  exists spans,
    sections html headings targets spans
    /\ fr_html (filterContentByHeadings html headings targets) = blank_line_separated spans
    /\ fr_filtered (filterContentByHeadings html headings targets)
       = match spans with [] => false | _ => true end
    /\ fr_error (filterContentByHeadings html headings targets)
       = match spans with [] => Some "No matching headings found" | _ => None end.
Proof.
  destruct (filter_loop_spec html headings targets (EmptyString, false))
    as (spans & Hs & Hfold).
  exists spans. split; [done|]. unfold filterContentByHeadings. rewrite Hfold. simpl.
  by destruct spans.
Qed.

(** The page of the test suite's filter test: selecting [Section A]
    keeps its heading and paragraph and drops the other section; selectors
    are answered in their own order, not in document order. *)
Example filter_section_a :
  let html := "<h1>Section A</h1><p>Hello A</p><h1>Section B</h1><p>Hello B</p>" in
  extractHeadings html
  = [{| level := 1; text := "Section A"; position := 0 |};
     {| level := 1; text := "Section B"; position := 32 |}]
  /\ fr_html (filterContentByHeadings html (extractHeadings html) [ByText "section a"])
     = "<h1>Section A</h1><p>Hello A</p>" +:+ String newline (String newline EmptyString)
  /\ fr_html (filterContentByHeadings html (extractHeadings html)
                [ByNumber 2; ByText "Section A"; ByNumber 3])
     = "<h1>Section B</h1><p>Hello B</p>" +:+ String newline (String newline EmptyString)
       +:+ "<h1>Section A</h1><p>Hello A</p>"
       +:+ String newline (String newline EmptyString).
Proof. repeat split; vm_compute; reflexivity. Qed.

(** A nested section ends at the next heading of the same or a lower
    level number, not at a deeper one. *)
Example filter_nested_section :
  let html := "<h2>A</h2>x<h3>A1</h3>y<h2>B</h2>z" in
  fr_html (filterContentByHeadings html (extractHeadings html) [ByNumber 1])
  = "<h2>A</h2>x<h3>A1</h3>y" +:+ String newline (String newline EmptyString).
Proof. vm_compute. reflexivity. Qed.

(** ** The two paths of [fetchWebPage] *)

Lemma handleContinuation_unfold (E : Env) (token : string) (maxChars : Z) (w : World) :
  handleContinuation E token maxChars w
  = match contentCache w !! token with
    | None => (Thrown (Error "Continuation token expired or invalid."), w)
    | Some cached =>
        let result := truncateMarkdown (ce_markdown cached) maxChars (ce_offset cached) in
        let answer nextToken :=
          {| res_title := ce_title cached; res_url := ce_url cached;
             res_markdown := tr_markdown result; res_toc := None;
             res_continuationToken := nextToken;
             res_method := method (ce_metadata cached) |} in
        if tr_hasMore result then
          (Returned (answer (Some (continuation_key (ce_url cached) (tr_nextOffset result)
                                     (date_now E (clockReads w))))),
           after_minting E w (ce_url cached) (tr_nextOffset result)
             (fun timestamp =>
                {| ce_markdown := ce_markdown cached;
                   ce_offset := tr_nextOffset result;
                   ce_url := ce_url cached;
                   ce_title := ce_title cached;
                   ce_metadata := ce_metadata cached;
                   ce_timestamp := timestamp |}))
        else (Returned (answer None), w)
    end.
Proof.
  unfold handleContinuation, bind, cache_get.
  destruct (contentCache w !! token) as [cached|]; [|reflexivity].
  cbv zeta. destruct (tr_hasMore _); reflexivity.
Qed.

Lemma extractAndPaginate_unfold (E : Env) (url : string) (maxChars : Z)
    (headings : option (list Selector)) (html : string) (doc : Document) (w : World) :
  extractAndPaginate E url maxChars headings html doc w
  = let extractedContent := fst (extractContent doc html) in
    let allHeadings := extractHeadings (ec_html extractedContent) in
    let markdown :=
      turndown E (select_sections (ec_html extractedContent) allHeadings headings) in
    let result := truncateMarkdown markdown maxChars 0 in
    let answer nextToken :=
      {| res_title := ec_title extractedContent; res_url := url;
         res_markdown := tr_markdown result; res_toc := buildTOC allHeadings;
         res_continuationToken := nextToken;
         res_method := snd (extractContent doc html) |} in
    if tr_hasMore result && (length allHeadings =? 0)%nat then
      (Returned (answer (Some (continuation_key url (tr_nextOffset result)
                                 (date_now E (clockReads w))))),
       after_minting E w url (tr_nextOffset result)
         (fun timestamp =>
            {| ce_markdown := turndown E (ec_html extractedContent);
               ce_offset := tr_nextOffset result;
               ce_url := url;
               ce_title := ec_title extractedContent;
               ce_metadata := {| method := snd (extractContent doc html) |};
               ce_timestamp := timestamp |}))
    else (Returned (answer None), w).
Proof.
  unfold extractAndPaginate.
  destruct (extractContent doc html) as [extractedContent method_]. cbv zeta. simpl fst.
  simpl snd. unfold bind.
  destruct (tr_hasMore _ && _); reflexivity.
Qed.

(** A request with a token goes to [handleContinuation]. *)
Lemma fetchWebPage_continuation (E : Env) (options : WebFetchOptions) (token : string) :
  provided (opt_continuationToken options) = Some token ->
  fetchWebPage E options
  = handleContinuation E token (default DEFAULT_MAX_CHARS (opt_maxChars options)).
Proof. intros H. unfold fetchWebPage. by rewrite H. Qed.

(** A successful initial fetch acquired a document and paginated it. *)
Lemma fetchWebPage_initial_inv (E : Env) (options : WebFetchOptions) (w w' : World)
    (r : WebFetchResult) :
  provided (opt_continuationToken options) = None ->
  fetchWebPage E options w = (Returned r, w') ->
  exists url html doc w1,
    acquired E options w url html doc w1
    /\ in_range (default DEFAULT_MAX_CHARS (opt_maxChars options))
    /\ extractAndPaginate E url (default DEFAULT_MAX_CHARS (opt_maxChars options))
         (opt_headings options) html doc w1 = (Returned r, w').
Proof.
  intros Htok H. unfold fetchWebPage in H. rewrite Htok in H.
  destruct (provided (opt_url options)) as [url|] eqn:Hurl; [|discriminate].
  destruct (match opt_fetchImpl options with Some f => Some f | None => globalThis_fetch E end)
    as [fetchImpl|] eqn:Hf; [|discriminate].
  destruct (_ || _) eqn:Hrange; [discriminate|].
  apply orb_false_iff in Hrange as [Hlo Hhi].
  apply Z.ltb_ge in Hlo. apply Z.ltb_ge in Hhi.
  unfold bind at 1, call_fetch in H.
  destruct (fetchImpl _ _) as [response|] eqn:Hresp; [|discriminate].
  destruct (ok response) eqn:Hok; [|discriminate]. simpl in H.
  destruct (content_type_accepted _) eqn:Hct; [|discriminate]. simpl in H.
  unfold bind at 1, lift at 1 in H.
  destruct (body_text response) as [html|] eqn:Hbody; [|discriminate].
  destruct (Z.ltb_spec (default DEFAULT_MAX_BODY_SIZE (opt_maxBodySizeBytes options))
              (Js.len html)) as [Hbig|Hsize]; [discriminate|].
  unfold bind at 1, lift at 1 in H.
  destruct (new_JSDOM E html url) as [doc|] eqn:Hdoc; [|discriminate].
  exists url, html, doc. eexists. split; [|split; [split; assumption | exact H]].
  split; [done|]. split; [done|]. exists fetchImpl, response.
  split; [done|]. cbv zeta. repeat split; done.
Qed.

(** The document acquired does not depend on the budget: for every budget
    in range the fetch paginates the same document. *)
Lemma fetchWebPage_initial_run (E : Env) (options : WebFetchOptions) (w w1 : World)
    (url html : string) (doc : Document) (maxChars : Z) :
  acquired E options w url html doc w1 ->
  in_range maxChars ->
  fetchWebPage E (set_maxChars options (Some maxChars)) w
  = extractAndPaginate E url maxChars (opt_headings options) html doc w1.
Proof.
  intros (Htok & Hurl & fetchImpl & response & Hf & Hacq) [Hlo Hhi]. cbv zeta in Hacq.
  destruct Hacq as (Hresp & -> & Hok & Hct & Hbody & Hsize & Hdoc).
  unfold fetchWebPage. simpl. rewrite Htok, Hurl, Hf.
  destruct (Z.ltb_spec maxChars 200) as [?|_]; [lia|].
  destruct (Z.ltb_spec MAX_CHARS_LIMIT maxChars) as [?|_]; [lia|]. simpl.
  unfold bind at 1, call_fetch. rewrite Hresp, Hok. simpl. rewrite Hct. simpl.
  unfold bind at 1, lift at 1. rewrite Hbody.
  destruct (Z.ltb_spec (default DEFAULT_MAX_BODY_SIZE (opt_maxBodySizeBytes options))
              (Js.len html)) as [?|_]; [lia|].
  unfold bind at 1, lift at 1. rewrite Hdoc. reflexivity.
Qed.

(** Where an initial fetch leaves the store: as it found it, when the
    request fails before the document is built, and as the paginating part
    leaves it otherwise. *)
Lemma fetchWebPage_initial_world (E : Env) (options : WebFetchOptions) (w : World) :
  provided (opt_continuationToken options) = None ->
  contentCache (snd (fetchWebPage E options w)) = contentCache w
  \/ exists url html doc w1,
       contentCache w1 = contentCache w
       /\ 200 <= default DEFAULT_MAX_CHARS (opt_maxChars options)
       /\ snd (fetchWebPage E options w)
          = snd (extractAndPaginate E url (default DEFAULT_MAX_CHARS (opt_maxChars options))
                   (opt_headings options) html doc w1).
Proof.
  intros Htok. remember (fetchWebPage E options w) as run eqn:Hrun.
  unfold fetchWebPage in Hrun. rewrite Htok in Hrun.
  destruct (provided (opt_url options)) as [url|]; [|subst run; by left].
  destruct (match opt_fetchImpl options with Some f => Some f | None => globalThis_fetch E end)
    as [fetchImpl|]; [|subst run; by left].
  destruct (_ || _) eqn:Hrange; [subst run; by left|].
  apply orb_false_iff in Hrange as [Hlo _]. apply Z.ltb_ge in Hlo.
  unfold bind at 1, call_fetch in Hrun.
  destruct (fetchImpl _ _) as [response|]; [|subst run; by left].
  destruct (ok response); [|subst run; by left]. simpl in Hrun.
  destruct (content_type_accepted _); [|subst run; by left]. simpl in Hrun.
  unfold bind at 1, lift at 1 in Hrun.
  destruct (body_text response) as [html|]; [|subst run; by left].
  destruct (_ <? Js.len html); [subst run; by left|].
  unfold bind at 1, lift at 1 in Hrun.
  destruct (new_JSDOM E html url) as [doc|]; [|subst run; by left].
  right. exists url, html, doc. eexists. split; [|split; [exact Hlo | by rewrite Hrun]].
  reflexivity.
Qed.

(** ** The sweep *)

(** The sweep removes exactly the entries older than the time to live. *)
Lemma cleanup_lookup (E : Env) (w : World) (key : string) :
  contentCache (snd (cleanup E w)) !! key
  = match contentCache w !! key with
    | Some entry =>
        if decide (date_now E (clockReads w) - ce_timestamp entry > CACHE_TTL)
        then None else Some entry
    | None => None
    end.
Proof.
  unfold cleanup, bind, Date_now. simpl. rewrite map_lookup_filter.
  destruct (contentCache w !! key) as [entry|]; [|reflexivity]. simpl.
  case_decide; case_guard; simpl in *; try reflexivity; contradiction.
Qed.

(** ** Continuation requests *)

Lemma handleContinuation_transport (E : Env) (token : string) (maxChars : Z) (w : World) :
  transportCalls (snd (handleContinuation E token maxChars w)) = transportCalls w.
Proof.
  rewrite handleContinuation_unfold.
  destruct (contentCache w !! token) as [cached|]; [|reflexivity].
  cbv zeta. destruct (tr_hasMore _); reflexivity.
Qed.

(** C7.  A continuation request whose token is not in the store fails with
    the error [Continuation token expired or invalid.], whatever else the
    request carries, and leaves the store, the clock and the transport
    alone; so does a request whose entry the sweep has just removed for
    being older than the time to live.  A request whose token is in the
    store always gets a response.  So an error, and never an empty
    response, tells a broken token from the end of the document. *)
Theorem continuation_miss_is_an_error (E : Env) (options : WebFetchOptions)
    (token : string) (w : World) :
  provided (opt_continuationToken options) = Some token ->
  (contentCache w !! token = None ->
   fetchWebPage E options w
   = (Thrown (Error "Continuation token expired or invalid."), w))
  /\ (forall entry,
        contentCache w !! token = Some entry ->
        date_now E (clockReads w) - ce_timestamp entry > CACHE_TTL ->
        fetchWebPage E options (snd (cleanup E w))
        = (Thrown (Error "Continuation token expired or invalid."), snd (cleanup E w)))
  /\ (forall entry, contentCache w !! token = Some entry ->
      exists r w', fetchWebPage E options w = (Returned r, w')).
Proof.
  intros Htok. rewrite (fetchWebPage_continuation E options token Htok).
  split; [|split].
  - intros Hmiss. rewrite handleContinuation_unfold, Hmiss. reflexivity.
  - intros entry Hget Hold. rewrite handleContinuation_unfold, cleanup_lookup, Hget.
    by rewrite decide_True.
  - intros entry Hget. rewrite handleContinuation_unfold, Hget. cbv zeta.
    destruct (tr_hasMore _); do 2 eexists; reflexivity.
Qed.

Lemma continuation_miss_is_an_error_witness :
  fetchWebPage sample (continuation_request "https://example.com/long:continuation:200:1" None)
    empty_world
  = (Thrown (Error "Continuation token expired or invalid."), empty_world).
Proof.
  destruct (continuation_miss_is_an_error sample
              (continuation_request "https://example.com/long:continuation:200:1" None)
              "https://example.com/long:continuation:200:1" empty_world eq_refl)
    as [H _].
  apply H. reflexivity.
Defined.

(** C10.  A request that carries a token behaves as the request with that
    token and the same [maxChars] alone: it is answered by
    [handleContinuation] from the store, the transport is not called, and
    the URL, the time-out, the user agent, the body-size limit, the
    selectors and the fetch implementation of the request have no effect. *)
Theorem token_takes_precedence (E : Env) (options : WebFetchOptions)
    (token : string) (w : World) :
  provided (opt_continuationToken options) = Some token ->
  fetchWebPage E options w
  = fetchWebPage E (continuation_request token (opt_maxChars options)) w
  /\ fetchWebPage E options w
     = handleContinuation E token (default DEFAULT_MAX_CHARS (opt_maxChars options)) w
  /\ transportCalls (snd (fetchWebPage E options w)) = transportCalls w
  /\ forall options',
       opt_continuationToken options' = opt_continuationToken options ->
       opt_maxChars options' = opt_maxChars options ->
       fetchWebPage E options' w = fetchWebPage E options w.
Proof.
  intros Htok. rewrite (fetchWebPage_continuation E options token Htok).
  assert (Js.truthy token = true) as Htruthy.
  { unfold provided in Htok. destruct (opt_continuationToken options) as [v|]; [|done].
    destruct (Js.truthy v) eqn:Hv; congruence. }
  repeat split.
  - rewrite (fetchWebPage_continuation E (continuation_request token _) token); [done|].
    simpl. by rewrite Htruthy.
  - apply handleContinuation_transport.
  - intros options' Ht Hm.
    rewrite (fetchWebPage_continuation E options' token); [by rewrite Hm|].
    by rewrite Ht.
Qed.

Lemma token_takes_precedence_witness :
  fetchWebPage sample
    {| opt_url := Some "https://example.com/other"; opt_maxChars := Some 200;
       opt_headings := None; opt_continuationToken := Some "token";
       opt_timeoutMs := Some 1; opt_userAgent := Some "agent";
       opt_maxBodySizeBytes := Some 0; opt_fetchImpl := Some (createFetch plain_page) |}
    empty_world
  = fetchWebPage sample (continuation_request "token" (Some 200)) empty_world.
Proof.
  destruct (token_takes_precedence sample
              {| opt_url := Some "https://example.com/other"; opt_maxChars := Some 200;
                 opt_headings := None; opt_continuationToken := Some "token";
                 opt_timeoutMs := Some 1; opt_userAgent := Some "agent";
                 opt_maxBodySizeBytes := Some 0;
                 opt_fetchImpl := Some (createFetch plain_page) |}
              "token" empty_world eq_refl) as [H _].
  exact H.
Defined.

(** ** Validation of [maxChars] *)

(** C2 fails on the code.  A continuation request is dispatched before
    the range check of [maxChars] and is never checked: the token minted by
    a first fetch of the 300-unit page is redeemed with [maxChars = 120],
    which lies outside [200, 200000], and the call returns the rest of the
    page instead of the validation error, while an initial fetch of the
    same page with the same budget is rejected with the range error. *)
Lemma continuation_accepts_any_maxChars :
  exists first w1 token next w2,
    fetchWebPage sample
      (initial_request long_url 200 (createFetch plain_page)) empty_world
    = (Returned first, w1)
    /\ res_continuationToken first = Some token
    /\ ~ in_range 120
    /\ fetchWebPage sample (continuation_request token (Some 120)) w1 = (Returned next, w2)
    /\ res_markdown next = Js.repeat "b" 100
    /\ fetchWebPage sample
         (initial_request long_url 120 (createFetch plain_page)) empty_world
       = (Thrown (Error "maxChars must be between 200 and 200000."), empty_world).
Proof.
  do 5 eexists. split; [vm_compute; reflexivity|].
  split; [reflexivity|]. split; [unfold in_range; lia|].
  split; [vm_compute; reflexivity|]. split; vm_compute; reflexivity.
Qed.

(** X22.  The validation of an initial fetch.  A request without a token
    whose [maxChars] lies outside [200, 200000] fails with a validation
    error before any call to the transport and without touching the store:
    the missing-URL error when it has no URL, the missing-transport error
    when no fetch implementation is at hand, the range error otherwise. *)
Theorem maxChars_out_of_range_rejected (E : Env) (options : WebFetchOptions) (w : World) :
  provided (opt_continuationToken options) = None ->
  ~ in_range (default DEFAULT_MAX_CHARS (opt_maxChars options)) ->
  fetchWebPage E options w
  = (Thrown (Error
       match provided (opt_url options) with
       | None => "URL is required for initial fetch."
       | Some _ =>
           if fetch_available E options
           then "maxChars must be between 200 and 200000."
           else "Fetch implementation is not available."
       end), w).
Proof.
  intros Htok Hrange. unfold fetchWebPage, fetch_available. rewrite Htok.
  destruct (provided (opt_url options)) as [url|]; [|reflexivity].
  destruct (opt_fetchImpl options) as [f|], (globalThis_fetch E) as [g|];
    try reflexivity.
  all: destruct (_ || _) eqn:Hc; [reflexivity|].
  all: apply orb_false_iff in Hc as [Hlo Hhi].
  all: apply Z.ltb_ge in Hlo; apply Z.ltb_ge in Hhi.
  all: exfalso; apply Hrange; split; assumption.
Qed.

Lemma maxChars_out_of_range_rejected_witness :
  fetchWebPage sample
    (initial_request long_url 120 (createFetch plain_page)) empty_world
  = (Thrown (Error "maxChars must be between 200 and 200000."), empty_world).
Proof.
  apply (maxChars_out_of_range_rejected sample
           (initial_request long_url 120 (createFetch plain_page))
           empty_world).
  - reflexivity.
  - unfold in_range. simpl. unfold MAX_CHARS_LIMIT. lia.
Defined.

(** ** The keys of the store *)

Lemma pretty_N_go_colon_free (x : N) : forall s,
  colon_free s = true -> colon_free (pretty_N_go x s) = true.
Proof.
  induction (N.lt_wf_0 x) as [x _ IH]; intros s Hs.
  destruct (N.eq_0_gt_0_cases x) as [->|Hpos]; [by rewrite pretty_N_go_0|].
  rewrite pretty_N_go_step by done. apply IH; [by apply N.div_lt|].
  simpl. rewrite Hs, andb_true_r. unfold pretty_N_char. by repeat case_match.
Qed.

Lemma pretty_Z_colon_free (z : Z) : colon_free (pretty z) = true.
Proof.
  assert (forall x : N, colon_free (pretty x) = true) as HN.
  { intros x. unfold pretty, pretty_N. case_decide; [reflexivity|].
    by apply pretty_N_go_colon_free. }
  destruct z as [|x|x]; [reflexivity | apply HN |].
  unfold pretty, pretty_Z. rewrite app_cons, app_empty_l. simpl. apply HN.
Qed.

(** Two texts without colon that are followed by a colon in the same
    string are the same text. *)
Lemma colon_free_prefix_inj (s t x y : string) :
  colon_free s = true -> colon_free t = true ->
  s +:+ String ":" x = t +:+ String ":" y -> s = t.
Proof.
  revert t. induction s as [|c s IH]; intros [|d t] Hs Ht H; simpl in Hs, Ht.
  - reflexivity.
  - rewrite app_empty_l, app_cons in H. injection H as <- _.
    apply andb_true_iff in Ht as [Ht _]. discriminate.
  - rewrite app_empty_l, app_cons in H. injection H as -> _.
    apply andb_true_iff in Hs as [Hs _]. discriminate.
  - rewrite !app_cons in H. injection H as -> H.
    apply andb_true_iff in Hs as [_ Hs]. apply andb_true_iff in Ht as [_ Ht].
    f_equal. by apply IH.
Qed.

(** Keys of one URL with different offsets differ, whatever the clock
    reads. *)
Lemma continuation_key_offset (url : string) (a b now now' : Z) :
  continuation_key url a now = continuation_key url b now' -> a = b.
Proof.
  unfold continuation_key. intros H.
  apply (inj (String.app url)) in H.
  apply (inj (String.app ":")) in H.
  apply (inj (String.app "continuation")) in H.
  apply (inj (String.app ":")) in H.
  apply (inj pretty).
  eapply colon_free_prefix_inj; [apply pretty_Z_colon_free.. | exact H].
Qed.

Lemma store_keyed_insert (w : World) (key : string) (entry : CacheEntry) (n : nat)
    (calls : list (string * RequestInit)) :
  store_keyed w ->
  (exists now, key = continuation_key (ce_url entry) (ce_offset entry) now) ->
  store_keyed {| contentCache := <[key := entry]> (contentCache w);
                 clockReads := n; transportCalls := calls |}.
Proof.
  intros Hw He k e. simpl. rewrite lookup_insert. case_decide.
  - intros [= <-]. by subst k.
  - apply Hw.
Qed.

Lemma extractAndPaginate_store_keyed (E : Env) (url : string) (maxChars : Z)
    (headings : option (list Selector)) (html : string) (doc : Document) (w : World) :
  store_keyed w -> store_keyed (snd (extractAndPaginate E url maxChars headings html doc w)).
Proof.
  intros Hw. rewrite extractAndPaginate_unfold. cbv zeta.
  destruct (tr_hasMore _ && _); [|exact Hw].
  apply store_keyed_insert; [exact Hw|]. simpl. by eexists.
Qed.

Lemma handleContinuation_store_keyed (E : Env) (token : string) (maxChars : Z) (w : World) :
  store_keyed w -> store_keyed (snd (handleContinuation E token maxChars w)).
Proof.
  intros Hw. rewrite handleContinuation_unfold.
  destruct (contentCache w !! token) as [cached|]; [|exact Hw].
  cbv zeta. destruct (tr_hasMore _); [|exact Hw].
  apply store_keyed_insert; [exact Hw|]. simpl. by eexists.
Qed.

Lemma fetchWebPage_store_keyed (E : Env) (options : WebFetchOptions) (w : World) :
  store_keyed w -> store_keyed (snd (fetchWebPage E options w)).
Proof.
  intros Hw.
  destruct (provided (opt_continuationToken options)) as [token|] eqn:Htok.
  - rewrite (fetchWebPage_continuation E options token Htok).
    by apply handleContinuation_store_keyed.
  - destruct (fetchWebPage_initial_world E options w Htok)
      as [Hsame | (url & html & doc & w1 & Hsame & _ & ->)].
    + intros key entry. rewrite Hsame. apply Hw.
    + apply extractAndPaginate_store_keyed.
      intros key entry. rewrite Hsame. apply Hw.
Qed.

(** Every world the module can reach keeps the key discipline. *)
Lemma reachable_store_keyed (E : Env) (w : World) : reachable E w -> store_keyed w.
Proof.
  induction 1 as [w Hempty|options w _ IH|w _ IH|w _ IH].
  - intros key entry H. rewrite Hempty, lookup_empty in H. discriminate.
  - by apply fetchWebPage_store_keyed.
  - intros key entry H. unfold cleanup, bind, Date_now in H. simpl in H.
    apply map_lookup_filter_Some in H as [H _]. by apply (IH key).
  - intros key entry H. simpl in H. rewrite lookup_empty in H. discriminate.
Qed.

(** With a positive budget a cut chunk ends behind the offset. *)
Lemma truncateMarkdown_progress (markdown : string) (maxChars offset : Z) :
  1 <= maxChars ->
  tr_hasMore (truncateMarkdown markdown maxChars offset) = true ->
  offset < tr_nextOffset (truncateMarkdown markdown maxChars offset).
Proof.
  intros Hmax Hmore.
  destruct (truncateMarkdown_cases markdown maxChars offset)
    as [(_ & Hm & _) | [(_ & _ & Hm & _) | (_ & _ & _ & _ & _ & Hd)]];
    [congruence | congruence | lia].
Qed.

(** Under the key discipline and with a positive budget, the token a
    continuation call mints is not the token it was given. *)
Lemma minted_token_is_fresh (E : Env) (token : string) (maxChars : Z) (w w' : World)
    (r : WebFetchResult) :
  store_keyed w -> 1 <= maxChars ->
  handleContinuation E token maxChars w = (Returned r, w') ->
  res_continuationToken r <> Some token.
Proof.
  intros Hkeyed Hmax H. rewrite handleContinuation_unfold in H.
  destruct (contentCache w !! token) as [cached|] eqn:Hget; [|discriminate].
  cbv zeta in H.
  destruct (tr_hasMore _) eqn:Hmore; injection H as <- _; simpl; [|discriminate].
  intros [= Hsame]. destruct (Hkeyed token cached Hget) as [now Hkey].
  rewrite Hkey in Hsame. apply continuation_key_offset in Hsame.
  pose proof (truncateMarkdown_progress _ _ _ Hmax Hmore). lia.
Qed.

(** ** Redeeming a token *)

(** C8, as stated, fails: the token of a first fetch of the long page is
    redeemed, and presenting it a second time yields a successful result
    again, with the same chunk; the first redemption did mint a token of
    its own. *)
Lemma token_redeemed_twice :
  exists first w1 token second w2 third w3,
    fetchWebPage sample (initial_request long_url 200 (createFetch long_page)) empty_world
    = (Returned first, w1)
    /\ res_continuationToken first = Some token
    /\ fetchWebPage sample (continuation_request token (Some 200)) w1 = (Returned second, w2)
    /\ is_Some (res_continuationToken second)
    /\ fetchWebPage sample (continuation_request token (Some 200)) w2 = (Returned third, w3)
    /\ res_markdown third = res_markdown second.
Proof.
  do 7 eexists. split; [vm_compute; reflexivity|].
  split; [reflexivity|]. split; [vm_compute; reflexivity|].
  split; [by eexists|]. split; vm_compute; reflexivity.
Qed.

(** C8, amended.  Redeeming a token does not consume it.  After a
    successful continuation call the presented token is still in the
    store, so presenting it again succeeds again, for any budget; when the
    call minted no token, or one that differs from the presented token, the
    entry of the presented token is untouched and a second call with the
    same budget returns the same chunk, title, URL and method.  In every
    world the module can reach, a call with a positive budget never mints
    the token it was given.  A token minted by the call names a new entry
    that holds the same document at the offset where the returned chunk
    ends. *)
Theorem redeemed_token_stays_redeemable (E : Env) (token : string) (maxChars : Z)
    (w w' : World) (r : WebFetchResult) :
  handleContinuation E token maxChars w = (Returned r, w') ->
  is_Some (contentCache w' !! token)
  /\ (forall maxChars', exists r' w'',
        handleContinuation E token maxChars' w' = (Returned r', w''))
  /\ (res_continuationToken r <> Some token ->
      contentCache w' !! token = contentCache w !! token
      /\ exists r' w'',
           handleContinuation E token maxChars w' = (Returned r', w'')
           /\ res_markdown r' = res_markdown r /\ res_title r' = res_title r
           /\ res_url r' = res_url r /\ res_method r' = res_method r)
  /\ (reachable E w -> 1 <= maxChars -> res_continuationToken r <> Some token)
  /\ (forall fresh, res_continuationToken r = Some fresh ->
      exists cached entry,
        contentCache w !! token = Some cached
        /\ contentCache w' !! fresh = Some entry
        /\ ce_markdown entry = ce_markdown cached
        /\ ce_offset entry
           = tr_nextOffset (truncateMarkdown (ce_markdown cached) maxChars (ce_offset cached))).
Proof.
  assert (forall w0 mc, is_Some (contentCache w0 !! token) ->
          exists r' w'', handleContinuation E token mc w0 = (Returned r', w'')) as Hagain.
  { intros w0 mc [e He]. rewrite handleContinuation_unfold, He. cbv zeta.
    destruct (tr_hasMore _); do 2 eexists; reflexivity. }
  intros H.
  assert (reachable E w -> 1 <= maxChars -> res_continuationToken r <> Some token) as Hfresh.
  { intros Hreach Hmax.
    exact (minted_token_is_fresh E token maxChars w w' r
             (reachable_store_keyed E w Hreach) Hmax H). }
  rewrite handleContinuation_unfold in H.
  destruct (contentCache w !! token) as [cached|] eqn:Hget; [|discriminate].
  cbv zeta in H.
  destruct (tr_hasMore _) eqn:Hmore; injection H as <- <-; simpl in *.
  - assert (is_Some (<[continuation_key (ce_url cached)
                         (tr_nextOffset (truncateMarkdown (ce_markdown cached) maxChars
                                           (ce_offset cached)))
                         (date_now E (clockReads w)) :=
                       {| ce_markdown := ce_markdown cached;
                          ce_offset := tr_nextOffset (truncateMarkdown (ce_markdown cached)
                                                        maxChars (ce_offset cached));
                          ce_url := ce_url cached; ce_title := ce_title cached;
                          ce_metadata := ce_metadata cached;
                          ce_timestamp := date_now E (S (clockReads w)) |}]>
                      (contentCache w) !! token)) as Hsome.
    { rewrite lookup_insert. case_decide; eauto. }
    split; [exact Hsome|]. split; [intros mc; apply Hagain; exact Hsome|].
    split; [|split; [exact Hfresh|]].
    + intros Hne. assert (continuation_key (ce_url cached)
                         (tr_nextOffset (truncateMarkdown (ce_markdown cached) maxChars
                                           (ce_offset cached)))
                         (date_now E (clockReads w)) <> token) as Hne' by congruence.
      rewrite lookup_insert_ne by exact Hne'. split; [done|].
      rewrite handleContinuation_unfold. simpl.
      rewrite lookup_insert_ne by exact Hne'. rewrite Hget. cbv zeta. rewrite Hmore.
      do 2 eexists. repeat split; reflexivity.
    + intros fresh [= <-]. eexists cached, _. rewrite lookup_insert_eq. eauto.
  - split; [by rewrite Hget|]. split; [intros mc; apply Hagain; by rewrite Hget|].
    split; [|split; [exact Hfresh|]].
    + intros _. split; [done|].
      rewrite handleContinuation_unfold, Hget. cbv zeta. rewrite Hmore.
      do 2 eexists. repeat split; reflexivity.
    + intros fresh [=].
Qed.

Lemma redeemed_token_stays_redeemable_witness :
  exists w token r w',
    reachable sample w
    /\ handleContinuation sample token 200 w = (Returned r, w')
    /\ is_Some (contentCache w' !! token)
    /\ res_continuationToken r <> Some token.
Proof.
  exists (snd (fetchWebPage sample (initial_request long_url 200 (createFetch long_page))
                 empty_world)).
  exists "https://example.com/long:continuation:200:1700000000000". do 2 eexists.
  assert (reachable sample
            (snd (fetchWebPage sample (initial_request long_url 200 (createFetch long_page))
                    empty_world))) as Hreach.
  { apply reach_fetch, reach_start. reflexivity. }
  assert (handleContinuation sample
            "https://example.com/long:continuation:200:1700000000000" 200
            (snd (fetchWebPage sample (initial_request long_url 200 (createFetch long_page))
                    empty_world)) = _) as H by (vm_compute; reflexivity).
  destruct (redeemed_token_stays_redeemable sample _ 200 _ _ _ H)
    as (Hsome & _ & _ & Hfresh & _).
  split; [exact Hreach|]. split; [exact H|]. split; [exact Hsome|].
  apply Hfresh; [exact Hreach | lia].
Defined.

(** ** The invariant of the store *)

(** With no heading in the fragment no selector resolves, and the whole
    fragment goes to the converter. *)
Lemma select_sections_no_headings (html : string) (headings : option (list Selector)) :
  select_sections html [] headings = html.
Proof.
  destruct headings as [[|target targets]|]; try reflexivity.
  unfold select_sections, filterContentByHeadings.
  assert (forall l acc, fold_left (filter_step html []) l acc = acc) as ->.
  { induction l as [|t l IH]; intros acc; [reflexivity|]. simpl. rewrite <- (IH acc) at 2.
    f_equal. unfold filter_step.
    destruct ((0 <=? target_index [] t) && (target_index [] t <? Z.of_nat (length []))) eqn:Hc;
      [|reflexivity].
    apply andb_true_iff in Hc as [H0 H1]. apply Z.leb_le in H0. apply Z.ltb_lt in H1.
    simpl in H1. lia. }
  reflexivity.
Qed.

Lemma store_ok_insert (w : World) (key : string) (entry : CacheEntry) (n : nat)
    (calls : list (string * RequestInit)) :
  store_ok w -> entry_ok entry ->
  store_ok {| contentCache := <[key := entry]> (contentCache w);
              clockReads := n; transportCalls := calls |}.
Proof.
  intros Hw He k e. simpl. rewrite lookup_insert. case_decide.
  - intros [= <-]. exact He.
  - apply Hw.
Qed.

(** The paginating part of an initial fetch keeps the invariant: the
    entry it stores has the offset at which the first chunk ends. *)
Lemma extractAndPaginate_store_ok (E : Env) (url : string) (maxChars : Z)
    (headings : option (list Selector)) (html : string) (doc : Document) (w : World) :
  0 <= maxChars -> store_ok w ->
  store_ok (snd (extractAndPaginate E url maxChars headings html doc w)).
Proof.
  intros Hmax Hw. rewrite extractAndPaginate_unfold. cbv zeta.
  destruct (tr_hasMore _ && _) eqn:Hc; [|exact Hw].
  apply andb_true_iff in Hc as [Hmore Hnone].
  apply Nat.eqb_eq, nil_length_inv in Hnone.
  apply store_ok_insert; [exact Hw|]. unfold entry_ok. simpl.
  rewrite Hnone, select_sections_no_headings in *.
  pose proof (truncateMarkdown_more
                (turndown E (ec_html (fst (extractContent doc html)))) maxChars 0
                Hmax ltac:(lia) Hmore).
  lia.
Qed.

(** A continuation call with a budget that is not negative keeps the
    invariant. *)
Lemma handleContinuation_store_ok (E : Env) (token : string) (maxChars : Z) (w : World) :
  0 <= maxChars -> store_ok w ->
  store_ok (snd (handleContinuation E token maxChars w)).
Proof.
  intros Hmax Hw. rewrite handleContinuation_unfold.
  destruct (contentCache w !! token) as [cached|] eqn:Hget; [|exact Hw].
  cbv zeta. destruct (tr_hasMore _) eqn:Hmore; [|exact Hw].
  apply store_ok_insert; [exact Hw|]. unfold entry_ok. simpl.
  pose proof (Hw token cached Hget) as [Hlo Hhi].
  pose proof (truncateMarkdown_more (ce_markdown cached) maxChars (ce_offset cached)
                Hmax Hlo Hmore).
  lia.
Qed.

(** An initial fetch keeps the invariant, whether it succeeds or fails. *)
Lemma fetchWebPage_initial_store_ok (E : Env) (options : WebFetchOptions) (w : World) :
  provided (opt_continuationToken options) = None ->
  store_ok w -> store_ok (snd (fetchWebPage E options w)).
Proof.
  intros Htok Hw.
  destruct (fetchWebPage_initial_world E options w Htok)
    as [Hsame | (url & html & doc & w1 & Hsame & Hlo & ->)].
  - intros key entry. rewrite Hsame. apply Hw.
  - apply extractAndPaginate_store_ok; [lia|].
    intros key entry. rewrite Hsame. apply Hw.
Qed.

(** The sweep and the clearing of the cache keep the invariant. *)
Lemma cleanup_store_ok (E : Env) (w : World) :
  store_ok w -> store_ok (snd (cleanup E w)).
Proof.
  intros Hw key entry. unfold cleanup, bind, Date_now. simpl.
  intros H. apply map_lookup_filter_Some in H as [H _]. by apply (Hw key).
Qed.

Lemma clearWebFetchCache_store_ok (w : World) : store_ok (snd (clearWebFetchCache w)).
Proof. intros key entry. simpl. by rewrite lookup_empty. Qed.

(** Every request with a budget that is not negative keeps the
    invariant. *)
Lemma fetchWebPage_store_ok (E : Env) (options : WebFetchOptions) (w : World) :
  0 <= default DEFAULT_MAX_CHARS (opt_maxChars options) ->
  store_ok w -> store_ok (snd (fetchWebPage E options w)).
Proof.
  intros Hmax Hw.
  destruct (provided (opt_continuationToken options)) as [token|] eqn:Htok.
  - rewrite (fetchWebPage_continuation E options token Htok).
    by apply handleContinuation_store_ok.
  - by apply fetchWebPage_initial_store_ok.
Qed.

(** C9 fails on the code.  A continuation request is not range-checked, and
    with a negative budget the store receives an entry whose offset is
    negative: the token of a first fetch of the 300-unit page, whose store
    satisfies the invariant, is redeemed with [maxChars = -500], and the
    entry stored by that call has offset [-1].  So the module can reach a
    world whose store breaks the invariant. *)
Theorem negative_maxChars_breaks_store_invariant :
  exists first w1 token next w2 fresh entry,
    fetchWebPage sample (initial_request long_url 200 (createFetch plain_page)) empty_world
    = (Returned first, w1)
    /\ store_ok w1
    /\ res_continuationToken first = Some token
    /\ fetchWebPage sample (continuation_request token (Some (-500))) w1 = (Returned next, w2)
    /\ res_continuationToken next = Some fresh
    /\ contentCache w2 !! fresh = Some entry
    /\ ce_offset entry = -1
    /\ reachable sample w2
    /\ ~ store_ok w2.
Proof.
  assert (store_ok empty_world) as Hempty.
  { intros key entry H. simpl in H. by rewrite lookup_empty in H. }
  pose proof (fetchWebPage_initial_store_ok sample
                (initial_request long_url 200 (createFetch plain_page)) empty_world
                eq_refl Hempty) as Hok.
  set (w1 := snd (fetchWebPage sample
                    (initial_request long_url 200 (createFetch plain_page)) empty_world))
    in *.
  set (token := "https://example.com/long:continuation:200:1700000000000").
  set (w2 := snd (fetchWebPage sample (continuation_request token (Some (-500))) w1)).
  eexists _, w1, token, _, w2, _, _.
  split; [vm_compute; reflexivity|]. split; [exact Hok|].
  split; [reflexivity|]. split; [vm_compute; reflexivity|].
  split; [reflexivity|]. split; [vm_compute; reflexivity|].
  split; [reflexivity|]. split.
  { apply reach_fetch, reach_fetch, reach_start. reflexivity. }
  intros Hbad.
  assert (entry_ok {| ce_markdown := plain_page; ce_offset := -1; ce_url := long_url;
                      ce_title := "Untitled";
                      ce_metadata := {| method := "basic-clean" |};
                      ce_timestamp := 1700000000003 |}) as [Hneg _].
  { apply (Hbad "https://example.com/long:continuation:-1:1700000000002").
    vm_compute. reflexivity. }
  simpl in Hneg. lia.
Qed.

(** ** When an initial fetch mints a token *)

Lemma buildTOC_none (headings : list Heading) : buildTOC headings = None <-> headings = [].
Proof. destruct headings; simpl; split; congruence. Qed.

(** A filter that picked a section found a heading to pick it from. *)
Lemma filter_applied_headings (options : WebFetchOptions) (doc : Document) (html : string) :
  filter_applied options doc html -> extractHeadings (fragment_of doc html) <> [].
Proof.
  intros (target & targets & _ & Hf) Hnil. rewrite Hnil in Hf.
  destruct (filter_loop_spec (fragment_of doc html) [] (target :: targets)
              (EmptyString, false)) as (spans & Hs & Hfold).
  unfold filterContentByHeadings in Hf. rewrite Hfold in Hf. simpl in Hf.
  destruct spans as [|span spans]; [discriminate|].
  clear Hfold Hf. remember (target :: targets) as l eqn:Hl. clear Hl.
  remember (span :: spans) as out eqn:Hout. revert span spans Hout.
  induction Hs as [|t ts i heading e out' _ Hlook _ _ _|t ts out' _ _ IH];
    intros span spans Hout; [discriminate | discriminate | eauto].
Qed.

(** C1, as stated, fails: a fetch without selectors of a page with one
    heading, whose Markdown has 305 code units against a budget of 200,
    is truncated and carries no continuation token. *)
Lemma unfiltered_fetch_without_token :
  exists first w1 doc,
    fetchWebPage sample (initial_request long_url 200 (createFetch headed_page)) empty_world
    = (Returned first, w1)
    /\ new_JSDOM sample headed_page long_url = Returned doc
    /\ ~ filter_applied (initial_request long_url 200 (createFetch headed_page))
           doc headed_page
    /\ 200 < Js.len (selected_markdown sample
                       (initial_request long_url 200 (createFetch headed_page))
                       doc headed_page)
    /\ extractHeadings (fragment_of doc headed_page)
       = [{| level := 1; text := "T"; position := 0 |}]
    /\ res_markdown first
       = "# T" +:+ String newline (String newline (Js.repeat "a" 195)) +:+ truncation_marker
    /\ res_continuationToken first = None.
Proof.
  do 3 eexists. split; [vm_compute; reflexivity|]. split; [reflexivity|].
  split; [intros (target & targets & H & _); discriminate|].
  split; [vm_compute; reflexivity|].
  split; [vm_compute; reflexivity|]. split; vm_compute; reflexivity.
Qed.

(** C1, amended.  A successful initial fetch carries no continuation token
    exactly when the Markdown of the selected content fits the budget or
    the extracted fragment has a heading, whether or not the request
    filters by headings; in particular it carries none whenever heading
    filtering was applied, and it carries one when the Markdown exceeds
    the budget and the fragment has no heading.  The table of contents is
    absent exactly when the fragment has no heading. *)
Theorem initial_fetch_token (E : Env) (options : WebFetchOptions) (w w' : World)
    (r : WebFetchResult) :
  provided (opt_continuationToken options) = None ->
  fetchWebPage E options w = (Returned r, w') ->
  exists url html doc w1,
    acquired E options w url html doc w1
    /\ (res_continuationToken r = None <->
        Js.len (selected_markdown E options doc html)
          <= default DEFAULT_MAX_CHARS (opt_maxChars options)
        \/ extractHeadings (fragment_of doc html) <> [])
    /\ (filter_applied options doc html -> res_continuationToken r = None)
    /\ (res_toc r = None <-> extractHeadings (fragment_of doc html) = []).
Proof.
  intros Htok H.
  destruct (fetchWebPage_initial_inv E options w w' r Htok H)
    as (url & html & doc & w1 & Hacq & [Hlo Hhi] & Hrun).
  exists url, html, doc, w1. split; [exact Hacq|].
  rewrite extractAndPaginate_unfold in Hrun. cbv zeta in Hrun.
  fold (fragment_of doc html) in Hrun.
  fold (selected_markdown E options doc html) in Hrun.
  set (md := selected_markdown E options doc html) in *.
  set (mc := default DEFAULT_MAX_CHARS (opt_maxChars options)) in *.
  assert (tr_hasMore (truncateMarkdown md mc 0) = false <-> Js.len md <= mc) as Hfit.
  { pose proof (len_nonneg md).
    destruct (truncateMarkdown_cases md mc 0)
      as [(H1 & Hm & _) | [(H1 & H2 & Hm & _) | (H1 & H2 & Hm & _)]];
      rewrite Hm; split; intros; try done; try lia. }
  assert (res_continuationToken r = None <->
          Js.len md <= mc \/ extractHeadings (fragment_of doc html) <> []) as Hiff.
  { rewrite <- Hfit.
    destruct (tr_hasMore (truncateMarkdown md mc 0)) eqn:Hmore;
      destruct (extractHeadings (fragment_of doc html)) as [|h hs] eqn:Hh;
      simpl in Hrun; injection Hrun as <- <-; simpl;
      split; intros; try done; try (by left); try (by right).
    destruct H0; congruence. }
  split; [exact Hiff|]. split.
  - intros Hf. apply Hiff. right. by apply (filter_applied_headings options).
  - destruct (tr_hasMore _ && _); injection Hrun as <- _; simpl; apply buildTOC_none.
Qed.

Lemma initial_fetch_token_witness :
  exists r w', fetchWebPage sample
                 (initial_request long_url 200 (createFetch plain_page)) empty_world
               = (Returned r, w')
    /\ exists url html doc w1,
         acquired sample (initial_request long_url 200 (createFetch plain_page))
           empty_world url html doc w1
         /\ (res_continuationToken r = None <->
             Js.len (selected_markdown sample
                       (initial_request long_url 200 (createFetch plain_page)) doc html)
               <= 200
             \/ extractHeadings (fragment_of doc html) <> []).
Proof.
  do 2 eexists.
  assert (fetchWebPage sample
            (initial_request long_url 200 (createFetch plain_page)) empty_world = _) as H
    by (vm_compute; reflexivity).
  split; [exact H|].
  destruct (initial_fetch_token sample
              (initial_request long_url 200 (createFetch plain_page)) empty_world _ _
              eq_refl H)
    as (url & html & doc & w1 & Hacq & Hiff & _).
  exists url, html, doc, w1. split; [exact Hacq | exact Hiff].
Defined.

(** ** Following the tokens to the end of the document *)

Lemma follow_tokens_done (E : Env) (fuel : nat) (maxChars : option Z) :
  follow_tokens E fuel None maxChars = ret (Some []).
Proof. by destruct fuel. Qed.

Lemma continuation_key_truthy (url : string) (value now : Z) :
  Js.truthy (continuation_key url value now) = true.
Proof. by destruct url. Qed.

Lemma chunks_of_cons (slice : string) (slices : list string) :
  slices <> [] ->
  chunks_of (slice :: slices) = (Js.trim slice +:+ truncation_marker) :: chunks_of slices.
Proof. by destruct slices. Qed.

(** From a stored entry that satisfies the invariant, a caller with a
    positive budget and fuel for the rest of the document reaches the end:
    the chunks it collects are those of consecutive slices that make up
    the rest of the document. *)
Lemma follow_tokens_chunks (E : Env) (maxChars : Z) :
  1 <= maxChars ->
  forall fuel w token cached,
    Js.truthy token = true ->
    contentCache w !! token = Some cached ->
    entry_ok cached ->
    (Z.to_nat (Js.len (ce_markdown cached) - ce_offset cached) < fuel)%nat ->
    exists slices w',
      follow_tokens E fuel (Some token) (Some maxChars) w
      = (Returned (Some (chunks_of slices)), w')
      /\ concat_strings slices = Js.substring_from (ce_markdown cached) (ce_offset cached)
      /\ slices <> [].
Proof.
  intros Hmax. induction fuel as [|fuel IH];
    intros w token cached Htruthy Hget [Hlo Hhi] Hfuel; [lia|].
  change (follow_tokens E (S fuel) (Some token) (Some maxChars))
    with (r <- fetchWebPage E (continuation_request token (Some maxChars)) ;;
          rest <- follow_tokens E fuel (res_continuationToken r) (Some maxChars) ;;
          ret (option_map (cons (res_markdown r)) rest)).
  unfold bind at 1.
  rewrite (fetchWebPage_continuation E _ token) by (simpl; by rewrite Htruthy).
  simpl default. rewrite handleContinuation_unfold, Hget. cbv zeta.
  destruct (truncateMarkdown_cases (ce_markdown cached) maxChars (ce_offset cached))
    as [(H1 & Hm & Hn & Hb) | [(H1 & H2 & Hm & Hn & Hb) | (H1 & H2 & Hm & Hb & Hn & Hd)]].
  - rewrite Hm, Hb. simpl res_continuationToken. rewrite follow_tokens_done.
    exists [EmptyString]. eexists. split; [reflexivity|]. split; [|done].
    simpl. by rewrite substring_from_end.
  - rewrite Hm, Hb. simpl res_continuationToken. rewrite follow_tokens_done.
    exists [Js.substring_from (ce_markdown cached) (ce_offset cached)]. eexists.
    split; [reflexivity|]. split; [|done]. simpl. by rewrite app_empty_r.
  - rewrite Hm, Hb. simpl res_continuationToken. simpl res_markdown.
    set (next := tr_nextOffset (truncateMarkdown (ce_markdown cached) maxChars
                                  (ce_offset cached))) in *.
    set (key := continuation_key (ce_url cached) next (date_now E (clockReads w))).
    set (entry := {| ce_markdown := ce_markdown cached; ce_offset := next;
                     ce_url := ce_url cached; ce_title := ce_title cached;
                     ce_metadata := ce_metadata cached;
                     ce_timestamp := date_now E (S (clockReads w)) |}).
    assert (ce_offset cached < next) as Hprogress by lia.
    destruct (IH (after_minting E w (ce_url cached) next
                    (fun timestamp =>
                       {| ce_markdown := ce_markdown cached; ce_offset := next;
                          ce_url := ce_url cached; ce_title := ce_title cached;
                          ce_metadata := ce_metadata cached;
                          ce_timestamp := timestamp |}))
                 key entry)
      as (slices & w' & Hrun & Hcat & Hne).
    + apply continuation_key_truthy.
    + simpl. apply lookup_insert_eq.
    + unfold entry_ok. simpl. lia.
    + simpl. lia.
    + exists (Js.substring (ce_markdown cached) (ce_offset cached) next :: slices), w'.
      split; [|split; [|done]].
      * unfold bind at 1. fold key. rewrite Hrun. rewrite chunks_of_cons by done.
        reflexivity.
      * simpl. rewrite Hcat. simpl. unfold Js.substring_from.
        apply substring_join; lia.
Qed.

(** C4, as stated, fails: the 300-unit page fetched with [maxChars = 200]
    and continued to the end comes in two chunks; without the marker they
    concatenate to 299 code units, the space at which the first chunk was
    cut being trimmed away, while a single fetch with a budget of 200000
    returns all 300. *)
Lemma round_trip_loses_whitespace :
  exists whole w0 chunks w',
    fetchWebPage sample (initial_request long_url 200000 (createFetch plain_page)) empty_world
    = (Returned whole, w0)
    /\ res_continuationToken whole = None
    /\ res_markdown whole = plain_page
    /\ fetch_all sample 10 (initial_request long_url 200 (createFetch plain_page)) empty_world
       = (Returned (Some chunks), w')
    /\ chunks = [Js.repeat "a" 199 +:+ truncation_marker; Js.repeat "b" 100]
    /\ concat_strings (map remove_marker chunks) <> res_markdown whole.
Proof.
  do 4 eexists. split; [vm_compute; reflexivity|]. split; [reflexivity|].
  split; [vm_compute; reflexivity|]. split; [vm_compute; reflexivity|].
  split; [vm_compute; reflexivity|].
  intros H. apply (f_equal String.length) in H. vm_compute in H. discriminate.
Qed.

(** An initial fetch of a fragment without headings, followed to the
    end: whatever the length of the document, the caller's loop comes to an
    end within as many continuation calls as the Markdown has code units,
    and its chunks are those of consecutive slices of the Markdown of the
    whole fragment. *)
Lemma fetch_all_chunks (E : Env) (options : WebFetchOptions) (w w1 : World)
    (url html : string) (doc : Document) (maxChars : Z) :
  acquired E options w url html doc w1 ->
  extractHeadings (fragment_of doc html) = [] ->
  in_range maxChars ->
  exists slices w',
    fetch_all E (S (String.length (turndown E (fragment_of doc html))))
      (set_maxChars options (Some maxChars)) w
    = (Returned (Some (chunks_of slices)), w')
    /\ concat_strings slices = turndown E (fragment_of doc html).
Proof.
  intros Hacq Hnone Hrange.
  pose proof (fetchWebPage_initial_run E options w w1 url html doc maxChars Hacq Hrange)
    as Hsmall.
  rewrite extractAndPaginate_unfold in Hsmall. cbv zeta in Hsmall.
  unfold fragment_of in *. rewrite Hnone, select_sections_no_headings in Hsmall.
  set (md := turndown E (ec_html (fst (extractContent doc html)))) in *.
  simpl length in Hsmall. simpl Nat.eqb in Hsmall. rewrite andb_true_r in Hsmall.
  unfold fetch_all, bind at 1. rewrite Hsmall.
  destruct Hrange as [Hlo _]. pose proof (len_nonneg md) as Hlen.
  destruct (tr_hasMore (truncateMarkdown md maxChars 0)) eqn:Hmore.
  - (* the first chunk is cut: follow the token *)
    destruct (truncateMarkdown_more md maxChars 0 ltac:(lia) ltac:(lia) Hmore)
      as [Hwin Hin].
    simpl res_continuationToken. simpl opt_maxChars. simpl res_markdown.
    set (next := tr_nextOffset (truncateMarkdown md maxChars 0)) in *.
    destruct (follow_tokens_chunks E maxChars ltac:(lia) (S (String.length md))
                (after_minting E w1 url next
                   (fun timestamp =>
                      {| ce_markdown := md; ce_offset := next; ce_url := url;
                         ce_title := ec_title (fst (extractContent doc html));
                         ce_metadata := {| method := snd (extractContent doc html) |};
                         ce_timestamp := timestamp |}))
                (continuation_key url next (date_now E (clockReads w1)))
                {| ce_markdown := md; ce_offset := next; ce_url := url;
                   ce_title := ec_title (fst (extractContent doc html));
                   ce_metadata := {| method := snd (extractContent doc html) |};
                   ce_timestamp := date_now E (S (clockReads w1)) |})
      as (slices & w' & Hfollow & Hcat & Hne).
    + apply continuation_key_truthy.
    + simpl. apply lookup_insert_eq.
    + unfold entry_ok. simpl. lia.
    + simpl. unfold Js.len in *. lia.
    + exists (Js.substring md 0 next :: slices), w'. split.
      * unfold bind at 1. rewrite Hfollow. rewrite chunks_of_cons by done.
        destruct (truncateMarkdown_cases md maxChars 0)
          as [(_ & Hm & _) | [(_ & _ & Hm & _) | (_ & _ & _ & Hb & _)]];
          [congruence | congruence |].
        fold next in Hb. rewrite Hb. reflexivity.
      * simpl. simpl in Hcat. rewrite Hcat. unfold Js.substring_from.
        rewrite substring_join by lia. apply substring_all.
  - (* the first chunk is the whole document *)
    simpl res_continuationToken. rewrite follow_tokens_done.
    exists [md], w1. split.
    + simpl. rewrite (truncateMarkdown_done md maxChars 0 Hmore).
      unfold Js.substring_from. by rewrite substring_all.
    + simpl. apply app_empty_r.
Qed.

(** C4, amended.  Take a request whose single fetch with a budget that
    holds the whole document returns it without a token and without a table
    of contents, that is, a document whose fragment has no heading.  For
    every budget in range, fetching with that budget and presenting each
    returned token until none is returned comes to an end, and the chunks
    received are those of consecutive slices of the whole Markdown: the
    slices concatenate to exactly the Markdown of the single fetch, every
    chunk but the last is its slice trimmed of white space and followed by
    the truncation marker, and the last chunk is its slice as it is. *)
Theorem continuation_round_trip (E : Env) (options : WebFetchOptions) (w w0 : World)
    (whole : WebFetchResult) (big maxChars : Z) :
  provided (opt_continuationToken options) = None ->
  fetchWebPage E (set_maxChars options (Some big)) w = (Returned whole, w0) ->
  res_continuationToken whole = None ->
  res_toc whole = None ->
  in_range maxChars ->
  exists slices w',
    fetch_all E (S (String.length (res_markdown whole)))
      (set_maxChars options (Some maxChars)) w
    = (Returned (Some (chunks_of slices)), w')
    /\ concat_strings slices = res_markdown whole.
Proof.
  intros Htok Hbig Hnotoken Hnotoc Hrange.
  destruct (fetchWebPage_initial_inv E (set_maxChars options (Some big)) w w0 whole Htok Hbig)
    as (url & html & doc & w1 & Hacq & _ & Hrun).
  change (acquired E options w url html doc w1) in Hacq.
  simpl in Hrun. rewrite extractAndPaginate_unfold in Hrun. cbv zeta in Hrun.
  assert (extractHeadings (fragment_of doc html) = []) as Hnone.
  { apply buildTOC_none. rewrite <- Hnotoc. unfold fragment_of.
    destruct (tr_hasMore _ && _) in Hrun; injection Hrun as <- _; reflexivity. }
  assert (res_markdown whole = turndown E (fragment_of doc html)) as ->.
  { unfold fragment_of in *. rewrite Hnone, select_sections_no_headings in Hrun.
    simpl length in Hrun. simpl Nat.eqb in Hrun. rewrite andb_true_r in Hrun.
    destruct (tr_hasMore _) eqn:Hmore.
    - injection Hrun as <- _. discriminate.
    - injection Hrun as <- _. simpl. rewrite (truncateMarkdown_done _ big 0 Hmore).
      apply substring_all. }
  exact (fetch_all_chunks E options w w1 url html doc maxChars Hacq Hnone Hrange).
Qed.

Lemma continuation_round_trip_witness :
  exists slices w',
    fetch_all sample 301
      (set_maxChars (initial_request long_url 200000 (createFetch plain_page)) (Some 200))
      empty_world
    = (Returned (Some (chunks_of slices)), w')
    /\ concat_strings slices = plain_page.
Proof.
  assert (fetchWebPage sample
            (set_maxChars (initial_request long_url 200000 (createFetch plain_page))
               (Some 200000)) empty_world
          = (Returned {| res_title := "Untitled"; res_url := long_url;
                         res_markdown := plain_page; res_toc := None;
                         res_continuationToken := None; res_method := "basic-clean" |},
             after_call empty_world long_url
               {| ri_userAgent := DEFAULT_USER_AGENT; ri_timeout := DEFAULT_TIMEOUT_MS |}))
    as H by (vm_compute; reflexivity).
  assert (in_range 200) as Hrange by (unfold in_range, MAX_CHARS_LIMIT; lia).
  exact (continuation_round_trip sample
           (initial_request long_url 200000 (createFetch plain_page)) empty_world _ _
           200000 200 eq_refl H eq_refl eq_refl Hrange).
Defined.

(** ** URL normaliser *)

Lemma split_not_nil (sep : ascii) (s : string) : Js.split sep s <> [].
Proof.
  induction s as [|c s IH]; simpl; [done|].
  destruct (Ascii.eqb c sep); [done|]. by destruct (Js.split sep s).
Qed.

(** A text without a slash is one piece. *)
Lemma split_slash_free (seg : string) :
  slash_free seg = true -> Js.split "/" seg = [seg].
Proof.
  induction seg as [|c seg IH]; simpl; [done|].
  intros H. apply andb_true_iff in H as [Hc Hseg].
  apply negb_true_iff in Hc. rewrite Hc, (IH Hseg). reflexivity.
Qed.

(** A slash after such a text ends the first piece. *)
Lemma split_segment_slash (seg path : string) :
  slash_free seg = true ->
  Js.split "/" (seg +:+ String "/" path) = seg :: Js.split "/" path.
Proof.
  induction seg as [|c seg IH]; intros H.
  - reflexivity.
  - simpl in H. apply andb_true_iff in H as [Hc Hseg]. apply negb_true_iff in Hc.
    rewrite app_cons. simpl. rewrite Hc, (IH Hseg). reflexivity.
Qed.

(** The parts the normaliser reads of a path are its segments. *)
Lemma parts_of_segments (path : string) (segs : list string) :
  segments_of path segs -> List.filter Js.truthy (Js.split "/" path) = segs.
Proof.
  induction 1 as [|path segs _ IH|seg [Hne Hfree]|seg path segs [Hne Hfree] _ IH].
  - reflexivity.
  - simpl. exact IH.
  - rewrite (split_slash_free seg Hfree). simpl. by rewrite Hne.
  - rewrite (split_segment_slash seg path Hfree). simpl. by rewrite Hne, IH.
Qed.

Lemma split_pieces_slash_free (s : string) :
  Forall (fun piece => slash_free piece = true) (Js.split "/" s).
Proof.
  induction s as [|c s IH]; simpl; [by repeat constructor|].
  destruct (Ascii.eqb c "/") eqn:Hc; [by constructor|].
  destruct (Js.split "/" s) as [|piece rest]; [by repeat constructor; simpl; rewrite Hc|].
  inversion IH as [|? ? Hp Hr]; subst. constructor; [|done]. simpl. by rewrite Hc.
Qed.

Lemma join_split (s : string) : Js.join "/" (Js.split "/" s) = s.
Proof.
  induction s as [|c s IH]; simpl; [done|].
  destruct (Ascii.eqb_spec c "/") as [->|Hc].
  - pose proof (split_not_nil "/" s) as Hnil. unfold Js.join in *. simpl.
    destruct (Js.split "/" s) as [|piece rest]; [done|]. by rewrite IH.
  - pose proof (split_not_nil "/" s) as Hnil. unfold Js.join in *.
    destruct (Js.split "/" s) as [|piece rest]; [done|].
    rewrite <- IH. simpl. by destruct rest.
Qed.

(** Slash-free pieces joined by slashes have the non-empty pieces as
    segments. *)
Lemma segments_of_join (pieces : list string) :
  Forall (fun piece => slash_free piece = true) pieces ->
  segments_of (Js.join "/" pieces) (List.filter Js.truthy pieces).
Proof.
  induction 1 as [|piece rest Hp _ IH]; [constructor|].
  destruct rest as [|piece' rest].
  - simpl. destruct piece as [|c piece]; [constructor|].
    simpl. by apply segments_last.
  - change (Js.join "/" (piece :: piece' :: rest))
      with (piece +:+ String "/" (Js.join "/" (piece' :: rest))).
    destruct piece as [|c piece].
    + simpl List.filter. by apply segments_slash.
    + change (List.filter Js.truthy (String c piece :: piece' :: rest))
        with (String c piece :: List.filter Js.truthy (piece' :: rest)).
      by apply segments_next.
Qed.

Lemma segments_of_parts (path : string) :
  segments_of path (List.filter Js.truthy (Js.split "/" path)).
Proof.
  rewrite <- (join_split path) at 1.
  apply segments_of_join, split_pieces_slash_free.
Qed.

(** C6.  When the URL parses, its host is [github.com] and its path is
    made of the segments user, repo, [blob], branch and those of a file
    path, the normaliser answers the raw-content URL of the same user,
    repo, branch and file path, without the [blob] segment.  Every other
    string comes back unchanged: one that does not parse, one with another
    host, one whose path has another shape.  The normaliser is a total
    function: it answers a string for every string. *)
Theorem convertGithubToRaw_blob (E : Env) (url : string) :
  (forall parsed user repo branch rest,
      new_URL E url = Some parsed ->
      hostname parsed = "github.com" ->
      blob_shape (pathname parsed) user repo branch rest ->
      convertGithubToRaw E url
      = "https://raw.githubusercontent.com/" +:+ user +:+ "/" +:+ repo +:+ "/"
          +:+ branch +:+ "/" +:+ Js.join "/" rest)
  /\ (new_URL E url = None -> convertGithubToRaw E url = url)
  /\ (forall parsed,
        new_URL E url = Some parsed ->
        hostname parsed <> "github.com"
        \/ ~ (exists user repo branch rest,
                 blob_shape (pathname parsed) user repo branch rest) ->
        convertGithubToRaw E url = url).
Proof.
  unfold convertGithubToRaw, blob_shape. repeat split.
  - intros parsed user repo branch rest -> Hhost Hshape.
    apply String.eqb_eq in Hhost. rewrite Hhost.
    rewrite (parts_of_segments _ _ Hshape). reflexivity.
  - intros ->. reflexivity.
  - intros parsed -> Hother.
    destruct (String.eqb_spec (hostname parsed) "github.com") as [Hhost|Hhost];
      [|reflexivity].
    destruct Hother as [Hne|Hshape]; [contradiction|].
    pose proof (segments_of_parts (pathname parsed)) as Hseg.
    destruct (List.filter Js.truthy (Js.split "/" (pathname parsed)))
      as [|user [|repo [|part2 [|branch rest]]]]; try reflexivity.
    destruct (String.eqb_spec part2 "blob") as [->|Hblob]; [|reflexivity].
    exfalso. apply Hshape. by exists user, repo, branch, rest.
Qed.

Lemma convertGithubToRaw_blob_witness :
  convertGithubToRaw sample "https://github.com/user/repo/blob/main/README.md"
  = "https://raw.githubusercontent.com/user/repo/main/README.md".
Proof.
  destruct (convertGithubToRaw_blob sample
              "https://github.com/user/repo/blob/main/README.md") as (Hblob & _).
  apply (Hblob {| hostname := "github.com"; pathname := "/user/repo/blob/main/README.md" |}
           "user" "repo" "main" ["README.md"]).
  - reflexivity.
  - reflexivity.
  - apply segments_slash.
    apply (segments_next "user" "repo/blob/main/README.md"); [by split|].
    apply (segments_next "repo" "blob/main/README.md"); [by split|].
    apply (segments_next "blob" "main/README.md"); [by split|].
    apply (segments_next "main" "README.md"); [by split|].
    apply segments_last. by split.
Defined.

(** * Further properties of the module *)

(** ** Characters of a string *)

Lemma all_chars_app (p : ascii -> bool) (s t : string) :
  all_chars p (s +:+ t) = all_chars p s && all_chars p t.
Proof.
  induction s as [|c s IH]; [reflexivity|].
  rewrite app_cons. simpl. rewrite IH. by rewrite andb_assoc.
Qed.

Lemma all_chars_removeAll (p : ascii -> bool) (matcher : string -> option nat) (s : string) :
  forall skip, all_chars p s = true -> all_chars p (removeAll matcher s skip) = true.
Proof.
  induction s as [|c s IH]; intros skip H; [reflexivity|].
  simpl in H. apply andb_true_iff in H as [Hc Hs]. simpl.
  destruct skip as [|k]; [|by apply IH].
  destruct (matcher (String c s)); [by apply IH|].
  simpl. rewrite Hc. by apply IH.
Qed.

Lemma all_chars_trimStart (p : ascii -> bool) (s : string) :
  all_chars p s = true -> all_chars p (Js.trimStart s) = true.
Proof.
  induction s as [|c s IH]; intros H; [reflexivity|]. simpl.
  destruct (Js.is_space c); [|exact H].
  simpl in H. apply andb_true_iff in H as [_ Hs]. by apply IH.
Qed.

Lemma all_chars_trimEnd (p : ascii -> bool) (s : string) :
  all_chars p s = true -> all_chars p (Js.trimEnd s) = true.
Proof.
  induction s as [|c s IH]; intros H; [reflexivity|].
  simpl in H. apply andb_true_iff in H as [Hc Hs]. simpl.
  specialize (IH Hs). destruct (Js.trimEnd s) as [|d r].
  - destruct (Js.is_space c); [reflexivity|]. simpl. by rewrite Hc.
  - simpl. simpl in IH. by rewrite Hc, IH.
Qed.

Lemma all_chars_trim (p : ascii -> bool) (s : string) :
  all_chars p s = true -> all_chars p (Js.trim s) = true.
Proof. intros H. by apply all_chars_trimEnd, all_chars_trimStart. Qed.

(** Trimming leaves nothing more to trim. *)
Lemma trimEnd_idempotent (s : string) : Js.trimEnd (Js.trimEnd s) = Js.trimEnd s.
Proof.
  induction s as [|c s IH]; [reflexivity|]. simpl.
  destruct (Js.trimEnd s) as [|d r] eqn:Hr.
  - destruct (Js.is_space c) eqn:Hc; [reflexivity|]. simpl. by rewrite Hc.
  - simpl. simpl in IH. rewrite IH. reflexivity.
Qed.

Lemma trimStart_trimEnd (s : string) :
  Js.trimStart s = s -> Js.trimStart (Js.trimEnd s) = Js.trimEnd s.
Proof.
  destruct s as [|c s]; [reflexivity|]. simpl.
  destruct (Js.is_space c) eqn:Hc.
  - intros H. exfalso. pose proof (length_trimStart s) as Hlen.
    rewrite H in Hlen. simpl in Hlen. lia.
  - intros _. destruct (Js.trimEnd s); simpl; by rewrite Hc.
Qed.

Lemma trimStart_idempotent (s : string) : Js.trimStart (Js.trimStart s) = Js.trimStart s.
Proof.
  induction s as [|c s IH]; [reflexivity|]. simpl.
  destruct (Js.is_space c) eqn:Hc; [exact IH|]. simpl. by rewrite Hc.
Qed.

Lemma trim_idempotent (s : string) : Js.trim (Js.trim s) = Js.trim s.
Proof.
  unfold Js.trim.
  rewrite (trimStart_trimEnd (Js.trimStart s) (trimStart_idempotent s)).
  apply trimEnd_idempotent.
Qed.

(** ** Heading indexer *)

Lemma upto_gt_length (s : string) (n : nat) (rest : string) :
  upto_gt s = Some (n, rest) -> (n + String.length rest = String.length s)%nat /\ (1 <= n)%nat.
Proof.
  revert n rest. induction s as [|c s IH]; intros n rest H; [discriminate|].
  simpl in H. destruct (Ascii.eqb c ">").
  - injection H as <- <-. simpl. lia.
  - destruct (upto_gt s) as [[m r]|]; [|discriminate]. injection H as <- <-.
    destruct (IH m r eq_refl). simpl. lia.
Qed.

Lemma lazy_capture_spec (d : ascii) (s : string) (captured : string) (n : nat) :
  lazy_capture d s = Some (captured, n) ->
  one_line captured = true /\ n = (String.length captured + 5)%nat
  /\ (n <= String.length s)%nat.
Proof.
  revert captured n. induction s as [|c s IH]; intros captured n H.
  - simpl in H. discriminate.
  - change (lazy_capture d (String c s))
      with (if closing_tag_at d (String c s) then Some (EmptyString, 5%nat)
            else if is_line_terminator c then None
                 else match lazy_capture d s with
                      | Some (captured, n) => Some (String c captured, S n)
                      | None => None
                      end) in H.
    destruct (closing_tag_at d (String c s)) eqn:Hclose.
    + injection H as <- <-. repeat split.
      destruct s as [|c2 [|c3 [|c4 [|c5 s]]]]; try discriminate. simpl. lia.
    + destruct (is_line_terminator c) eqn:Hc; [discriminate|].
      destruct (lazy_capture d s) as [[cap m]|]; [|discriminate].
      injection H as <- <-. destruct (IH cap m eq_refl) as (H1 & H2 & H3).
      unfold one_line in *. simpl. rewrite Hc, H1. repeat split; simpl; lia.
Qed.

Lemma heading_match_spec (s : string) (lvl : Z) (captured : string) (n : nat) :
  heading_match s = Some (lvl, captured, n) ->
  1 <= lvl <= 3 /\ one_line captured = true /\ (1 <= n <= String.length s)%nat.
Proof.
  unfold heading_match.
  destruct s as [|c1 [|c2 [|d rest]]]; try discriminate.
  destruct (Ascii.eqb c1 "<" && is_h c2); [|discriminate].
  destruct (heading_digit d) as [l|] eqn:Hd; [|discriminate].
  destruct (upto_gt rest) as [[n1 rest1]|] eqn:Hgt; [|discriminate].
  destruct (lazy_capture d rest1) as [[cap n2]|] eqn:Hcap; [|discriminate].
  intros [= <- <- <-].
  destruct (upto_gt_length rest n1 rest1 Hgt) as [Hlen _].
  destruct (lazy_capture_spec d rest1 cap n2 Hcap) as (Hone & _ & Hn2).
  split; [|split; [exact Hone | simpl; lia]].
  unfold heading_digit in Hd.
  repeat (destruct (Ascii.eqb d _); [injection Hd as <-; lia|]). discriminate.
Qed.

Lemma extractHeadings_from_cons (c : ascii) (s : string) (pos : Z) (skip : nat) :
  extractHeadings_from (String c s) pos skip
  = match skip with
    | S k => extractHeadings_from s (pos + 1) k
    | O =>
        match heading_match (String c s) with
        | Some (lvl, captured, n) =>
            let text := Js.trim (removeAll tag_match captured O) in
            ((if Js.truthy text
              then [{| level := lvl; text := text; position := pos |}]
              else [])
             ++ extractHeadings_from s (pos + 1) (Nat.pred n))%list
        | None => extractHeadings_from s (pos + 1) O
        end
    end.
Proof. reflexivity. Qed.

(** What every heading found behind index [pos] looks like, and the order
    in which the scan finds them. *)
Lemma extractHeadings_from_spec (s : string) : forall pos skip,
  Forall (fun heading =>
            (pos <= position heading < pos + Js.len s)
            /\ 1 <= level heading <= 3
            /\ Js.truthy (text heading) = true
            /\ Js.trim (text heading) = text heading
            /\ one_line (text heading) = true)
    (extractHeadings_from s pos skip)
  /\ StronglySorted (fun h1 h2 => position h1 < position h2)
       (extractHeadings_from s pos skip).
Proof.
  induction s as [|c s IH]; intros pos skip; [split; constructor|].
  assert (Js.len (String c s) = 1 + Js.len s) as Hlen by (unfold Js.len; simpl; lia).
  assert (forall k,
    Forall (fun heading =>
              (pos <= position heading < pos + Js.len (String c s))
              /\ 1 <= level heading <= 3
              /\ Js.truthy (text heading) = true
              /\ Js.trim (text heading) = text heading
              /\ one_line (text heading) = true)
      (extractHeadings_from s (pos + 1) k)) as Hrest.
  { intros k. destruct (IH (pos + 1) k) as [Hall _].
    eapply Forall_impl; [exact Hall|]. simpl. intros h (Hp & Hh). split; [lia | exact Hh]. }
  rewrite extractHeadings_from_cons.
  destruct skip as [|k]; [|split; [apply Hrest | apply IH]].
  destruct (heading_match (String c s)) as [[[lvl captured] n]|] eqn:Hmatch;
    [|split; [apply Hrest | apply IH]].
  destruct (heading_match_spec _ _ _ _ Hmatch) as (Hlvl & Hone & _). cbv zeta.
  destruct (Js.truthy (Js.trim (removeAll tag_match captured 0))) eqn:Htext;
    [|split; [apply Hrest | apply IH]].
  simpl app. split.
  - constructor; [|apply Hrest]. simpl. pose proof (len_nonneg s).
    split; [lia|]. split; [exact Hlvl|]. split; [exact Htext|].
    split; [apply trim_idempotent|].
    by apply all_chars_trim, all_chars_removeAll.
  - constructor; [apply IH|]. destruct (IH (pos + 1) (Nat.pred n)) as [Hall _].
    eapply Forall_impl; [exact Hall|]. simpl. intros h (Hp & _). lia.
Qed.

(** X1.  The headings [extractHeadings] finds are in document order, at
    strictly increasing positions inside the fragment; each has a level
    from 1 to 3 and a text that is not empty, is on one line and has no
    white space left to trim at either end. *)
Theorem extractHeadings_well_formed (html : string) :
  Forall (fun heading =>
            (0 <= position heading < Js.len html)
            /\ 1 <= level heading <= 3
            /\ text heading <> EmptyString
            /\ Js.trim (text heading) = text heading
            /\ one_line (text heading) = true)
    (extractHeadings html)
  /\ StronglySorted (fun h1 h2 => position h1 < position h2) (extractHeadings html).
Proof.
  destruct (extractHeadings_from_spec html 0 O) as [Hall Hsorted].
  split; [|exact Hsorted].
  eapply Forall_impl; [exact Hall|]. simpl.
  intros h (Hp & Hl & Ht & Htrim & Hone). repeat split; try lia; try assumption.
  intros Hempty. rewrite Hempty in Ht. discriminate.
Qed.

Lemma heading_match_needs_lt (c : ascii) (s : string) :
  Ascii.eqb c "<" = false -> heading_match (String c s) = None.
Proof.
  intros Hc. unfold heading_match. destruct s as [|c2 [|d rest]]; try reflexivity.
  by rewrite Hc.
Qed.

Lemma tag_match_needs_lt (c : ascii) (s : string) :
  Ascii.eqb c "<" = false -> tag_match (String c s) = None.
Proof. intros Hc. simpl. by rewrite Hc. Qed.

(** A scan that is not inside a match passes over text without [<]. *)
Lemma extractHeadings_from_prefix (pre s : string) : forall pos,
  free_of "<" pre = true ->
  extractHeadings_from (pre +:+ s) pos O = extractHeadings_from s (pos + Js.len pre) O.
Proof.
  induction pre as [|c pre IH]; intros pos H.
  - rewrite app_empty_l. f_equal. unfold Js.len. simpl. lia.
  - unfold free_of in H. simpl in H. apply andb_true_iff in H as [Hc Hpre].
    apply negb_true_iff in Hc.
    rewrite app_cons, extractHeadings_from_cons, (heading_match_needs_lt _ _ Hc).
    rewrite (IH (pos + 1) Hpre). f_equal. unfold Js.len. simpl String.length. lia.
Qed.

(** A scan inside a match resumes behind it. *)
Lemma extractHeadings_from_skip (x s : string) : forall pos,
  extractHeadings_from (x +:+ s) pos (String.length x)
  = extractHeadings_from s (pos + Js.len x) O.
Proof.
  induction x as [|c x IH]; intros pos.
  - rewrite app_empty_l. simpl String.length. f_equal. unfold Js.len. simpl. lia.
  - rewrite app_cons.
    change (extractHeadings_from (String c (x +:+ s)) pos (String.length (String c x)))
      with (extractHeadings_from (x +:+ s) (pos + 1) (String.length x)).
    rewrite IH. f_equal. unfold Js.len. simpl String.length. lia.
Qed.

(** Headings found further into a document have their positions moved by
    as much. *)
Lemma extractHeadings_from_shift (s : string) (d : Z) : forall pos skip,
  extractHeadings_from s (pos + d) skip
  = map (shift_heading d) (extractHeadings_from s pos skip).
Proof.
  induction s as [|c s IH]; intros pos skip; [reflexivity|].
  rewrite !extractHeadings_from_cons.
  replace (pos + d + 1) with (pos + 1 + d) by lia.
  destruct skip as [|k]; [|apply IH].
  destruct (heading_match (String c s)) as [[[lvl captured] n]|]; [|apply IH].
  cbv zeta. rewrite map_app, IH. f_equal.
  by destruct (Js.truthy _).
Qed.

Lemma upto_gt_attrs (attrs rest : string) :
  free_of ">" attrs = true ->
  upto_gt (attrs +:+ String ">" rest) = Some (S (String.length attrs), rest).
Proof.
  induction attrs as [|c attrs IH]; intros H; [reflexivity|].
  unfold free_of in H. simpl in H. apply andb_true_iff in H as [Hc Hattrs].
  apply negb_true_iff in Hc. rewrite app_cons. simpl. by rewrite Hc, (IH Hattrs).
Qed.

Lemma closing_tag_at_needs_lt (d c : ascii) (s : string) :
  Ascii.eqb c "<" = false -> closing_tag_at d (String c s) = false.
Proof.
  intros Hc. unfold closing_tag_at.
  destruct s as [|c2 [|c3 [|c4 [|c5 s]]]]; try reflexivity. by rewrite Hc.
Qed.

Lemma lazy_capture_text (d : ascii) (t post : string) :
  free_of "<" t = true -> one_line t = true ->
  lazy_capture d (t +:+ String "<" (String "/" (String "h" (String d (String ">" post)))))
  = Some (t, (String.length t + 5)%nat).
Proof.
  induction t as [|c t IH]; intros Hfree Hone.
  - rewrite app_empty_l. simpl. by rewrite Ascii.eqb_refl.
  - unfold free_of, one_line in *. simpl in Hfree, Hone.
    apply andb_true_iff in Hfree as [Hc Hfree]. apply andb_true_iff in Hone as [Hl Hone].
    apply negb_true_iff in Hc. apply negb_true_iff in Hl.
    rewrite app_cons.
    change (lazy_capture d (String c ?s))
      with (if closing_tag_at d (String c s) then Some (EmptyString, 5%nat)
            else if is_line_terminator c then None
                 else match lazy_capture d s with
                      | Some (captured, n) => Some (String c captured, S n)
                      | None => None
                      end).
    rewrite (closing_tag_at_needs_lt d c _ Hc), Hl, (IH Hfree Hone). reflexivity.
Qed.

(** Text without [<] has no tag to strip. *)
Lemma removeAll_plain (matcher : string -> option nat) (s : string) :
  (forall c s', Ascii.eqb c "<" = false -> matcher (String c s') = None) ->
  free_of "<" s = true -> removeAll matcher s O = s.
Proof.
  intros Hm. induction s as [|c s IH]; intros H; [reflexivity|].
  unfold free_of in H. simpl in H. apply andb_true_iff in H as [Hc Hs].
  apply negb_true_iff in Hc. simpl. rewrite (Hm c s Hc). f_equal. by apply IH.
Qed.

(** X2.  A heading element written in the plain way, [<hN attrs>text</hN>]
    with N from 1 to 3, no [>] in the attributes, and a text on one line
    without markup, behind a text without [<], is indexed at the index
    where it starts, with its trimmed text, unless that text is blank; the
    scan then goes on behind the closing tag, so the headings of the rest
    of the document follow with their positions moved accordingly. *)
Theorem extractHeadings_plain_heading (pre attrs t post : string) (d : ascii) (lvl : Z) :
  free_of "<" pre = true ->
  heading_digit d = Some lvl ->
  free_of ">" attrs = true ->
  free_of "<" t = true ->
  one_line t = true ->
  extractHeadings
    (pre +:+ String "<" (String "h" (String d attrs)) +:+ String ">" t
       +:+ String "<" (String "/" (String "h" (String d (String ">" post)))))
  = ((if Js.truthy (Js.trim t)
      then [{| level := lvl; text := Js.trim t; position := Js.len pre |}]
      else [])
     ++ map (shift_heading (Js.len pre + Js.len attrs + Js.len t + 9))
          (extractHeadings post))%list.
Proof.
  intros Hpre Hd Hattrs Ht Hone. unfold extractHeadings.
  rewrite (extractHeadings_from_prefix pre _ 0 Hpre). rewrite Z.add_0_l.
  set (close := String "<" (String "/" (String "h" (String d (String ">" post))))).
  assert (heading_match (String "<" (String "h" (String d attrs)) +:+ String ">" t +:+ close)
          = Some (lvl, t, (String.length attrs + String.length t + 9)%nat)) as Hmatch.
  { rewrite !app_cons. unfold heading_match. simpl andb. cbv iota. rewrite Hd.
    rewrite (upto_gt_attrs attrs _ Hattrs).
    unfold close. rewrite (lazy_capture_text d t post Ht Hone).
    do 2 f_equal. lia. }
  rewrite !app_cons in Hmatch |- *. rewrite extractHeadings_from_cons, Hmatch. cbv zeta.
  rewrite (removeAll_plain tag_match t tag_match_needs_lt Ht). f_equal.
  replace (String "h" (String d (attrs +:+ String ">" (t +:+ close))))
    with ((String "h" (String d attrs) +:+ String ">" t
           +:+ String "<" (String "/" (String "h" (String d (String ">" EmptyString)))))
          +:+ post).
  2:{ rewrite !app_cons. do 2 f_equal. rewrite !app_assoc_string. rewrite !app_cons.
      do 2 f_equal. rewrite app_assoc_string. reflexivity. }
  replace (Nat.pred (String.length attrs + String.length t + 9))
    with (String.length (String "h" (String d attrs) +:+ String ">" t
                         +:+ String "<" (String "/" (String "h" (String d (String ">" EmptyString)))))).
  2:{ rewrite !length_app_string. simpl. lia. }
  rewrite extractHeadings_from_skip.
  rewrite <- (extractHeadings_from_shift post _ 0 O), Z.add_0_l. f_equal.
  unfold Js.len. rewrite !length_app_string. simpl. lia.
Qed.

Lemma extractHeadings_plain_heading_witness :
  extractHeadings
    ("Intro " +:+ String "<" (String "h" (String "2" " id=x")) +:+ String ">" " Usage "
       +:+ String "<" (String "/" (String "h" (String "2" (String ">" "<h3>More</h3>")))))
  = [{| level := 2; text := "Usage"; position := 6 |};
     {| level := 3; text := "More"; position := 27 |}].
Proof.
  rewrite (extractHeadings_plain_heading "Intro " " id=x" " Usage " "<h3>More</h3>" "2" 2);
    reflexivity.
Defined.

(** ** Table of contents *)

Lemma all_chars_impl (p q : ascii -> bool) (s : string) :
  (forall c, p c = true -> q c = true) -> all_chars p s = true -> all_chars q s = true.
Proof.
  intros Hpq. induction s as [|c s IH]; intros H; [reflexivity|].
  simpl in *. apply andb_true_iff in H as [Hc Hs]. by rewrite (Hpq c Hc), (IH Hs).
Qed.

Lemma split_free (c : ascii) (s : string) : free_of c s = true -> Js.split c s = [s].
Proof.
  induction s as [|d s IH]; intros H; [reflexivity|].
  unfold free_of in H. simpl in H. apply andb_true_iff in H as [Hd Hs].
  apply negb_true_iff in Hd. simpl. rewrite Hd, (IH Hs). reflexivity.
Qed.

Lemma split_piece (c : ascii) (piece rest : string) :
  free_of c piece = true ->
  Js.split c (piece +:+ String c rest) = piece :: Js.split c rest.
Proof.
  induction piece as [|d piece IH]; intros H.
  - rewrite app_empty_l. simpl. by rewrite Ascii.eqb_refl.
  - unfold free_of in H. simpl in H. apply andb_true_iff in H as [Hd Hs].
    apply negb_true_iff in Hd. rewrite app_cons. simpl. rewrite Hd, (IH Hs). reflexivity.
Qed.

(** Splitting what was joined gives the pieces back, when no piece
    contains the separator. *)
Lemma split_join (c : ascii) (pieces : list string) :
  pieces <> [] ->
  Forall (fun piece => free_of c piece = true) pieces ->
  Js.split c (Js.join (String c EmptyString) pieces) = pieces.
Proof.
  intros Hne Hall. induction Hall as [|piece rest Hp Hrest IH]; [done|].
  destruct rest as [|piece' rest].
  - simpl. by apply split_free.
  - change (Js.join (String c EmptyString) (piece :: piece' :: rest))
      with (piece +:+ String c EmptyString +:+ Js.join (String c EmptyString) (piece' :: rest)).
    rewrite app_cons, app_empty_l, (split_piece c piece _ Hp). f_equal. by apply IH.
Qed.

Lemma repeat_spaces_free (c : ascii) (n : nat) :
  Ascii.eqb " " c = false -> free_of c (Js.repeat "  " n) = true.
Proof.
  intros Hc. induction n as [|n IH]; [reflexivity|].
  change (Js.repeat "  " (S n)) with (String " " (String " " (Js.repeat "  " n))).
  unfold free_of in *. cbn [all_chars]. by rewrite Hc, IH.
Qed.

Lemma toc_line_one_line (heading : Heading) :
  one_line (text heading) = true -> free_of newline (toc_line heading) = true.
Proof.
  intros H. unfold toc_line, free_of. rewrite !all_chars_app.
  pose proof (repeat_spaces_free newline (Z.to_nat (level heading - 1)) eq_refl) as Hsp.
  unfold free_of in Hsp. rewrite Hsp. cbn [all_chars andb negb]. simpl Ascii.eqb.
  cbn [andb negb].
  eapply all_chars_impl; [|exact H]. intros c Hc. simpl in Hc.
  apply negb_true_iff in Hc. unfold is_line_terminator in Hc.
  apply orb_false_iff in Hc as [Hc _]. apply negb_true_iff.
  destruct (Ascii.eqb_spec c newline) as [->|]; [discriminate | reflexivity].
Qed.

(** X3.  The table of contents is absent exactly when the fragment has no
    heading; otherwise it has one line per heading, in document order,
    each made of two spaces per level below the first, a dash, a space and
    the heading text: splitting the table at its newlines gives these
    lines back. *)
Theorem buildTOC_lines (html : string) :
  match buildTOC (extractHeadings html) with
  | None => extractHeadings html = []
  | Some toc =>
      extractHeadings html <> []
      /\ Js.split newline toc = map toc_line (extractHeadings html)
  end.
Proof.
  destruct (extractHeadings_from_spec html 0 O) as [Hall _].
  fold (extractHeadings html) in Hall.
  destruct (extractHeadings html) as [|heading headings] eqn:Hh; [reflexivity|].
  unfold buildTOC. split; [done|].
  apply split_join; [done|].
  apply Forall_map. eapply Forall_impl; [exact Hall|]. simpl.
  intros h (_ & _ & _ & _ & Hone). by apply toc_line_one_line.
Qed.

Example buildTOC_sample :
  buildTOC (extractHeadings "<h1>Guide</h1>a<h2>Install</h2>b<h3>Linux</h3>c<h2>Use</h2>")
  = Some ("- Guide" +:+ String newline "  - Install" +:+ String newline "    - Linux"
            +:+ String newline "  - Use").
Proof. vm_compute. reflexivity. Qed.

(** ** Basic cleaning *)

Lemma length_removeAll (matcher : string -> option nat) (s : string) : forall skip,
  (String.length (removeAll matcher s skip) <= String.length s)%nat.
Proof.
  induction s as [|c s IH]; intros skip; [simpl; lia|]. simpl.
  destruct skip as [|k]; [|specialize (IH k); lia].
  destruct (matcher (String c s)) as [n|].
  - specialize (IH (Nat.pred n)). lia.
  - specialize (IH O). simpl. lia.
Qed.

Lemma lower_char_lt (c : ascii) : Ascii.eqb "<" (Js.lower_char c) = Ascii.eqb c "<".
Proof. destruct c as [[] [] [] [] [] [] [] []]; reflexivity. Qed.

Lemma startsWith_ci_needs_lt (c : ascii) (s p : string) :
  Ascii.eqb c "<" = false -> startsWith_ci (String c s) (String "<" p) = false.
Proof.
  intros Hc.
  change (startsWith_ci (String c s) (String "<" p))
    with (Ascii.eqb "<" (Js.lower_char c) && startsWith_ci s p).
  by rewrite lower_char_lt, Hc.
Qed.

Lemma element_block_needs_lt (open_ close : string) (c : ascii) (s : string) :
  Ascii.eqb c "<" = false ->
  element_block (String "<" open_) close (String c s) = None.
Proof.
  intros Hc. unfold element_block. by rewrite startsWith_ci_needs_lt.
Qed.

Lemma comment_block_needs_lt (c : ascii) (s : string) :
  Ascii.eqb c "<" = false -> comment_block (String c s) = None.
Proof.
  intros Hc. unfold comment_block.
  change (Js.startsWith (String c s) "<!--")
    with (Ascii.eqb "<" c && Js.startsWith s "!--").
  rewrite Ascii.eqb_sym, Hc. reflexivity.
Qed.

(** A removal pass copies text without [<] and goes on behind it. *)
Lemma removeAll_prefix (matcher : string -> option nat) (pre s : string) :
  (forall c s', Ascii.eqb c "<" = false -> matcher (String c s') = None) ->
  free_of "<" pre = true ->
  removeAll matcher (pre +:+ s) O = pre +:+ removeAll matcher s O.
Proof.
  intros Hm. induction pre as [|c pre IH]; intros H; [reflexivity|].
  unfold free_of in H. simpl in H. apply andb_true_iff in H as [Hc Hpre].
  apply negb_true_iff in Hc. rewrite !app_cons. simpl. rewrite (Hm c _ Hc).
  f_equal. by apply IH.
Qed.

(** A removal pass inside a match emits nothing until the match ends. *)
Lemma removeAll_skip (matcher : string -> option nat) (x s : string) :
  removeAll matcher (x +:+ s) (String.length x) = removeAll matcher s O.
Proof.
  induction x as [|c x IH]; [reflexivity|]. rewrite app_cons. simpl. exact IH.
Qed.

Lemma skipn_string_app (x s : string) : skipn_string (String.length x) (x +:+ s) = s.
Proof. induction x as [|c x IH]; [by destruct s|]. rewrite app_cons. simpl. exact IH. Qed.

Lemma startsWith_ci_app (p s : string) :
  Js.toLowerCase p = p -> startsWith_ci (p +:+ s) p = true.
Proof.
  induction p as [|a p IH]; intros H; [by destruct s|].
  simpl in H. injection H as Ha Hp. rewrite app_cons.
  change (startsWith_ci (String a (p +:+ s)) (String a p))
    with (Ascii.eqb a (Js.lower_char a) && startsWith_ci (p +:+ s) p).
  rewrite Ha, Ascii.eqb_refl. by apply IH.
Qed.

(** The first closing literal behind text without [<] is the one right
    behind it. *)
Lemma upto_literal_inner (close inner post : string) :
  free_of "<" inner = true ->
  Js.toLowerCase (String "<" close) = String "<" close ->
  upto_literal (String "<" close) (inner +:+ String "<" close +:+ post)
  = Some (String.length inner + String.length (String "<" close))%nat.
Proof.
  intros Hfree Hlow. induction inner as [|c inner IH].
  - rewrite app_empty_l. destruct (String "<" close +:+ post) eqn:Hs; [discriminate|].
    unfold upto_literal; fold upto_literal. rewrite <- Hs.
    by rewrite (startsWith_ci_app (String "<" close) post Hlow).
  - unfold free_of in Hfree. simpl in Hfree. apply andb_true_iff in Hfree as [Hc Hfree].
    apply negb_true_iff in Hc. rewrite app_cons.
    unfold upto_literal; fold upto_literal.
    rewrite (startsWith_ci_needs_lt c _ close Hc), (IH Hfree). reflexivity.
Qed.

(** A script or style element whose inside has no [<] is one block. *)
Lemma element_block_simple (name inner post : string) :
  Js.toLowerCase name = name ->
  free_of "<" inner = true ->
  word_boundary (inner +:+ String "<" (String "/" name) +:+ String ">" post) = true ->
  element_block (String "<" name) (String "<" (String "/" name) +:+ ">")
    (String "<" name +:+ inner +:+ (String "<" (String "/" name) +:+ ">") +:+ post)
  = Some (String.length
            (String "<" name +:+ inner +:+ (String "<" (String "/" name) +:+ ">"))).
Proof.
  intros Hlow Hfree Hb. unfold element_block.
  assert (Js.toLowerCase (String "<" name) = String "<" name) as Hlow'
    by (simpl; by rewrite Hlow).
  rewrite (startsWith_ci_app (String "<" name) _ Hlow'), skipn_string_app.
  assert (inner +:+ (String "<" (String "/" name) +:+ ">") +:+ post
          = inner +:+ String "<" (String "/" name) +:+ String ">" post) as Heq.
  { f_equal. rewrite !app_cons, app_assoc_string. reflexivity. }
  rewrite Heq, Hb. simpl andb. cbv iota.
  assert (String "<" (String "/" name) +:+ ">" = String "<" (String "/" name +:+ ">")) as Hc
    by reflexivity.
  rewrite Hc.
  assert (inner +:+ String "<" (String "/" name) +:+ String ">" post
          = inner +:+ String "<" (String "/" name +:+ ">") +:+ post) as Heq2.
  { f_equal. rewrite !app_cons, app_assoc_string. reflexivity. }
  rewrite Heq2, upto_literal_inner; [|exact Hfree|].
  - simpl option_map. f_equal. rewrite !length_app_string. simpl. rewrite !length_app_string.
    simpl. lia.
  - simpl. f_equal. f_equal.
    assert (forall a b, Js.toLowerCase (a +:+ b) = Js.toLowerCase a +:+ Js.toLowerCase b) as Happ.
    { induction a as [|x a IHa]; intros b; [reflexivity|].
      rewrite app_cons. simpl. rewrite IHa. reflexivity. }
    rewrite Happ, Hlow. reflexivity.
Qed.

Lemma word_boundary_app (inner rest : string) (c : ascii) :
  word_boundary inner = true -> is_word_char c = false ->
  word_boundary (inner +:+ String c rest) = true.
Proof. destruct inner as [|d inner]; simpl; intros H Hc; [by rewrite Hc | exact H]. Qed.

(** A removal pass copies a [<] at which its pattern does not match. *)
Lemma removeAll_step (matcher : string -> option nat) (c : ascii) (s : string) :
  matcher (String c s) = None ->
  removeAll matcher (String c s) O = String c (removeAll matcher s O).
Proof. intros H. simpl. by rewrite H. Qed.

(** A removal pass takes out a block found behind text without [<] and
    goes on behind the block. *)
Lemma removeAll_block (matcher : string -> option nat) (pre block post : string) :
  (forall c s', Ascii.eqb c "<" = false -> matcher (String c s') = None) ->
  free_of "<" pre = true ->
  block <> EmptyString ->
  matcher (block +:+ post) = Some (String.length block) ->
  removeAll matcher (pre +:+ block +:+ post) O = pre +:+ removeAll matcher post O.
Proof.
  intros Hm Hpre Hne Hmatch. rewrite (removeAll_prefix matcher pre _ Hm Hpre). f_equal.
  destruct block as [|c block]; [done|].
  rewrite app_cons in Hmatch |- *. simpl removeAll. rewrite Hmatch.
  simpl Nat.pred. apply removeAll_skip.
Qed.

(** X4.  Basic cleaning never makes a document longer, and it leaves a
    document without the character [<] as it is. *)
Theorem cleanHtml_plain_text (html : string) :
  (String.length (cleanHtml html) <= String.length html)%nat
  /\ (free_of "<" html = true -> cleanHtml html = html).
Proof.
  unfold cleanHtml. split.
  - etrans; [apply length_removeAll|]. etrans; [apply length_removeAll|].
    apply length_removeAll.
  - intros H.
    rewrite (removeAll_plain (element_block "<script" "</script>") html); [|..|exact H].
    2:{ intros c s'. apply (element_block_needs_lt "script"). }
    rewrite (removeAll_plain (element_block "<style" "</style>") html); [|..|exact H].
    2:{ intros c s'. apply (element_block_needs_lt "style"). }
    apply removeAll_plain; [apply comment_block_needs_lt | exact H].
Qed.

Lemma cleanHtml_plain_text_witness : cleanHtml "Hello, world > all" = "Hello, world > all".
Proof.
  destruct (cleanHtml_plain_text "Hello, world > all") as [_ H]. apply H. reflexivity.
Defined.

(** X5.  A script element and a style element are removed whole, opening
    tag, content and closing tag: when the text before the element and the
    inside of the element (whatever stands between the tag name and the
    closing tag) have no [<], and the tag name ends at a word boundary, the
    cleaned document is the text before the element followed by the
    cleaned rest. *)
Theorem cleanHtml_removes_element (pre inner post : string) :
  free_of "<" pre = true ->
  free_of "<" inner = true ->
  word_boundary inner = true ->
  cleanHtml (pre +:+ ("<script" +:+ inner +:+ "</script>") +:+ post) = pre +:+ cleanHtml post
  /\ cleanHtml (pre +:+ ("<style" +:+ inner +:+ "</style>") +:+ post) = pre +:+ cleanHtml post.
Proof.
  intros Hpre Hinner Hb.
  assert (forall c s', Ascii.eqb c "<" = false ->
            element_block "<script" "</script>" (String c s') = None) as Hscript
    by (intros c s'; apply (element_block_needs_lt "script")).
  assert (forall c s', Ascii.eqb c "<" = false ->
            element_block "<style" "</style>" (String c s') = None) as Hstyle
    by (intros c s'; apply (element_block_needs_lt "style")).
  assert (forall name rest, word_boundary (inner +:+ String "<" (String "/" name) +:+ rest) = true)
    as Hbound by (intros; by apply word_boundary_app).
  unfold cleanHtml. split.
  - rewrite (removeAll_block (element_block "<script" "</script>") pre
               ("<script" +:+ inner +:+ "</script>") post Hscript Hpre); [|done|].
    2:{ rewrite !app_assoc_string.
        apply (element_block_simple "script" inner post eq_refl Hinner), Hbound. }
    rewrite (removeAll_prefix _ pre _ Hstyle Hpre).
    by rewrite (removeAll_prefix _ pre _ comment_block_needs_lt Hpre).
  - (* the script pass copies the style element *)
    rewrite (removeAll_prefix _ pre _ Hscript Hpre).
    assert (removeAll (element_block "<script" "</script>")
              (("<style" +:+ inner +:+ "</style>") +:+ post) O
            = ("<style" +:+ inner +:+ "</style>")
              +:+ removeAll (element_block "<script" "</script>") post O) as ->.
    { rewrite !app_assoc_string.
      change ("<style" +:+ ?x) with (String "<" ("style" +:+ x)).
      rewrite removeAll_step by reflexivity. apply (f_equal (String "<")).
      rewrite <- app_assoc_string.
      rewrite (removeAll_prefix _ ("style" +:+ inner) _ Hscript).
      2:{ unfold free_of in *. rewrite all_chars_app, Hinner. reflexivity. }
      rewrite app_assoc_string.
      apply (f_equal (String.append "style")), (f_equal (String.append inner)).
      change ("</style>" +:+ ?x) with (String "<" ("/style>" +:+ x)).
      rewrite removeAll_step by reflexivity. apply (f_equal (String "<")).
      by rewrite (removeAll_prefix _ "/style>" _ Hscript eq_refl). }
    rewrite (removeAll_block (element_block "<style" "</style>") pre
               ("<style" +:+ inner +:+ "</style>") _ Hstyle Hpre); [|done|].
    2:{ rewrite !app_assoc_string.
        apply (element_block_simple "style" inner _ eq_refl Hinner), Hbound. }
    by rewrite (removeAll_prefix _ pre _ comment_block_needs_lt Hpre).
Qed.

Lemma cleanHtml_removes_element_witness :
  cleanHtml ("a " +:+ ("<script" +:+ " src=x>let y = 1;" +:+ "</script>") +:+ " b")
  = "a " +:+ cleanHtml " b".
Proof.
  destruct (cleanHtml_removes_element "a " " src=x>let y = 1;" " b"
              eq_refl eq_refl eq_refl) as [H _].
  exact H.
Defined.

(** ** The gates of an initial fetch *)

Lemma contains_part (s a b c : string) : contains s (a +:+ b +:+ c) -> contains s b.
Proof.
  intros (pre & post & ->). exists (pre +:+ a), (c +:+ post).
  by rewrite !app_assoc_string.
Qed.

Lemma includes_part (s a b c : string) :
  Js.includes s (a +:+ b +:+ c) = true -> Js.includes s b = true.
Proof. rewrite !includes_spec. apply contains_part. Qed.

(** X6.  The content-type gate accepts a response exactly when its
    content type contains [text], [json] or [xml]: the three full types it
    tests first are covered by these, so a missing or empty content type
    is rejected and letter case matters. *)
Theorem content_type_accepted_iff (contentType : string) :
  content_type_accepted contentType
  = Js.includes contentType "text" || Js.includes contentType "json"
    || Js.includes contentType "xml".
Proof.
  unfold content_type_accepted.
  destruct (Js.includes contentType "text/html") eqn:Hhtml.
  { by rewrite (includes_part contentType EmptyString "text" "/html" Hhtml). }
  destruct (Js.includes contentType "application/xhtml+xml") eqn:Hxhtml.
  { rewrite (includes_part contentType "application/xhtml+" "xml" EmptyString Hxhtml).
    simpl. by rewrite !orb_true_r. }
  destruct (Js.includes contentType "text/plain") eqn:Hplain.
  { by rewrite (includes_part contentType EmptyString "text" "/plain" Hplain). }
  simpl. by destruct (Js.includes contentType "text"), (Js.includes contentType "json"),
    (Js.includes contentType "xml").
Qed.

Example content_types :
  map content_type_accepted
    ["text/html; charset=utf-8"; "application/json"; "image/svg+xml"; "application/pdf";
     "Text/HTML"; EmptyString]
  = [true; true; true; false; false; false].
Proof. reflexivity. Qed.

(** The paginating part always answers, and leaves the transport alone. *)
Lemma extractAndPaginate_returns (E : Env) (url : string) (maxChars : Z)
    (headings : option (list Selector)) (html : string) (doc : Document) (w : World) :
  exists r w',
    extractAndPaginate E url maxChars headings html doc w = (Returned r, w')
    /\ res_url r = url
    /\ transportCalls w' = transportCalls w.
Proof.
  rewrite extractAndPaginate_unfold. cbv zeta.
  destruct (tr_hasMore _ && _); do 2 eexists; repeat split; reflexivity.
Qed.

(** X7.  A request that fails leaves the store and the clock as they
    were, and has called the transport at most once: nothing is stored for
    a document that was rejected, and no error comes from the paginating
    part. *)
Theorem failed_request_stores_nothing (E : Env) (options : WebFetchOptions)
    (w w' : World) (e : error) :
  fetchWebPage E options w = (Thrown e, w') ->
  contentCache w' = contentCache w
  /\ clockReads w' = clockReads w
  /\ (transportCalls w' = transportCalls w
      \/ exists url, transportCalls w' = (url, request_init options) :: transportCalls w).
Proof.
  intros H. destruct (provided (opt_continuationToken options)) as [token|] eqn:Htok.
  - rewrite (fetchWebPage_continuation E options token Htok) in H.
    rewrite handleContinuation_unfold in H.
    destruct (contentCache w !! token) as [cached|].
    + cbv zeta in H. destruct (tr_hasMore _); discriminate.
    + injection H as _ <-. auto.
  - unfold fetchWebPage in H. rewrite Htok in H.
    destruct (provided (opt_url options)) as [url|]; [|injection H as _ <-; auto].
    destruct (match opt_fetchImpl options with Some f => Some f | None => globalThis_fetch E end)
      as [fetchImpl|]; [|injection H as _ <-; auto].
    destruct (_ || _); [injection H as _ <-; auto|].
    unfold bind at 1, call_fetch in H. fold (request_init options) in H.
    destruct (fetchImpl _ _) as [response|]; [|injection H as _ <-; simpl; eauto].
    destruct (ok response); [|injection H as _ <-; simpl; eauto]. simpl in H.
    destruct (content_type_accepted _); [|injection H as _ <-; simpl; eauto]. simpl in H.
    unfold bind at 1, lift at 1 in H.
    destruct (body_text response) as [html|]; [|injection H as _ <-; simpl; eauto].
    destruct (_ <? Js.len html); [injection H as _ <-; simpl; eauto|].
    unfold bind at 1, lift at 1 in H.
    destruct (new_JSDOM E html url) as [doc|]; [|injection H as _ <-; simpl; eauto].
    destruct (extractAndPaginate_returns E url
                (default DEFAULT_MAX_CHARS (opt_maxChars options)) (opt_headings options)
                html doc
                {| contentCache := contentCache w; clockReads := clockReads w;
                   transportCalls :=
                     (convertGithubToRaw E url, request_init options) :: transportCalls w |})
      as (r & w'' & Hrun & _).
    rewrite Hrun in H. discriminate.
Qed.

Lemma failed_request_stores_nothing_witness :
  exists e w',
    fetchWebPage sample
      (initial_request long_url 200
         (fun _ _ => Returned {| ok := false; status := 404; statusText := "Not Found";
                                 content_type := Some "text/html";
                                 body_text := Returned EmptyString |}))
      empty_world = (Thrown e, w')
    /\ e = Error "HTTP error! status: 404 Not Found"
    /\ contentCache w' = ∅.
Proof.
  do 2 eexists.
  assert (fetchWebPage sample
            (initial_request long_url 200
               (fun _ _ => Returned {| ok := false; status := 404; statusText := "Not Found";
                                       content_type := Some "text/html";
                                       body_text := Returned EmptyString |}))
            empty_world = _) as H by (vm_compute; reflexivity).
  split; [exact H|]. split; [reflexivity|].
  exact (proj1 (failed_request_stores_nothing _ _ _ _ _ H)).
Defined.

(** X8.  A successful initial fetch has called the transport exactly once,
    for the URL the normaliser makes of the requested one, with the user
    agent and the time-out of the request or their defaults; the result
    names the requested URL, not the normalised one. *)
Theorem successful_fetch_calls_transport_once (E : Env) (options : WebFetchOptions)
    (w w' : World) (r : WebFetchResult) :
  provided (opt_continuationToken options) = None ->
  fetchWebPage E options w = (Returned r, w') ->
  exists url,
    provided (opt_url options) = Some url
    /\ res_url r = url
    /\ transportCalls w'
       = (convertGithubToRaw E url, request_init options) :: transportCalls w.
Proof.
  intros Htok H.
  destruct (fetchWebPage_initial_inv E options w w' r Htok H)
    as (url & html & doc & w1 & (_ & Hurl & fetchImpl & response & _ & Hacq) & _ & Hrun).
  cbv zeta in Hacq. destruct Hacq as (_ & -> & _).
  destruct (extractAndPaginate_returns E url
              (default DEFAULT_MAX_CHARS (opt_maxChars options)) (opt_headings options)
              html doc
              (after_call w (convertGithubToRaw E url)
                 {| ri_userAgent := default DEFAULT_USER_AGENT (opt_userAgent options);
                    ri_timeout := default DEFAULT_TIMEOUT_MS (opt_timeoutMs options) |}))
    as (r0 & w0 & Hrun0 & Hr0 & Hcalls).
  rewrite Hrun in Hrun0. injection Hrun0 as <- <-.
  exists url. split; [exact Hurl|]. split; [exact Hr0|]. exact Hcalls.
Qed.

Lemma successful_fetch_calls_transport_once_witness :
  exists r w',
    fetchWebPage sample
      (initial_request "https://github.com/user/repo/blob/main/README.md" 200
         (createFetch plain_page)) empty_world = (Returned r, w')
    /\ res_url r = "https://github.com/user/repo/blob/main/README.md"
    /\ transportCalls w'
       = [("https://raw.githubusercontent.com/user/repo/main/README.md",
           {| ri_userAgent := DEFAULT_USER_AGENT; ri_timeout := DEFAULT_TIMEOUT_MS |})].
Proof.
  do 2 eexists.
  assert (fetchWebPage sample
            (initial_request "https://github.com/user/repo/blob/main/README.md" 200
               (createFetch plain_page)) empty_world = _) as H by (vm_compute; reflexivity).
  split; [exact H|].
  destruct (successful_fetch_calls_transport_once sample
              (initial_request "https://github.com/user/repo/blob/main/README.md" 200
                 (createFetch plain_page)) empty_world _ _ eq_refl H)
    as (url & Hurl & Hres & Hcalls).
  injection Hurl as <-. split; [exact Hres | exact Hcalls].
Defined.

(** ** Extraction tiers *)

Lemma or_else_truthy (s fallback : string) :
  Js.truthy fallback = true -> or_else s fallback <> EmptyString.
Proof.
  intros Hf. unfold or_else. destruct (Js.truthy s) eqn:Hs.
  - intros ->. discriminate.
  - intros ->. discriminate.
Qed.

Lemma probe_selectors_spec (doc : Document) (selectors : list string)
    (content : ExtractedContent) (label : string) :
  probe_selectors doc selectors = Some (content, label) ->
  exists selector element,
    In selector selectors
    /\ label = "selector:" +:+ selector
    /\ doc_querySelector doc selector = Some element
    /\ MIN_SELECTOR_LENGTH < Js.len (Js.trim (textContent element))
    /\ ec_html content = innerHTML element
    /\ ec_title content = or_else (doc_title doc) "Untitled".
Proof.
  induction selectors as [|selector selectors IH]; intros H; [discriminate|].
  simpl in H.
  assert (probe_selectors doc selectors = Some (content, label) ->
          exists selector0 element,
            In selector0 (selector :: selectors)
            /\ label = "selector:" +:+ selector0
            /\ doc_querySelector doc selector0 = Some element
            /\ MIN_SELECTOR_LENGTH < Js.len (Js.trim (textContent element))
            /\ ec_html content = innerHTML element
            /\ ec_title content = or_else (doc_title doc) "Untitled") as Hlater.
  { intros Hl. destruct (IH Hl) as (sel & el & Hin & Hrest).
    exists sel, el. split; [by right | exact Hrest]. }
  destruct (doc_querySelector doc selector) as [element|] eqn:Hq; [|by apply Hlater].
  destruct (Z.ltb_spec MIN_SELECTOR_LENGTH (Js.len (Js.trim (textContent element))))
    as [Hlong|_]; [|by apply Hlater].
  injection H as <- <-. exists selector, element. repeat split; try done. by left.
Qed.

(** X9.  The extraction always yields a fragment, and its method label is
    one of seven: [readability], taken exactly when Readability returns an
    article whose length exceeds 300, whatever the selectors would match;
    a [selector:] label for one of the five probed selectors, whose element
    then has more than 300 code units of trimmed text and supplies the
    fragment; or [basic-clean], in which case the fragment is the cleaned
    raw document.  Outside the readability tier the title is never
    empty. *)
Theorem extractContent_tiers (doc : Document) (html : string) :
  In (snd (extractContent doc html)) method_labels
  /\ (snd (extractContent doc html) = "readability" <->
      exists article,
        doc_readability doc = Some article
        /\ MIN_READABILITY_LENGTH < default 0 (art_length article))
  /\ (snd (extractContent doc html) = "basic-clean" ->
      ec_html (fst (extractContent doc html)) = cleanHtml html)
  /\ (forall selector,
        snd (extractContent doc html) = "selector:" +:+ selector ->
        exists element,
          doc_querySelector doc selector = Some element
          /\ MIN_SELECTOR_LENGTH < Js.len (Js.trim (textContent element))
          /\ ec_html (fst (extractContent doc html)) = innerHTML element)
  /\ (snd (extractContent doc html) <> "readability" ->
      ec_title (fst (extractContent doc html)) <> EmptyString).
Proof.
  unfold extractContent.
  destruct (doc_readability doc) as [article|] eqn:Hread.
  - destruct (Z.ltb_spec MIN_READABILITY_LENGTH (default 0 (art_length article)))
      as [Hlong|Hshort].
    + simpl. repeat split; try done; eauto.
    + cut (forall found : option (ExtractedContent * string),
             found = probe_selectors doc ["main"; "article"; "#content"; ".content"; ".main"] ->
             let result := match found with
                           | Some f => f
                           | None => ({| ec_html := cleanHtml html;
                                         ec_title := or_else (doc_title doc) "Untitled";
                                         ec_excerpt := None |}, "basic-clean")
                           end in
             In (snd result) method_labels
             /\ (snd result = "readability" <->
                 exists article0, Some article = Some article0
                   /\ MIN_READABILITY_LENGTH < default 0 (art_length article0))
             /\ (snd result = "basic-clean" -> ec_html (fst result) = cleanHtml html)
             /\ (forall selector, snd result = "selector:" +:+ selector ->
                 exists element, doc_querySelector doc selector = Some element
                   /\ MIN_SELECTOR_LENGTH < Js.len (Js.trim (textContent element))
                   /\ ec_html (fst result) = innerHTML element)
             /\ (snd result <> "readability" -> ec_title (fst result) <> EmptyString)).
      { intros Hcut. exact (Hcut _ eq_refl). }
      intros [[content label]|] Hfound; simpl.
      * symmetry in Hfound.
        destruct (probe_selectors_spec doc _ content label Hfound)
          as (sel & el & Hin & -> & Hq & Hlen & Hhtml & Htitle).
        split; [|split; [|split; [|split]]].
        -- simpl in Hin. unfold method_labels.
           destruct Hin as [<-|[<-|[<-|[<-|[<-|[]]]]]]; simpl; tauto.
        -- split; [discriminate|]. intros (a & [= <-] & Ha). lia.
        -- intros H. simpl in Hin.
           destruct Hin as [<-|[<-|[<-|[<-|[<-|[]]]]]]; discriminate.
        -- intros selector H. apply (inj (String.app "selector:")) in H. subst selector.
           eauto.
        -- intros _. rewrite Htitle. by apply or_else_truthy.
      * split; [|split; [|split; [|split]]].
        -- unfold method_labels. simpl. tauto.
        -- split; [discriminate|]. intros (a & [= <-] & Ha). lia.
        -- done.
        -- intros selector H. discriminate.
        -- intros _. by apply or_else_truthy.
  - cut (forall found : option (ExtractedContent * string),
           found = probe_selectors doc ["main"; "article"; "#content"; ".content"; ".main"] ->
           let result := match found with
                         | Some f => f
                         | None => ({| ec_html := cleanHtml html;
                                       ec_title := or_else (doc_title doc) "Untitled";
                                       ec_excerpt := None |}, "basic-clean")
                         end in
           In (snd result) method_labels
           /\ (snd result = "readability" <->
               exists article0 : Article, None = Some article0
                 /\ MIN_READABILITY_LENGTH < default 0 (art_length article0))
           /\ (snd result = "basic-clean" -> ec_html (fst result) = cleanHtml html)
           /\ (forall selector, snd result = "selector:" +:+ selector ->
               exists element, doc_querySelector doc selector = Some element
                 /\ MIN_SELECTOR_LENGTH < Js.len (Js.trim (textContent element))
                 /\ ec_html (fst result) = innerHTML element)
           /\ (snd result <> "readability" -> ec_title (fst result) <> EmptyString)).
    { intros Hcut. exact (Hcut _ eq_refl). }
    intros [[content label]|] Hfound; simpl.
    + symmetry in Hfound.
      destruct (probe_selectors_spec doc _ content label Hfound)
        as (sel & el & Hin & -> & Hq & Hlen & Hhtml & Htitle).
      split; [|split; [|split; [|split]]].
      * simpl in Hin. unfold method_labels.
        destruct Hin as [<-|[<-|[<-|[<-|[<-|[]]]]]]; simpl; tauto.
      * split; [discriminate|]. intros (a & [=] & _).
      * intros H. simpl in Hin.
        destruct Hin as [<-|[<-|[<-|[<-|[<-|[]]]]]]; discriminate.
      * intros selector H. apply (inj (String.app "selector:")) in H. subst selector.
        eauto.
      * intros _. rewrite Htitle. by apply or_else_truthy.
    + split; [|split; [|split; [|split]]].
      * unfold method_labels. simpl. tauto.
      * split; [discriminate|]. intros (a & [=] & _).
      * done.
      * intros selector H. discriminate.
      * intros _. by apply or_else_truthy.
Qed.

(** ** The sweep and the clearing of the store *)

(** X10.  The sweep reads the clock once and keeps exactly the entries
    whose age at that reading is at most [CACHE_TTL], unchanged and under
    their keys; an entry of age [CACHE_TTL] exactly is kept.  It adds no
    entry, calls no transport and does not fail. *)
Theorem cleanup_sweeps_expired (E : Env) (w : World) :
  fst (cleanup E w) = Returned tt
  /\ (forall key entry,
        contentCache (snd (cleanup E w)) !! key = Some entry <->
        contentCache w !! key = Some entry
        /\ date_now E (clockReads w) - ce_timestamp entry <= CACHE_TTL)
  /\ clockReads (snd (cleanup E w)) = S (clockReads w)
  /\ transportCalls (snd (cleanup E w)) = transportCalls w.
Proof.
  split; [reflexivity|]. split; [|split; reflexivity].
  intros key entry. rewrite cleanup_lookup.
  destruct (contentCache w !! key) as [stored|].
  - case_decide as Hage.
    + split; [discriminate|]. intros [[= ->] Hle]. lia.
    + split.
      * intros [= ->]. split; [reflexivity | lia].
      * by intros [H _].
  - split; [discriminate | by intros [H _]].
Qed.

(** X11.  After a sweep, a continuation request fails with the expiry
    error exactly when its token has no entry or an entry older than
    [CACHE_TTL] at the reading of the sweep; the failed request leaves the
    swept world as it is. *)
Theorem swept_token_is_expired (E : Env) (options : WebFetchOptions) (token : string)
    (w : World) :
  provided (opt_continuationToken options) = Some token ->
  (fst (fetchWebPage E options (snd (cleanup E w)))
   = Thrown (Error "Continuation token expired or invalid.")
   <-> match contentCache w !! token with
       | Some entry => CACHE_TTL < date_now E (clockReads w) - ce_timestamp entry
       | None => True
       end)
  /\ (forall e, fst (fetchWebPage E options (snd (cleanup E w))) = Thrown e ->
      e = Error "Continuation token expired or invalid."
      /\ snd (fetchWebPage E options (snd (cleanup E w))) = snd (cleanup E w)).
Proof.
  intros Htok. rewrite (fetchWebPage_continuation E options token Htok).
  rewrite handleContinuation_unfold, cleanup_lookup.
  destruct (contentCache w !! token) as [entry|].
  - case_decide as Hage.
    + split; [split; [intros _; lia | reflexivity]|].
      intros e [= <-]. split; reflexivity.
    + cbv zeta. destruct (tr_hasMore _); simpl.
      * split; [split; [discriminate | intros; lia]|]. intros e [=].
      * split; [split; [discriminate | intros; lia]|]. intros e [=].
  - split; [split; [done | reflexivity]|].
    intros e [= <-]. split; reflexivity.
Qed.

Lemma swept_token_is_expired_witness :
  let w := snd (fetchWebPage sample (initial_request long_url 200 (createFetch long_page))
                  empty_world) in
  let later := {| contentCache := contentCache w;
                  clockReads := Z.to_nat 300004;
                  transportCalls := transportCalls w |} in
  is_Some (contentCache later !! "https://example.com/long:continuation:200:1700000000000")
  /\ fst (fetchWebPage sample
            (continuation_request "https://example.com/long:continuation:200:1700000000000"
               None)
            (snd (cleanup sample later)))
     = Thrown (Error "Continuation token expired or invalid.").
Proof.
  intros w later. split.
  - vm_compute. eexists. reflexivity.
  - apply (swept_token_is_expired sample
             (continuation_request "https://example.com/long:continuation:200:1700000000000"
                None)
             "https://example.com/long:continuation:200:1700000000000" later eq_refl).
    vm_compute. reflexivity.
Defined.

(** X12.  Clearing empties the store and touches neither the clock nor
    the record of transport calls; after it every continuation request
    fails with the expiry error, whatever was stored before, and leaves
    the cleared world as it is. *)
Theorem clear_invalidates_every_token (E : Env) (options : WebFetchOptions)
    (token : string) (w : World) :
  provided (opt_continuationToken options) = Some token ->
  fst (clearWebFetchCache w) = Returned tt
  /\ contentCache (snd (clearWebFetchCache w)) = ∅
  /\ clockReads (snd (clearWebFetchCache w)) = clockReads w
  /\ transportCalls (snd (clearWebFetchCache w)) = transportCalls w
  /\ fetchWebPage E options (snd (clearWebFetchCache w))
     = (Thrown (Error "Continuation token expired or invalid."),
        snd (clearWebFetchCache w)).
Proof.
  intros Htok. repeat split.
  rewrite (fetchWebPage_continuation E options token Htok), handleContinuation_unfold.
  simpl. by rewrite lookup_empty.
Qed.

Lemma clear_invalidates_every_token_witness :
  let w := snd (fetchWebPage sample (initial_request long_url 200 (createFetch long_page))
                  empty_world) in
  is_Some (contentCache w !! "https://example.com/long:continuation:200:1700000000000")
  /\ fetchWebPage sample
       (continuation_request "https://example.com/long:continuation:200:1700000000000" None)
       (snd (clearWebFetchCache w))
     = (Thrown (Error "Continuation token expired or invalid."),
        snd (clearWebFetchCache w)).
Proof.
  intros w. split.
  - vm_compute. eexists. reflexivity.
  - apply (clear_invalidates_every_token sample
             (continuation_request "https://example.com/long:continuation:200:1700000000000"
                None)
             "https://example.com/long:continuation:200:1700000000000" w eq_refl).
Defined.

(** ** The store under budgets that are not negative *)

(** X13.  In every world the module reaches from an empty store by
    requests whose budget is not negative, sweeps and clearings, every
    stored entry has an offset between zero and the length of its text. *)
Theorem store_ok_under_budgets (E : Env) (w : World) :
  reachable_with_budgets E w -> store_ok w.
Proof.
  induction 1 as [w Hempty|options w Hmax _ IH|w _ IH|w _ IH].
  - intros key entry. rewrite Hempty, lookup_empty. discriminate.
  - by apply fetchWebPage_store_ok.
  - by apply cleanup_store_ok.
  - apply clearWebFetchCache_store_ok.
Qed.

Lemma store_ok_under_budgets_witness :
  let w1 := snd (fetchWebPage sample (initial_request long_url 200 (createFetch long_page))
                   empty_world) in
  let w2 := snd (fetchWebPage sample
                   (continuation_request
                      "https://example.com/long:continuation:200:1700000000000" (Some 0))
                   w1) in
  reachable_with_budgets sample w2 /\ store_ok w2
  /\ size (contentCache w2) = 2%nat.
Proof.
  intros w1 w2.
  assert (reachable_with_budgets sample w2) as Hreach.
  { apply budgets_fetch; [simpl; lia|].
    apply budgets_fetch; [simpl; lia|].
    apply budgets_start. reflexivity. }
  split; [exact Hreach|]. split.
  - exact (store_ok_under_budgets sample w2 Hreach).
  - vm_compute. reflexivity.
Defined.

(** ** Keys *)

(** X14.  Two keys generated for the same URL and type are equal only if
    they were generated for the same value at the same reading of the
    clock; generating a key reads the clock once and changes nothing
    else. *)
Theorem generateCacheKey_injective (E : Env) (url type : string) (a b : Z) (w1 w2 : World) :
  fst (generateCacheKey E url type a w1) = fst (generateCacheKey E url type b w2) ->
  a = b /\ date_now E (clockReads w1) = date_now E (clockReads w2).
Proof.
  unfold generateCacheKey, bind, Date_now, ret. simpl. intros [= H].
  apply (inj (String.app url)) in H.
  apply (inj (String.app ":")) in H.
  apply (inj (String.app type)) in H.
  apply (inj (String.app ":")) in H.
  assert (pretty a = pretty b) as Hab.
  { eapply colon_free_prefix_inj; [apply pretty_Z_colon_free.. | exact H]. }
  split; [by apply (inj pretty)|].
  rewrite Hab in H. apply (inj (String.app (pretty b))) in H.
  apply (inj (String.app ":")) in H. by apply (inj pretty).
Qed.

Lemma generateCacheKey_injective_witness :
  let w := after_call empty_world long_url (request_init (continuation_request long_url None)) in
  fst (generateCacheKey sample long_url "continuation" 200 empty_world)
  = fst (generateCacheKey sample long_url "continuation" 200 w)
  /\ 200 = 200
  /\ date_now sample (clockReads empty_world) = date_now sample (clockReads w).
Proof.
  intros w. split; [reflexivity|].
  apply (generateCacheKey_injective sample long_url "continuation" 200 200 empty_world w).
  reflexivity.
Defined.

(** ** The first continuation *)

Lemma truncateMarkdown_not_empty (markdown : string) (maxChars offset : Z) :
  0 <= offset < Js.len markdown ->
  tr_markdown (truncateMarkdown markdown maxChars offset) <> EmptyString.
Proof.
  intros Hoff.
  destruct (truncateMarkdown_cases markdown maxChars offset)
    as [(H & _) | [(_ & _ & _ & _ & Hb) | (_ & _ & _ & Hb & _)]].
  - lia.
  - rewrite Hb. intros Hempty.
    assert (Js.len (Js.substring_from markdown offset) = 0) as Hlen by by rewrite Hempty.
    unfold Js.substring_from in Hlen. rewrite len_substring in Hlen.
    unfold Js.clamp in Hlen. lia.
  - rewrite Hb. intros Hempty.
    assert (Js.len (Js.trim (Js.substring markdown offset
                       (tr_nextOffset (truncateMarkdown markdown maxChars offset)))
                    +:+ truncation_marker) = 0) as Hlen by by rewrite Hempty.
    rewrite len_app in Hlen.
    pose proof (len_nonneg (Js.trim (Js.substring markdown offset
                  (tr_nextOffset (truncateMarkdown markdown maxChars offset))))).
    change (Js.len truncation_marker) with 21 in Hlen. lia.
Qed.

(** X15.  The token of an initial fetch can be redeemed at once, with
    any budget: the continuation succeeds without a transport call, repeats
    the title, the URL and the method of the first response, carries no
    table of contents (nor did the first response, since a token is minted
    only for a fragment without headings), and its Markdown is not
    empty. *)
Theorem minted_token_continues (E : Env) (options : WebFetchOptions) (w w1 : World)
    (first : WebFetchResult) (token : string) (maxChars : option Z) :
  provided (opt_continuationToken options) = None ->
  fetchWebPage E options w = (Returned first, w1) ->
  res_continuationToken first = Some token ->
  exists next w2,
    fetchWebPage E (continuation_request token maxChars) w1 = (Returned next, w2)
    /\ res_title next = res_title first
    /\ res_url next = res_url first
    /\ res_method next = res_method first
    /\ res_toc first = None
    /\ res_toc next = None
    /\ res_markdown next <> EmptyString
    /\ transportCalls w2 = transportCalls w1.
Proof.
  intros Htok Hrun Hminted.
  destruct (fetchWebPage_initial_inv E options w w1 first Htok Hrun)
    as (url & html & doc & w0 & _ & [Hlo _] & Hpag).
  rewrite extractAndPaginate_unfold in Hpag. cbv zeta in Hpag.
  destruct (tr_hasMore _ && _) eqn:Hcond in Hpag.
  2: { injection Hpag as <- _. discriminate Hminted. }
  apply andb_true_iff in Hcond as [Hmore Hnone].
  apply Nat.eqb_eq in Hnone. apply nil_length_inv in Hnone.
  rewrite Hnone in Hmore, Hpag. rewrite select_sections_no_headings in Hmore, Hpag.
  set (md := turndown E (ec_html (fst (extractContent doc html)))) in *.
  set (mc := default DEFAULT_MAX_CHARS (opt_maxChars options)) in *.
  destruct (truncateMarkdown_more md mc 0 ltac:(lia) ltac:(lia) Hmore) as [Hnext Hlt].
  injection Hpag as <- <-. simpl in Hminted. injection Hminted as <-.
  rewrite (fetchWebPage_continuation E _
             (continuation_key url (tr_nextOffset (truncateMarkdown md mc 0))
                (date_now E (clockReads w0)))).
  2: { simpl. by rewrite continuation_key_truthy. }
  rewrite handleContinuation_unfold.
  unfold after_minting at 1. cbn [contentCache]. rewrite lookup_insert_eq. cbv zeta.
  cbn [ce_markdown ce_offset ce_url ce_title ce_metadata method].
  assert (tr_markdown (truncateMarkdown md
            (default DEFAULT_MAX_CHARS (opt_maxChars (continuation_request
               (continuation_key url (tr_nextOffset (truncateMarkdown md mc 0))
                  (date_now E (clockReads w0))) maxChars)))
            (tr_nextOffset (truncateMarkdown md mc 0))) <> EmptyString) as Hmd.
  { apply truncateMarkdown_not_empty. lia. }
  destruct (tr_hasMore (truncateMarkdown md _ (tr_nextOffset (truncateMarkdown md mc 0))));
    do 2 eexists; (split; [reflexivity|]); cbn [res_title res_url res_method res_toc
      res_markdown]; repeat split; try exact Hmd; by rewrite Hnone.
Qed.

Lemma minted_token_continues_witness :
  exists first w1 token next w2,
    fetchWebPage sample (initial_request long_url 200 (createFetch long_page)) empty_world
    = (Returned first, w1)
    /\ res_continuationToken first = Some token
    /\ fetchWebPage sample (continuation_request token (Some 120)) w1 = (Returned next, w2)
    /\ res_title next = res_title first
    /\ res_markdown next <> EmptyString
    /\ transportCalls w2 = transportCalls w1.
Proof.
  assert (fetchWebPage sample (initial_request long_url 200 (createFetch long_page))
            empty_world = _) as Hrun by (vm_compute; reflexivity).
  destruct (minted_token_continues sample
              (initial_request long_url 200 (createFetch long_page)) empty_world _ _
              "https://example.com/long:continuation:200:1700000000000" (Some 120)
              eq_refl Hrun eq_refl)
    as (next & w2 & Hnext & Htitle & _ & _ & _ & _ & Hmd & Hcalls).
  do 5 eexists. split; [exact Hrun|]. split; [reflexivity|].
  split; [exact Hnext|]. split; [exact Htitle|]. split; [exact Hmd | exact Hcalls].
Defined.

(** ** Where the paginator cuts *)

Lemma char_at_head (c : ascii) (s : string) : char_at (String c s) 0 = Some c.
Proof. reflexivity. Qed.

Lemma char_at_tail (c : ascii) (s : string) (j : Z) :
  1 <= j -> char_at (String c s) j = char_at s (j - 1).
Proof.
  intros Hj. unfold char_at.
  destruct (Z.ltb_spec j 0) as [?|_]; [lia|].
  destruct (Z.ltb_spec (j - 1) 0) as [?|_]; [lia|].
  replace (Z.to_nat j) with (S (Z.to_nat (j - 1))) by lia. reflexivity.
Qed.

(** The scan behind [lastIndexOf] answers with the last index at most
    [bound] that holds [c], and with its start value when there is
    none. *)
Lemma lastIndexOf_scan_spec (c : ascii) (s : string) : forall i bound acc,
  let r := Js.lastIndexOf_scan c s i bound acc in
  (r = acc
   /\ forall j, 0 <= j < Js.len s -> i + j <= bound -> char_at s j <> Some c)
  \/ (i <= r <= bound
      /\ char_at s (r - i) = Some c
      /\ forall j, r - i < j < Js.len s -> i + j <= bound -> char_at s j <> Some c).
Proof.
  induction s as [|d s IH]; intros i bound acc; cbv zeta.
  - left. split; [reflexivity|]. intros j Hj. unfold Js.len in Hj. simpl in Hj. lia.
  - change (Js.lastIndexOf_scan c (String d s) i bound acc)
      with (Js.lastIndexOf_scan c s (i + 1) bound
              (if (i <=? bound) && Ascii.eqb d c then i else acc)).
    assert (Js.len (String d s) = Js.len s + 1) as Hlen.
    { unfold Js.len. simpl. lia. }
    destruct (IH (i + 1) bound (if (i <=? bound) && Ascii.eqb d c then i else acc))
      as [[Hr Hnone]|(Hr & Hat & Hlast)].
    + destruct ((i <=? bound) && Ascii.eqb d c) eqn:Hcond.
      * right. apply andb_true_iff in Hcond as [Hi Hd].
        apply Z.leb_le in Hi. apply Ascii.eqb_eq in Hd. subst d.
        rewrite Hr, Z.sub_diag. split; [lia|]. split; [apply char_at_head|].
        intros j Hj Hb. rewrite char_at_tail by lia. apply Hnone; lia.
      * left. split; [exact Hr|]. intros j Hj Hb.
        destruct (decide (j = 0)) as [->|Hj0].
        -- rewrite char_at_head. intros [= ->].
           apply andb_false_iff in Hcond as [Hi|Hd].
           ++ apply Z.leb_gt in Hi. lia.
           ++ by rewrite Ascii.eqb_refl in Hd.
        -- rewrite char_at_tail by lia. apply Hnone; lia.
    + right. split; [lia|]. split.
      * rewrite char_at_tail by lia.
        by replace (Js.lastIndexOf_scan c s (i + 1) bound
                      (if (i <=? bound) && Ascii.eqb d c then i else acc) - i - 1)
          with (Js.lastIndexOf_scan c s (i + 1) bound
                  (if (i <=? bound) && Ascii.eqb d c then i else acc) - (i + 1)) by lia.
      * intros j Hj Hb. rewrite char_at_tail by lia. apply Hlast; lia.
Qed.

(** [lastIndexOf] finds the last occurrence at or before a start index
    that is not negative. *)
Lemma lastIndexOf_spec (s : string) (c : ascii) (fromIndex : Z) :
  0 <= fromIndex ->
  let r := Js.lastIndexOf s c fromIndex in
  (r = -1
   /\ forall j, 0 <= j < Js.len s -> j <= fromIndex -> char_at s j <> Some c)
  \/ (0 <= r <= fromIndex
      /\ char_at s r = Some c
      /\ forall j, r < j < Js.len s -> j <= fromIndex -> char_at s j <> Some c).
Proof.
  intros Hfrom. cbv zeta. unfold Js.lastIndexOf.
  destruct (lastIndexOf_scan_spec c s 0 (Z.min (Z.max fromIndex 0) (Js.len s - 1)) (-1))
    as [[Hr Hnone]|(Hr & Hat & Hlast)].
  - left. split; [exact Hr|]. intros j Hj Hb. apply Hnone; lia.
  - right. rewrite Z.sub_0_r in Hat, Hlast. split; [lia|]. split; [exact Hat|].
    intros j Hj Hb. apply Hlast; lia.
Qed.

(** X16.  Where a truncated chunk ends.  With a budget and an offset that
    are not negative, a cut consumes at least four fifths of the budget and
    at most all of it; when it falls short of the whole budget it falls on
    a newline; and whenever the last fifth of the window holds a newline,
    the cut is on the last newline of the window. *)
Theorem truncateMarkdown_cut (markdown : string) (maxChars offset : Z) :
  0 <= maxChars -> 0 <= offset ->
  tr_hasMore (truncateMarkdown markdown maxChars offset) = true ->
  let next := tr_nextOffset (truncateMarkdown markdown maxChars offset) in
  4 * maxChars <= 5 * (next - offset)
  /\ next <= offset + maxChars
  /\ (next <> offset + maxChars -> char_at markdown next = Some newline)
  /\ (forall j,
        5 * offset + 4 * maxChars < 5 * j -> j <= offset + maxChars ->
        char_at markdown j = Some newline ->
        j <= next /\ char_at markdown next = Some newline).
Proof.
  intros Hmax Hoff. unfold truncateMarkdown.
  destruct (Z.leb_spec (Js.len markdown) offset) as [?|Hstart]; [discriminate|].
  destruct (Z.leb_spec (Js.len markdown - offset) maxChars) as [?|Hlong]; [discriminate|].
  cbv zeta. cbn [tr_hasMore tr_nextOffset]. intros _.
  destruct (lastIndexOf_spec markdown newline (offset + maxChars) ltac:(lia))
    as [[Hr Hnone]|(Hr & Hat & Hlast)].
  - rewrite Hr. destruct (Z.ltb_spec (5 * offset + 4 * maxChars) (5 * -1)) as [?|_]; [lia|].
    split; [lia|]. split; [lia|]. split; [done|].
    intros j Hlo Hhi Hj. exfalso. apply (Hnone j); [lia | lia | exact Hj].
  - destruct (Z.ltb_spec (5 * offset + 4 * maxChars)
                (5 * Js.lastIndexOf markdown newline (offset + maxChars))) as [Hcut|Hkeep].
    + split; [lia|]. split; [lia|]. split; [done|].
      intros j Hlo Hhi Hj. split; [|exact Hat].
      destruct (Z.le_gt_cases j (Js.lastIndexOf markdown newline (offset + maxChars)))
        as [?|Hgt]; [done|].
      exfalso. apply (Hlast j); [lia | lia | exact Hj].
    + split; [lia|]. split; [lia|]. split; [done|].
      intros j Hlo Hhi Hj. exfalso.
      destruct (Z.le_gt_cases j (Js.lastIndexOf markdown newline (offset + maxChars)))
        as [?|Hgt]; [lia|].
      apply (Hlast j); [lia | lia | exact Hj].
Qed.

Lemma truncateMarkdown_cut_witness :
  let markdown := Js.repeat "a" 190 +:+ String newline (Js.repeat "b" 100) in
  let next := tr_nextOffset (truncateMarkdown markdown 200 0) in
  next = 190
  /\ 4 * 200 <= 5 * (next - 0)
  /\ next <= 0 + 200
  /\ char_at markdown next = Some newline.
Proof.
  intros markdown next.
  destruct (truncateMarkdown_cut markdown 200 0 ltac:(lia) ltac:(lia) eq_refl)
    as (Hfifth & Hwindow & Hshort & _).
  split; [reflexivity|]. split; [exact Hfifth|]. split; [exact Hwindow|].
  apply Hshort. vm_compute. discriminate.
Defined.

(** ** Heading selectors *)

(** An initial fetch that acquired its document checks the budget and
    paginates. *)
Lemma fetchWebPage_acquired (E : Env) (options : WebFetchOptions) (w w1 : World)
    (url html : string) (doc : Document) :
  acquired E options w url html doc w1 ->
  fetchWebPage E options w
  = if (default DEFAULT_MAX_CHARS (opt_maxChars options) <? 200)
       || (MAX_CHARS_LIMIT <? default DEFAULT_MAX_CHARS (opt_maxChars options))
    then (Thrown (Error ("maxChars must be between 200 and " +:+ pretty MAX_CHARS_LIMIT
                         +:+ ".")), w)
    else extractAndPaginate E url (default DEFAULT_MAX_CHARS (opt_maxChars options))
           (opt_headings options) html doc w1.
Proof.
  intros (Htok & Hurl & fetchImpl & response & Hf & Hacq). cbv zeta in Hacq.
  destruct Hacq as (Hresp & -> & Hok & Hct & Hbody & Hsize & Hdoc).
  unfold fetchWebPage. rewrite Htok, Hurl, Hf.
  destruct (_ || _); [reflexivity|].
  unfold bind at 1, call_fetch. rewrite Hresp, Hok. simpl. rewrite Hct. simpl.
  unfold bind at 1, lift at 1. rewrite Hbody.
  destruct (Z.ltb_spec (default DEFAULT_MAX_BODY_SIZE (opt_maxBodySizeBytes options))
              (Js.len html)) as [?|_]; [lia|].
  unfold bind at 1, lift at 1. rewrite Hdoc. reflexivity.
Qed.

(** The selectors of a request have no part in acquiring the document. *)
Lemma acquired_set_headings (E : Env) (options : WebFetchOptions) (w w1 : World)
    (url html : string) (doc : Document) (headings : option (list Selector)) :
  acquired E options w url html doc w1 ->
  acquired E (set_headings options headings) w url html doc w1.
Proof. intros H. exact H. Qed.

(** X17.  Selectors are advisory.  When the request carries selectors of
    which none resolves to a heading of the fragment (or an empty list of
    selectors), the request behaves in every respect, response, store,
    clock and transport, as the same request without selectors: the filter
    error is never reported. *)
Theorem unresolved_selectors_are_ignored (E : Env) (options : WebFetchOptions)
    (w w1 : World) (url html : string) (doc : Document) :
  acquired E options w url html doc w1 ->
  ~ filter_applied options doc html ->
  fetchWebPage E options w = fetchWebPage E (set_headings options None) w.
Proof.
  intros Hacq Hnot.
  rewrite (fetchWebPage_acquired E options w w1 url html doc Hacq).
  rewrite (fetchWebPage_acquired E (set_headings options None) w w1 url html doc
             (acquired_set_headings E options w w1 url html doc None Hacq)).
  cbn [set_headings opt_maxChars opt_headings].
  destruct (_ || _); [reflexivity|].
  rewrite !extractAndPaginate_unfold. cbv zeta.
  assert (select_sections (ec_html (fst (extractContent doc html)))
            (extractHeadings (ec_html (fst (extractContent doc html))))
            (opt_headings options)
          = ec_html (fst (extractContent doc html))) as ->; [|reflexivity].
  destruct (opt_headings options) as [[|target targets]|] eqn:Hsel; try reflexivity.
  unfold select_sections.
  destruct (fr_filtered _) eqn:Hfiltered.
  - exfalso. apply Hnot. exists target, targets. split; [exact Hsel | exact Hfiltered].
  - by rewrite andb_false_r.
Qed.

Lemma unresolved_selectors_are_ignored_witness :
  let options := set_headings (initial_request long_url 200 (createFetch headed_page))
                   (Some [ByText "Missing"; ByNumber 2]) in
  fetchWebPage sample options empty_world
  = fetchWebPage sample (set_headings options None) empty_world
  /\ extractHeadings headed_page <> [].
Proof.
  intros options. split; [|discriminate].
  apply (unresolved_selectors_are_ignored sample options empty_world
           (after_call empty_world long_url (request_init options))
           long_url headed_page
           {| doc_title := EmptyString; doc_readability := None;
              doc_querySelector := fun _ => None |}).
  - split; [reflexivity|]. split; [reflexivity|].
    exists (createFetch headed_page).
    exists {| ok := true; status := 200; statusText := "OK";
              content_type := Some "text/html"; body_text := Returned headed_page |}.
    split; [reflexivity|]. cbv zeta.
    split; [reflexivity|]. split; [reflexivity|]. split; [reflexivity|].
    split; [reflexivity|]. split; [reflexivity|]. split; [|reflexivity].
    vm_compute. discriminate.
  - intros (target & targets & Hsel & Hfiltered).
    injection Hsel as <- <-. vm_compute in Hfiltered. discriminate Hfiltered.
Defined.

(** X18.  Selectors change nothing but the Markdown and the token.  If an
    initial fetch succeeds, the same request with any other selectors
    succeeds as well, after the same transport call, and its response has
    the same title, URL, method and table of contents: the table lists the
    headings of the whole fragment also when only a section of it is
    returned. *)
Theorem selectors_keep_toc_and_title (E : Env) (options : WebFetchOptions) (w w' : World)
    (r : WebFetchResult) (headings : option (list Selector)) :
  provided (opt_continuationToken options) = None ->
  fetchWebPage E options w = (Returned r, w') ->
  exists r2 w2,
    fetchWebPage E (set_headings options headings) w = (Returned r2, w2)
    /\ res_title r2 = res_title r
    /\ res_url r2 = res_url r
    /\ res_method r2 = res_method r
    /\ res_toc r2 = res_toc r
    /\ transportCalls w2 = transportCalls w'.
Proof.
  intros Htok Hrun.
  destruct (fetchWebPage_initial_inv E options w w' r Htok Hrun)
    as (url & html & doc & w1 & Hacq & [Hlo Hhi] & Hpag).
  rewrite (fetchWebPage_acquired E (set_headings options headings) w w1 url html doc
             (acquired_set_headings E options w w1 url html doc headings Hacq)).
  cbn [set_headings opt_maxChars opt_headings].
  destruct (Z.ltb_spec (default DEFAULT_MAX_CHARS (opt_maxChars options)) 200) as [?|_];
    [lia|].
  destruct (Z.ltb_spec MAX_CHARS_LIMIT (default DEFAULT_MAX_CHARS (opt_maxChars options)))
    as [?|_]; [lia|].
  cbn [orb]. rewrite extractAndPaginate_unfold in Hpag |- *. cbv zeta in Hpag |- *.
  destruct (tr_hasMore _ && _) in Hpag; injection Hpag as <- <-;
    destruct (tr_hasMore _ && _); do 2 eexists; repeat split; reflexivity.
Qed.

Lemma selectors_keep_toc_and_title_witness :
  exists r w' r2 w2,
    fetchWebPage sample (initial_request long_url 200 (createFetch headed_page)) empty_world
    = (Returned r, w')
    /\ fetchWebPage sample
         (set_headings (initial_request long_url 200 (createFetch headed_page))
            (Some [ByNumber 1])) empty_world
       = (Returned r2, w2)
    /\ res_toc r2 = res_toc r
    /\ res_toc r = Some "- T".
Proof.
  assert (fetchWebPage sample (initial_request long_url 200 (createFetch headed_page))
            empty_world = _) as Hrun by (vm_compute; reflexivity).
  destruct (selectors_keep_toc_and_title sample
              (initial_request long_url 200 (createFetch headed_page)) empty_world _ _
              (Some [ByNumber 1]) eq_refl Hrun)
    as (r2 & w2 & Hrun2 & _ & _ & _ & Htoc & _).
  do 4 eexists. split; [exact Hrun|]. split; [exact Hrun2|]. split; [exact Htoc|].
  reflexivity.
Defined.

(** ** Where the headings are *)

Lemma extractHeadings_from_opens (s : string) : forall pos skip,
  Forall (fun heading =>
            char_at s (position heading - pos) = Some "<"%char
            /\ exists c d,
                 char_at s (position heading - pos + 1) = Some c /\ is_h c = true
                 /\ char_at s (position heading - pos + 2) = Some d
                 /\ heading_digit d = Some (level heading))
    (extractHeadings_from s pos skip).
Proof.
  induction s as [|c s IH]; intros pos skip; [constructor|].
  assert (forall k,
    Forall (fun heading =>
              char_at (String c s) (position heading - pos) = Some "<"%char
              /\ exists c0 d,
                   char_at (String c s) (position heading - pos + 1) = Some c0
                   /\ is_h c0 = true
                   /\ char_at (String c s) (position heading - pos + 2) = Some d
                   /\ heading_digit d = Some (level heading))
      (extractHeadings_from s (pos + 1) k)) as Hrest.
  { intros k. destruct (extractHeadings_from_spec s (pos + 1) k) as [Hwhere _].
    pose proof (IH (pos + 1) k) as Hopens.
    assert (Hboth := conj Hwhere Hopens). apply Forall_and in Hboth.
    eapply Forall_impl; [exact Hboth|]. cbv beta.
    intros heading [([Hlo _] & _) (Hlt & c0 & d & Hc0 & Hh & Hd & Hlvl)].
    rewrite !char_at_tail by lia.
    replace (position heading - pos - 1) with (position heading - (pos + 1)) by lia.
    replace (position heading - pos + 1 - 1) with (position heading - (pos + 1) + 1) by lia.
    replace (position heading - pos + 2 - 1) with (position heading - (pos + 1) + 2) by lia.
    split; [exact Hlt|]. by exists c0, d. }
  rewrite extractHeadings_from_cons. destruct skip as [|k]; [|apply Hrest].
  destruct (heading_match (String c s)) as [[[lvl captured] n]|] eqn:Hmatch; [|apply Hrest].
  cbv zeta. apply Forall_app. split; [|apply Hrest].
  destruct (Js.truthy _); [|constructor].
  apply Forall_cons. split; [|constructor]. cbn [position level].
  unfold heading_match in Hmatch.
  destruct s as [|c2 [|d rest]]; try discriminate.
  destruct (Ascii.eqb c "<" && is_h c2) eqn:Hopen; [|discriminate].
  apply andb_true_iff in Hopen as [Hc Hh]. apply Ascii.eqb_eq in Hc. subst c.
  destruct (heading_digit d) as [l|] eqn:Hd; [|discriminate].
  destruct (upto_gt rest) as [[n1 rest1]|]; [|discriminate].
  destruct (lazy_capture d rest1) as [[cap n2]|]; [|discriminate].
  injection Hmatch as <- _ _.
  rewrite Z.sub_diag. split; [reflexivity|]. by exists c2, d.
Qed.

(** X19.  Every heading of the index is where the fragment has the
    opening of a heading tag of the same level: the code unit at its
    position is [<], the next one [h] or [H], and the third the digit of
    its level. *)
Theorem extractHeadings_sound (html : string) :
  Forall (opens_heading html) (extractHeadings html).
Proof.
  unfold extractHeadings. pose proof (extractHeadings_from_opens html 0 O) as H.
  eapply Forall_impl; [exact H|]. cbv beta. unfold opens_heading.
  intros heading. by rewrite Z.sub_0_r.
Qed.

(** ** What a request stores *)

(** X20.  The store changes only by the entry of the token a response
    carries.  A response without a token leaves the store and the clock as
    they were; a response with a token comes with exactly one new entry,
    stored under that token, which records the URL, the title and the
    method of the response and an offset equal to the value in the key,
    and the request read the clock twice: first for the key, then for the
    time stamp of the entry. *)
Theorem response_token_is_the_stored_key (E : Env) (options : WebFetchOptions)
    (w w' : World) (r : WebFetchResult) :
  fetchWebPage E options w = (Returned r, w') ->
  match res_continuationToken r with
  | None => contentCache w' = contentCache w /\ clockReads w' = clockReads w
  | Some token =>
      exists entry,
        contentCache w' = <[token := entry]> (contentCache w)
        /\ token = continuation_key (res_url r) (ce_offset entry) (date_now E (clockReads w))
        /\ ce_url entry = res_url r
        /\ ce_title entry = res_title r
        /\ method (ce_metadata entry) = res_method r
        /\ ce_timestamp entry = date_now E (S (clockReads w))
        /\ clockReads w' = S (S (clockReads w))
  end.
Proof.
  intros Hrun.
  destruct (provided (opt_continuationToken options)) as [token|] eqn:Htok.
  - rewrite (fetchWebPage_continuation E options token Htok) in Hrun.
    rewrite handleContinuation_unfold in Hrun.
    destruct (contentCache w !! token) as [cached|]; [|discriminate].
    cbv zeta in Hrun. destruct (tr_hasMore _); injection Hrun as <- <-; simpl.
    + eexists. split; [reflexivity|]. repeat split.
    + split; reflexivity.
  - destruct (fetchWebPage_initial_inv E options w w' r Htok Hrun)
      as (url & html & doc & w1 & Hacq & _ & Hpag).
    destruct Hacq as (_ & _ & fetchImpl & response & _ & Hacq). cbv zeta in Hacq.
    destruct Hacq as (_ & -> & _).
    rewrite extractAndPaginate_unfold in Hpag. cbv zeta in Hpag.
    destruct (tr_hasMore _ && _); injection Hpag as <- <-; simpl.
    + eexists. split; [reflexivity|]. repeat split.
    + split; reflexivity.
Qed.

Lemma response_token_is_the_stored_key_witness :
  exists r w' entry,
    fetchWebPage sample (initial_request long_url 200 (createFetch long_page)) empty_world
    = (Returned r, w')
    /\ res_continuationToken r
       = Some "https://example.com/long:continuation:200:1700000000000"
    /\ contentCache w'
       = <["https://example.com/long:continuation:200:1700000000000" := entry]> ∅
    /\ ce_offset entry = 200
    /\ ce_timestamp entry = 1700000000001.
Proof.
  assert (fetchWebPage sample (initial_request long_url 200 (createFetch long_page))
            empty_world = _) as Hrun by (vm_compute; reflexivity).
  pose proof (response_token_is_the_stored_key sample
                (initial_request long_url 200 (createFetch long_page)) empty_world _ _ Hrun)
    as Hstored.
  cbn [res_continuationToken] in Hstored.
  destruct Hstored as (entry & Hcache & Hkey & _ & _ & _ & Hstamp & _).
  do 3 eexists. split; [exact Hrun|]. split; [reflexivity|].
  split; [exact Hcache|]. split; [|exact Hstamp].
  apply (continuation_key_offset long_url (ce_offset entry) 200
           1700000000000 1700000000000). symmetry. exact Hkey.
Defined.

(** ** Comments *)

Lemma lower_char_gt (c : ascii) : Ascii.eqb ">" (Js.lower_char c) = Ascii.eqb c ">".
Proof. destruct c as [[] [] [] [] [] [] [] []]; reflexivity. Qed.

(** The closing of a comment does not start inside text without [>]. *)
Lemma comment_close_not_inside (c : ascii) (inner post : string) :
  free_of ">" (String c inner) = true ->
  startsWith_ci (String c inner +:+ "-->" +:+ post) "-->" = false.
Proof.
  intros Hfree. unfold free_of in Hfree. cbn [all_chars] in Hfree.
  apply andb_true_iff in Hfree as [_ Hfree].
  rewrite app_cons.
  change (startsWith_ci (String c (inner +:+ "-->" +:+ post)) "-->")
    with (Ascii.eqb "-" (Js.lower_char c) && startsWith_ci (inner +:+ "-->" +:+ post) "->").
  destruct (Ascii.eqb "-" (Js.lower_char c)); [|reflexivity]. cbn [andb].
  destruct inner as [|c2 inner].
  - reflexivity.
  - cbn [all_chars] in Hfree. apply andb_true_iff in Hfree as [_ Hfree].
    rewrite app_cons.
    change (startsWith_ci (String c2 (inner +:+ "-->" +:+ post)) "->")
      with (Ascii.eqb "-" (Js.lower_char c2) && startsWith_ci (inner +:+ "-->" +:+ post) ">").
    destruct (Ascii.eqb "-" (Js.lower_char c2)); [|reflexivity]. cbn [andb].
    destruct inner as [|c3 inner].
    + reflexivity.
    + cbn [all_chars] in Hfree. apply andb_true_iff in Hfree as [Hc3 _].
      apply negb_true_iff in Hc3. rewrite app_cons.
      change (startsWith_ci (String c3 (inner +:+ "-->" +:+ post)) ">")
        with (Ascii.eqb ">" (Js.lower_char c3) && startsWith_ci (inner +:+ "-->" +:+ post) "").
      by rewrite lower_char_gt, Hc3.
Qed.

(** The first closing of a comment behind text without [>] is the one
    right behind it. *)
Lemma upto_comment_close (inner post : string) :
  free_of ">" inner = true ->
  upto_literal "-->" (inner +:+ "-->" +:+ post) = Some (String.length inner + 3)%nat.
Proof.
  intros Hfree. induction inner as [|c inner IH].
  - rewrite app_empty_l. destruct ("-->" +:+ post) eqn:Hs; [discriminate|].
    unfold upto_literal; fold upto_literal. rewrite <- Hs.
    by rewrite (startsWith_ci_app "-->" post eq_refl).
  - pose proof (comment_close_not_inside c inner post Hfree) as Hnot.
    rewrite app_cons in Hnot |- *.
    unfold upto_literal; fold upto_literal. rewrite Hnot.
    unfold free_of in Hfree. cbn [all_chars] in Hfree.
    apply andb_true_iff in Hfree as [_ Hfree].
    rewrite (IH Hfree). reflexivity.
Qed.

(** X21.  A comment behind text without [<], whose text has neither [<]
    nor [>], is removed whole: the result is the text before it followed by
    the cleaned rest of the document. *)
Theorem cleanHtml_removes_comment (pre inner post : string) :
  free_of "<" pre = true ->
  free_of "<" inner = true ->
  free_of ">" inner = true ->
  cleanHtml (pre +:+ ("<!--" +:+ inner +:+ "-->") +:+ post) = pre +:+ cleanHtml post.
Proof.
  intros Hpre Hinner Hgt.
  assert (forall c s', Ascii.eqb c "<" = false ->
            element_block "<script" "</script>" (String c s') = None) as Hscript
    by (intros c s'; apply (element_block_needs_lt "script")).
  assert (forall c s', Ascii.eqb c "<" = false ->
            element_block "<style" "</style>" (String c s') = None) as Hstyle
    by (intros c s'; apply (element_block_needs_lt "style")).
  assert (forall matcher rest,
            (forall c s', Ascii.eqb c "<" = false -> matcher (String c s') = None) ->
            (forall x, matcher (String "<" (String "!" x)) = None) ->
            removeAll matcher (("<!--" +:+ inner +:+ "-->") +:+ rest) O
            = ("<!--" +:+ inner +:+ "-->") +:+ removeAll matcher rest O) as Hcopy.
  { intros matcher rest Hm Hbang. rewrite !app_assoc_string.
    change ("<!--" +:+ ?x) with (String "<" (String "!" ("--" +:+ x))).
    rewrite removeAll_step by apply Hbang. apply (f_equal (String "<")).
    change (String "!" ("--" +:+ ?x)) with ("!--" +:+ x).
    rewrite <- !app_assoc_string.
    rewrite (removeAll_prefix matcher (("!--" +:+ inner) +:+ "-->") rest Hm); [reflexivity|].
    unfold free_of in *. rewrite !all_chars_app, Hinner. reflexivity. }
  unfold cleanHtml.
  rewrite (removeAll_prefix _ pre _ Hscript Hpre).
  rewrite (Hcopy _ post Hscript) by reflexivity.
  rewrite (removeAll_prefix _ pre _ Hstyle Hpre).
  rewrite (Hcopy _ _ Hstyle) by reflexivity.
  apply (removeAll_block comment_block pre ("<!--" +:+ inner +:+ "-->") _
           comment_block_needs_lt Hpre); [done|].
  rewrite !app_assoc_string. unfold comment_block.
  assert (forall x, Js.startsWith ("<!--" +:+ x) "<!--" = true) as ->.
  { intros x. apply startsWith_spec. by exists x. }
  change (skipn_string 4 ("<!--" +:+ ?x)) with x.
  rewrite (upto_comment_close inner _ Hgt). cbn [option_map]. f_equal.
  rewrite !length_app_string. simpl. lia.
Qed.

Lemma cleanHtml_removes_comment_witness :
  cleanHtml ("a " +:+ ("<!--" +:+ " note -- here " +:+ "-->") +:+ " b") = "a " +:+ cleanHtml " b".
Proof.
  exact (cleanHtml_removes_comment "a " " note -- here " " b" eq_refl eq_refl eq_refl).
Defined.
